(** * vs_tensorrt: the ticket semaphore, the instance pool, the per-frame
      orchestration and the setup of [vstrt/vs_tensorrt.cpp]

    The development embeds the C++ source shallowly:
    - machine integers are [Z] with the wrap-around of the atomics and the
      saturation of [int64ToIntS] written out; signed [int] arithmetic that
      overflows, and division by zero, have no defined result ([None]);
    - [TicketSemaphore] and [vsTrtData::acquire]/[release] are a transition
      system over a shared record and one program counter per calling thread,
      run under an arbitrary schedule (sequentially consistent interleaving
      of the atomic operations and of the operations done under the mutex);
    - [vsTrtGetFrame] and [vsTrtCreate] are programs in a small monad that
      records the calls made to the host API and to the collaborators. *)

From Stdlib Require Import ZArith Lia Ascii String.
From stdpp Require Import base option list strings pretty.

Local Open Scope Z_scope.

(** ** Machine integers *)

Module MachInt.

Definition INT_MAX : Z := 2147483647.
Definition INT_MIN : Z := -2147483648.
Definition INTPTR_MAX : Z := 9223372036854775807.
Definition INTPTR_MIN : Z := -9223372036854775808.

Definition in_int (z : Z) : bool := (INT_MIN <=? z) && (z <=? INT_MAX).

(** [std::atomic<intptr_t>::fetch_add] wraps in two's complement. *)
Definition wrap_intptr (z : Z) : Z :=
  (z - INTPTR_MIN) mod 18446744073709551616 + INTPTR_MIN.

(** [int64ToIntS] of VSHelper.h: saturating conversion to [int]. *)
Definition int64ToIntS (i : Z) : Z :=
  if INT_MAX <? i then INT_MAX
  else if i <? INT_MIN then INT_MIN
  else i.

(** Signed [int] arithmetic: a result out of range is undefined. *)
Definition int_result (z : Z) : option Z :=
  if in_int z then Some z else None.

Definition int_sub (a b : Z) : option Z := int_result (a - b).
Definition int_mul (a b : Z) : option Z := int_result (a * b).

(** [a / b] on [int]: truncation towards zero; undefined for [b = 0] and
    for [INT_MIN / -1]. *)
Definition int_div (a b : Z) : option Z :=
  if b =? 0 then None else int_result (Z.quot a b).

End MachInt.

Import MachInt.

(** ** The ticket semaphore and the instance pool *)

Module Pool.

(** [struct TicketSemaphore]: both atomics are value-initialised to 0. *)
Record TicketSemaphore : Type := {
  ticket : Z;
  current : Z
}.

Definition sem_new : TicketSemaphore := {| ticket := 0; current := 0 |}.

(** [TicketSemaphore::init] *)
Definition sem_init (num : Z) (s : TicketSemaphore) : TicketSemaphore :=
  {| ticket := ticket s; current := num |}.

(** [ticket.fetch_add(1)]: the value read, and the semaphore afterwards. *)
Definition sem_take_ticket (s : TicketSemaphore) : Z * TicketSemaphore :=
  (ticket s, {| ticket := wrap_intptr (ticket s + 1); current := current s |}).

(** The test [tk < curr] of the loop of [TicketSemaphore::acquire]. *)
Definition sem_grants (tk curr : Z) : bool := tk <? curr.

(** [current.fetch_add(1)] of [TicketSemaphore::release]. *)
Definition sem_release (s : TicketSemaphore) : TicketSemaphore :=
  {| ticket := ticket s; current := wrap_intptr (current s + 1) |}.

(** The part of [struct vsTrtData] that [acquire] and [release] touch.
    [instances_lock] is [true] while some thread holds the mutex. *)
Record vsTrtData : Type := {
  semaphore : TicketSemaphore;
  tickets : list Z;
  instances_lock : bool
}.

(** The loop [for (int i = 0; i < num_streams; ++i) tickets.push_back(i)]
    of [vsTrtCreate], with [n] iterations left. *)
Fixpoint fill_tickets (n : nat) (i : Z) (tks : list Z) : list Z :=
  match n with
  | O => tks
  | S n' => fill_tickets n' (i + 1) (tks ++ [i])
  end.

(** Lines 364-368 of [vsTrtCreate]. *)
Definition pool_init (num_streams : Z) : vsTrtData :=
  {| semaphore := sem_init num_streams sem_new;
     tickets := fill_tickets (Z.to_nat num_streams) 0 [];
     instances_lock := false |}.

(** Where a calling thread stands in
    [ticket = d->acquire(); inference(...); d->release(ticket)]. One
    constructor per atomic operation or operation under the mutex that is
    still to be done. *)
Inductive pc : Type :=
| Idle                       (* before [d->acquire()] *)
| SemLoad (tk : Z)           (* holds ticket [tk]; next: [current.load] and test *)
| SemWait (tk curr : Z)      (* in [current.wait(curr)] *)
| PoolLock                   (* semaphore passed; next: lock the mutex *)
| PoolBack                   (* mutex held; next: [tickets.back()] *)
| PoolPopBack (t : Z)        (* next: [tickets.pop_back()] *)
| PoolUnlock (t : Z)         (* next: unlock; [acquire] returns [t] *)
| Holding (t : Z)            (* inference running on instance [t] *)
| RelLock (t : Z)            (* in [release(t)]; next: lock the mutex *)
| RelPush (t : Z)            (* mutex held; next: [tickets.push_back(t)] *)
| RelUnlock                  (* next: unlock *)
| RelSem                     (* next: [current.fetch_add(1)] *)
| RelNotify.                 (* next: [current.notify_all()]; then idle *)

Inductive event : Type :=
| EvTake (tid : nat) (tk : Z)    (* [tid] drew ticket [tk] *)
| EvPass (tid : nat) (tk : Z).  (* [tid] saw [tk < curr] and left the loop *)

Record world : Type := {
  shared : vsTrtData;
  threads : list pc;
  log : list event
}.

Definition with_sem (d : vsTrtData) (s : TicketSemaphore) : vsTrtData :=
  {| semaphore := s; tickets := tickets d; instances_lock := instances_lock d |}.
Definition with_tickets (d : vsTrtData) (l : list Z) : vsTrtData :=
  {| semaphore := semaphore d; tickets := l; instances_lock := instances_lock d |}.
Definition with_lock (d : vsTrtData) (b : bool) : vsTrtData :=
  {| semaphore := semaphore d; tickets := tickets d; instances_lock := b |}.

Definition move (w : world) (tid : nat) (d : vsTrtData) (p : pc)
    (evs : list event) : option world :=
  Some {| shared := d; threads := <[tid := p]> (threads w); log := log w ++ evs |}.

(** One step of thread [tid]. [None]: the step has no defined behaviour
    ([back()] or [pop_back()] on an empty vector). A thread that cannot
    proceed (mutex taken, [current] unchanged in [wait]) stays where it is;
    so does the world when [tid] names no thread. *)
Definition step (w : world) (tid : nat) : option world :=
  let d := shared w in
  match threads w !! tid with
  | None => Some w
  | Some Idle =>
      let '(tk, s) := sem_take_ticket (semaphore d) in
      move w tid (with_sem d s) (SemLoad tk) [EvTake tid tk]
  | Some (SemLoad tk) =>
      let curr := current (semaphore d) in
      if sem_grants tk curr
      then move w tid d PoolLock [EvPass tid tk]
      else move w tid d (SemWait tk curr) []
  | Some (SemWait tk curr) =>
      if current (semaphore d) =? curr
      then Some w
      else move w tid d (SemLoad tk) []
  | Some PoolLock =>
      if instances_lock d then Some w
      else move w tid (with_lock d true) PoolBack []
  | Some PoolBack =>
      match last (tickets d) with
      | None => None
      | Some t => move w tid d (PoolPopBack t) []
      end
  | Some (PoolPopBack t) =>
      match tickets d with
      | [] => None
      | _ => move w tid (with_tickets d (removelast (tickets d))) (PoolUnlock t) []
      end
  | Some (PoolUnlock t) => move w tid (with_lock d false) (Holding t) []
  | Some (Holding t) => move w tid d (RelLock t) []
  | Some (RelLock t) =>
      if instances_lock d then Some w
      else move w tid (with_lock d true) (RelPush t) []
  | Some (RelPush t) =>
      move w tid (with_tickets d (tickets d ++ [t])) RelUnlock []
  | Some RelUnlock => move w tid (with_lock d false) RelSem []
  | Some RelSem => move w tid (with_sem d (sem_release (semaphore d))) RelNotify []
  | Some RelNotify => move w tid d Idle []
  end.

(** A schedule names the thread that moves next. *)
Fixpoint exec (w : world) (sched : list nat) : option world :=
  match sched with
  | [] => Some w
  | tid :: sched' =>
      match step w tid with
      | None => None
      | Some w' => exec w' sched'
      end
  end.

(** The filter right after [vsTrtCreate], with [nthreads] host threads. *)
Definition init (num_streams : Z) (nthreads : nat) : world :=
  {| shared := pool_init num_streams;
     threads := replicate nthreads Idle;
     log := [] |}.

(** *** Observations on a thread *)

Definition waiting_ticket (p : pc) : option Z :=
  match p with
  | SemLoad tk | SemWait tk _ => Some tk
  | _ => None
  end.

(** Let through by the semaphore and not yet past [semaphore.release()]. *)
Definition past_sem (p : pc) : bool :=
  match p with
  | PoolLock | PoolBack | PoolPopBack _ | PoolUnlock _ | Holding _
  | RelLock _ | RelPush _ | RelUnlock | RelSem => true
  | _ => false
  end.

(** The index a thread has popped and not yet pushed back. *)
Definition held_index (p : pc) : option Z :=
  match p with
  | PoolUnlock t | Holding t | RelLock t | RelPush t => Some t
  | _ => None
  end.

(** Let through, with the pop still to come. *)
Definition before_pop (p : pc) : bool :=
  match p with
  | PoolLock | PoolBack | PoolPopBack _ => true
  | _ => false
  end.

Definition in_critical (p : pc) : bool :=
  match p with
  | PoolBack | PoolPopBack _ | PoolUnlock _ | RelPush _ | RelUnlock => true
  | _ => false
  end.

Fixpoint count (f : pc -> bool) (l : list pc) : Z :=
  match l with
  | [] => 0
  | p :: l' => (if f p then 1 else 0) + count f l'
  end.

Definition holders (w : world) : Z := count past_sem (threads w).
Definition checked_out (w : world) : list Z := omap held_index (threads w).
Definition free_list (w : world) : list Z := tickets (shared w).

(** *** The invariant of the pool

    [N] is the concurrency width the pool was initialised with and [n] a
    bound on the number of steps taken so far. *)
Record Inv (N n : Z) (w : world) : Prop := {
  inv_width : 0 <= N;
  inv_steps : 0 <= n;
  inv_ticket : 0 <= ticket (semaphore (shared w)) <= n;
  inv_current : N <= current (semaphore (shared w)) <= N + n;
  (* every ticket drawn is waiting, admitted, or has been released *)
  inv_drawn :
    ticket (semaphore (shared w)) =
      (current (semaphore (shared w)) - N) + holders w
      + Z.of_nat (length (omap waiting_ticket (threads w)));
  (* a ticket that [current] has not reached is still waiting *)
  inv_waiting : forall k,
    current (semaphore (shared w)) <= k < ticket (semaphore (shared w)) ->
    k ∈ omap waiting_ticket (threads w);
  (* [wait] was entered on a value that did not let the ticket through *)
  inv_parked : forall tk curr, SemWait tk curr ∈ threads w -> curr <= tk;
  inv_granted : forall tid tk,
    EvPass tid tk ∈ log w -> tk < current (semaphore (shared w));
  inv_pool : free_list w ++ checked_out w ≡ₚ seqZ 0 N;
  inv_mutex :
    count in_critical (threads w) = if instances_lock (shared w) then 1 else 0;
  inv_back : forall t, PoolPopBack t ∈ threads w -> last (free_list w) = Some t
}.

(** Admission in strict arrival order, read on a state: no caller has left
    the loop of [TicketSemaphore::acquire] with ticket [b] while a caller
    with an earlier ticket [a] is still inside it. *)
Definition strict_arrival_order (w : world) : Prop :=
  forall tidA tidB a b pA,
    EvPass tidB b ∈ log w ->
    threads w !! tidA = Some pA ->
    waiting_ticket pA = Some a ->
    a < b ->
    False.

(** The ticket an admission recorded. *)
Definition granted_ticket (e : event) : option Z :=
  match e with
  | EvPass _ tk => Some tk
  | _ => None
  end.

Definition granted_tickets (w : world) : list Z := omap granted_ticket (log w).
Definition waiting_tickets (w : world) : list Z :=
  omap waiting_ticket (threads w).

(** Tickets in order: a waiting or admitted ticket has been drawn, and on
    a pool of width 1 every admitted ticket is before every waiting one. *)
Record Order (N : Z) (w : world) : Prop := {
  ord_waiting : forall a,
    a ∈ waiting_tickets w -> a < ticket (semaphore (shared w));
  ord_granted : forall b,
    b ∈ granted_tickets w -> b < ticket (semaphore (shared w));
  ord_single : N = 1 ->
    forall b a, b ∈ granted_tickets w -> a ∈ waiting_tickets w -> b < a
}.

(** What a step does to the tickets: a ticket is drawn, a waiting ticket is
    admitted, or neither the waiting tickets nor the admissions change. *)
Inductive effect (w w' : world) : Prop :=
| Draw :
    ticket (semaphore (shared w'))
      = wrap_intptr (ticket (semaphore (shared w)) + 1) ->
    current (semaphore (shared w')) = current (semaphore (shared w)) ->
    waiting_tickets w' ≡ₚ ticket (semaphore (shared w)) :: waiting_tickets w ->
    granted_tickets w' = granted_tickets w ->
    effect w w'
| Grant b :
    ticket (semaphore (shared w')) = ticket (semaphore (shared w)) ->
    b < current (semaphore (shared w)) ->
    waiting_tickets w ≡ₚ b :: waiting_tickets w' ->
    granted_tickets w' = granted_tickets w ++ [b] ->
    effect w w'
| Quiet :
    ticket (semaphore (shared w')) = ticket (semaphore (shared w)) ->
    waiting_tickets w' ≡ₚ waiting_tickets w ->
    granted_tickets w' = granted_tickets w ->
    effect w w'.

(** No request holds an instance. *)
Definition quiescent (w : world) : Prop :=
  forall p, p ∈ threads w -> held_index p = None.

(** Thread [tid] holds index [i]. *)
Definition holds (w : world) (tid : nat) (i : Z) : Prop :=
  exists p, threads w !! tid = Some p /\ held_index p = Some i.

(** The schedule of four requests on a pool of width 2 in which the last
    caller leaves [TicketSemaphore::acquire] before the one that drew the
    ticket before it: threads 0 and 1 check out both instances, threads 2
    and 3 draw tickets 2 and 3 and park, threads 0 and 1 release, and
    thread 3 is the first to wake and test again. *)
Definition overtaking_schedule : list nat :=
  (repeat 0 6 ++ repeat 1 6 ++ [2; 2; 3; 3]
   ++ repeat 0 6 ++ repeat 1 6 ++ [3; 3])%nat.

End Pool.

(** ** The host API, the collaborators and the monad of recorded calls *)

Module Host.

Record VSVideoInfo : Type := {
  numPlanes : Z;          (* [format->numPlanes] *)
  bytesPerSample : Z;     (* [format->bytesPerSample] *)
  width : Z;
  height : Z
}.

Record VSNodeRef : Type := {
  node_id : nat;
  node_vi : VSVideoInfo   (* what [vsapi->getVideoInfo(node)] points to *)
}.

Inductive frame_id : Type :=
| SrcFrame (n : Z) (node : nat)   (* frame [n] of an upstream node *)
| DstFrame (n : Z).               (* the frame made by [newVideoFrame] *)

Record VSFrameRef : Type := {
  frame : frame_id;
  frame_width : Z;        (* [getFrameWidth(f, 0)] *)
  frame_height : Z;       (* [getFrameHeight(f, 0)] *)
  frame_stride : Z;       (* [getStride(f, 0)] *)
  frame_bytesPerSample : Z
}.

(** [nvinfer1::Dims]; entries of [d] that are not given read as 0. *)
Record Dims : Type := {
  nbDims : Z;
  d : list Z
}.

Definition dim (x : Dims) (i : nat) : Z := default 0 (d x !! i).

(** What [getBindingDimensions(0)] and [(1)] answer, for an engine and for
    an execution context. *)
Record Bindings : Type := {
  binding0 : Dims;
  binding1 : Dims
}.

Record InferenceInstance : Type := {
  exec_context : Bindings
}.

Record InputInfo : Type := {
  in_width : Z;
  in_height : Z;
  in_pitch : Z;
  in_bytes_per_sample : Z;
  patch_w : Z;
  patch_h : Z
}.

Record OutputInfo : Type := {
  out_pitch : Z;
  out_bytes_per_sample : Z
}.

Record IOInfo : Type := {
  io_in : InputInfo;
  io_out : OutputInfo;
  w_scale : Z;
  h_scale : Z;
  io_pad : Z
}.

Inductive BlockSize : Type :=
| RequestedBlockSize (block_w block_h : Z)
| VideoSize (vwidth vheight : Z).

(** A plane pointer: [getReadPtr(f, j)] or [getWritePtr(f, j)]. *)
Definition plane_ptr : Type := frame_id * Z.

(** The calls that leave the filter, in the order they are made. *)
Inductive call : Type :=
| RequestFrameFilter (n : Z) (node : nat)
| GetFrameFilter (n : Z) (node : nat)
| NewVideoFrame (n : Z)
| PoolAcquire
| Inference (ticket : Z) (info : IOInfo) (src_ptrs dst_ptrs : list plane_ptr)
| PoolRelease (ticket : Z)
| FreeFrame (f : frame_id)
| SetFilterError (msg : string)
| PropGetNode (i : nat)
| SetError (msg : string)
| FreeNode (node : nat)
| CudaGetDeviceCount
| CudaSetDevice (device_id : Z)
| CreateInferRuntime
| InitEngine (engine_path : string)
| SelectProfile
| GetResource (i : Z)
| CreateFilter.

Inductive result (A : Type) : Type :=
| Returned (a : A)          (* ran to its [return] *)
| Failed (msg : string)     (* left through [set_error] with this message *)
| Undefined                 (* met an operation without defined behaviour *)
| Terminated.               (* an exception left a [noexcept] function *)

Arguments Returned {A} a.
Arguments Failed {A} msg.
Arguments Undefined {A}.
Arguments Terminated {A}.

(** A computation: the calls made so far and how it ended. *)
Definition M (A : Type) : Type := list call * result A.

Definition bind {A B : Type} (f : A -> M B) (m : M A) : M B :=
  match m with
  | (t, Returned a) => let '(t', r) := f a in (t ++ t', r)
  | (t, Failed msg) => (t, Failed msg)
  | (t, Undefined) => (t, Undefined)
  | (t, Terminated) => (t, Terminated)
  end.

#[global] Instance M_ret : MRet M := fun A a => ([], Returned a).
#[global] Instance M_bind : MBind M := fun A B f m => bind f m.

Definition emit (c : call) : M unit := ([c], Returned tt).

Definition undefined {A : Type} : M A := ([], Undefined).

(** Lifts [int] arithmetic and indexing: no result means no defined
    behaviour. *)
Definition defined {A : Type} (o : option A) : M A :=
  match o with
  | Some a => mret a
  | None => undefined
  end.

(** [v.reserve(n)] with [n] an [int]: a negative [n] converts to a
    [size_t] above [max_size()], [std::length_error] is thrown, and since
    the callers are [noexcept] the program is terminated. *)
Definition reserve (n : Z) : M unit :=
  if n <? 0 then ([], Terminated) else mret tt.

Fixpoint for_each {A : Type} (l : list A) (body : A -> M unit) : M unit :=
  match l with
  | [] => mret tt
  | x :: l' => body x ;; for_each l' body
  end.

Definition trace {A : Type} (m : M A) : list call := fst m.
Definition outcome {A : Type} (m : M A) : result A := snd m.

End Host.

(** ** The frame orchestrator: [vsTrtGetFrame] *)

Module Filter.

Import Host.

(** [struct vsTrtData]. [pool] gathers the members [semaphore], [tickets]
    and [instances_lock], whose concurrent use is the subject of [Pool];
    [engine] keeps what [engine->getBindingDimensions] answers. *)
Record vsTrtData : Type := {
  nodes : list VSNodeRef;
  out_vi : VSVideoInfo;
  device_id : Z;
  num_streams : Z;
  use_cuda_graph : bool;
  pad : Z;
  engine : Bindings;
  pool : Pool.vsTrtData;
  instances : list InferenceInstance
}.

Inductive ActivationReason : Type :=
| arInitial
| arFrameReady
| arAllFramesReady
| arError.

(** What the surroundings answer during one call of [vsTrtGetFrame]. *)
Record FrameHost : Type := {
  host_stride : frame_id -> Z;
  (* the index [d->acquire()] hands out *)
  host_acquire : Z;
  (* [inference(instance, device_id, use_cuda_graph, info, src_ptrs, dst_ptrs)] *)
  host_inference :
    InferenceInstance -> Z -> bool -> IOInfo ->
    list plane_ptr -> list plane_ptr -> option string
}.

Definition src_frame (h : FrameHost) (n : Z) (node : VSNodeRef) : VSFrameRef :=
  {| frame := SrcFrame n (node_id node);
     frame_width := width (node_vi node);
     frame_height := height (node_vi node);
     frame_stride := host_stride h (SrcFrame n (node_id node));
     frame_bytesPerSample := bytesPerSample (node_vi node) |}.

(** Modelled from the spec: [getVideoInfo] and [getFrames] of utils.h, which
    is not under src/: one video info and one delivered frame per upstream
    source, in source order. *)
Definition getVideoInfo (nodes : list VSNodeRef) : list VSVideoInfo :=
  map node_vi nodes.

Fixpoint getFrames (h : FrameHost) (n : Z) (nodes : list VSNodeRef)
    : M (list VSFrameRef) :=
  match nodes with
  | [] => mret []
  | node :: nodes' =>
      emit (GetFrameFilter n (node_id node));;
      frames ← getFrames h n nodes';
      mret (src_frame h n node :: frames)
  end.

(** The two nested loops that fill [src_ptrs]. *)
Fixpoint read_ptrs (in_vis : list VSVideoInfo) (src_frames : list VSFrameRef)
    : list plane_ptr :=
  match in_vis, src_frames with
  | vi :: in_vis', f :: src_frames' =>
      map (fun j => (frame f, j)) (seqZ 0 (numPlanes vi))
      ++ read_ptrs in_vis' src_frames'
  | _, _ => []
  end.

(** [d->instances[ticket]]: an index outside the vector has no defined
    behaviour. *)
Definition instance_at (l : list InferenceInstance) (ticket : Z)
    : option InferenceInstance :=
  if ticket <? 0 then None else l !! Z.to_nat ticket.

(** Lines 152-161: the patch shapes bound to the instance and the scale
    factors, as [(src_patch_h, src_patch_w, h_scale, w_scale)]. *)
Definition derive_scales (instance : InferenceInstance)
    : option (Z * Z * Z * Z) :=
  let src_dim := binding0 (exec_context instance) in
  let src_patch_h := dim src_dim 2 in
  let src_patch_w := dim src_dim 3 in
  let dst_dim := binding1 (exec_context instance) in
  let dst_patch_h := dim dst_dim 2 in
  let dst_patch_w := dim dst_dim 3 in
  h_scale ← int_div dst_patch_h src_patch_h;
  w_scale ← int_div dst_patch_w src_patch_w;
  Some (src_patch_h, src_patch_w, h_scale, w_scale).

Definition vsTrtGetFrame (h : FrameHost) (n : Z)
    (activationReason : ActivationReason) (d : vsTrtData)
    : M (option VSFrameRef) :=
  match activationReason with
  | arInitial =>
      for_each (nodes d) (fun node => emit (RequestFrameFilter n (node_id node)));;
      mret None
  | arAllFramesReady =>
      let in_vis := getVideoInfo (nodes d) in
      src_frames ← getFrames h n (nodes d);
      let src_planes := dim (binding0 (engine d)) 1 in
      reserve src_planes;;
      let src_ptrs := read_ptrs in_vis src_frames in
      src_frame0 ← defined (src_frames !! 0%nat);
      emit (NewVideoFrame n);;
      let dst_frame :=
        {| frame := DstFrame n;
           frame_width := width (out_vi d);
           frame_height := height (out_vi d);
           frame_stride := host_stride h (DstFrame n);
           frame_bytesPerSample := bytesPerSample (out_vi d) |} in
      let dst_planes := dim (binding1 (engine d)) 1 in
      reserve dst_planes;;
      let dst_ptrs := map (fun i => (frame dst_frame, i)) (seqZ 0 dst_planes) in
      emit PoolAcquire;;
      let ticket := host_acquire h in
      instance ← defined (instance_at (instances d) ticket);
      '(src_patch_h, src_patch_w, h_scale, w_scale) ← defined (derive_scales instance);
      let info :=
        {| io_in :=
             {| in_width := frame_width src_frame0;
                in_height := frame_height src_frame0;
                in_pitch := frame_stride src_frame0;
                in_bytes_per_sample := frame_bytesPerSample src_frame0;
                patch_w := src_patch_w;
                patch_h := src_patch_h |};
           io_out :=
             {| out_pitch := frame_stride dst_frame;
                out_bytes_per_sample := frame_bytesPerSample dst_frame |};
           w_scale := w_scale;
           h_scale := h_scale;
           io_pad := pad d |} in
      emit (Inference ticket info src_ptrs dst_ptrs);;
      let inference_result :=
        host_inference h instance (device_id d) (use_cuda_graph d)
          info src_ptrs dst_ptrs in
      emit (PoolRelease ticket);;
      for_each src_frames (fun f => emit (FreeFrame (frame f)));;
      match inference_result with
      | Some msg =>
          emit (SetFilterError ("vsTrtGetFrame: " ++ msg));;
          emit (FreeFrame (frame dst_frame));;
          mret None
      | None => mret (Some dst_frame)
      end
  | _ => mret None
  end.

(** A request signals a violation: it reports a filter error or does not
    run to its [return]. *)
Definition signals_violation {A : Type} (m : M A) : Prop :=
  (exists msg, SetFilterError msg ∈ trace m)
  \/ (forall a, outcome m <> Returned a).

(** Some bound output patch dimension is not a multiple of the input one. *)
Definition non_integral (instance : InferenceInstance) : Prop :=
  let src_dim := binding0 (exec_context instance) in
  let dst_dim := binding1 (exec_context instance) in
  dim dst_dim 2 mod dim src_dim 2 <> 0 \/ dim dst_dim 3 mod dim src_dim 3 <> 0.

(** An instance bound to input patches of [h_in] x [w_in] and output
    patches of [h_out] x [w_out] (layout NCHW). *)
Definition bound_instance (c_in h_in w_in c_out h_out w_out : Z)
    : InferenceInstance :=
  {| exec_context :=
       {| binding0 := {| nbDims := 4; d := [1; c_in; h_in; w_in] |};
          binding1 := {| nbDims := 4; d := [1; c_out; h_out; w_out] |} |} |}.

End Filter.

(** ** The setup orchestrator: [vsTrtCreate] *)

Module Setup.

Import Host Filter.

(** The arguments of [trt.Model] as the input [VSMap] holds them; an
    optional argument that is absent is [None]. *)
Record VSMap : Type := {
  clips : list VSNodeRef;
  engine_path : string;
  prop_pad : option Z;
  prop_block_w : option Z;
  prop_block_h : option Z;
  prop_device_id : option Z;
  prop_use_cuda_graph : option Z;
  prop_num_streams : option Z;
  prop_verbosity : option Z
}.

(** [vsapi->propGetInt(in, key, 0, &error)]: the value and the error flag;
    an absent key reads as 0 with the flag set. *)
Definition propGetInt (v : option Z) : Z * bool :=
  match v with
  | Some x => (x, false)
  | None => (0, true)
  end.

(** The selected profile, or the selector's error message; it is handed to
    [getResource] as it is. *)
Definition ProfileIndex : Type := Z + string.

(** What the collaborators answer during setup. *)
Record SetupHost : Type := {
  checkNodes : list VSVideoInfo -> option string;
  cudaGetDeviceCount : Z + string;              (* the count, or the CUDA error *)
  cudaSetDevice : Z -> option string;           (* the CUDA error, if any *)
  initEngine : string -> Bindings + string;     (* the engine, or an error message *)
  selectProfile : Bindings -> BlockSize -> ProfileIndex;
  (* the [i]-th call of [getResource] *)
  getResource :
    Z -> Bindings -> ProfileIndex -> BlockSize -> bool ->
    InferenceInstance + string;
  setDimensions : VSVideoInfo -> Bindings -> VSVideoInfo
}.

Definition dquote : string := String "034"%char EmptyString.

Definition msg_pad_negative : string :=
  dquote ++ "pad" ++ dquote ++ " should be non-negative".
Definition msg_pad_too_large : string :=
  dquote ++ "pad" ++ dquote ++ " too large".
Definition msg_block_w_missing : string :=
  dquote ++ "block_w" ++ dquote ++ " must be specified".

(** The lambda [set_error]: reports the message and frees every node taken
    so far; each use is [return set_error(...)]. The message is prefixed
    with [__func__], which inside the body of the lambda names the
    lambda's function call operator, not [vsTrtCreate]. *)
Definition set_error {A : Type} (nodes : list VSNodeRef)
    (error_message : string) : M A :=
  (SetError ("operator(): " ++ error_message)
     :: map (fun node => FreeNode (node_id node)) nodes,
   Failed ("operator(): " ++ error_message)).

(** Modelled from the spec: the macro [checkError] comes from a header that
    is not under src/; by the fail-fast rule of the setup sequence a CUDA
    call that fails ends setup through [set_error]. *)
Definition checkError (nodes : list VSNodeRef) (expr : string)
    (err : option string) : M unit :=
  match err with
  | None => mret tt
  | Some message => set_error nodes ("'" ++ expr ++ "' failed: " ++ message)
  end.

(** Lines 258-264. *)
Definition parse_pad (nodes : list VSNodeRef) (in_ : VSMap) : M Z :=
  let '(v, error) := propGetInt (prop_pad in_) in
  let pad := if error then 0 else int64ToIntS v in
  if pad <? 0 then set_error nodes msg_pad_negative else mret pad.

(** The test [a - 2 * pad <= 0 || b - 2 * pad <= 0] on [int]. *)
Definition pad_leaves_nothing (pad a b : Z) : M bool :=
  twice ← defined (int_mul 2 pad);
  rest_a ← defined (int_sub a twice);
  if rest_a <=? 0 then mret true
  else
    twice' ← defined (int_mul 2 pad);
    rest_b ← defined (int_sub b twice');
    mret (rest_b <=? 0).

(** Lines 266-300. *)
Definition resolve_block_size (nodes : list VSNodeRef)
    (in_vis : list VSVideoInfo) (pad : Z) (in_ : VSMap) : M BlockSize :=
  let '(v1, error1) := propGetInt (prop_block_w in_) in
  let '(v2, error2) := propGetInt (prop_block_h in_) in
  let block_w := int64ToIntS v1 in
  let block_h := int64ToIntS v2 in
  if negb error1 then
    let block_h := if error2 then block_w else block_h in
    too_large ← pad_leaves_nothing pad block_w block_h;
    if too_large : bool then set_error nodes msg_pad_too_large
    else mret (RequestedBlockSize block_w block_h)
  else
    if negb (pad =? 0) then set_error nodes msg_block_w_missing
    else
      vi0 ← defined (in_vis !! 0%nat);
      let width := width vi0 in
      let height := height vi0 in
      too_large ← pad_leaves_nothing pad width height;
      if too_large : bool then set_error nodes msg_pad_too_large
      else mret (VideoSize width height).

(** Lines 302-314. *)
Definition select_device (h : SetupHost) (nodes : list VSNodeRef)
    (in_ : VSMap) : M Z :=
  let '(v, error) := propGetInt (prop_device_id in_) in
  let device_id := if error then 0 else int64ToIntS v in
  emit CudaGetDeviceCount;;
  match cudaGetDeviceCount h with
  | inr message =>
      set_error nodes ("'cudaGetDeviceCount(&device_count)' failed: " ++ message)
  | inl device_count =>
      if (0 <=? device_id) && (device_id <? device_count) then
        emit (CudaSetDevice device_id);;
        checkError nodes "cudaSetDevice(device_id)" (cudaSetDevice h device_id);;
        mret device_id
      else
        set_error nodes ("invalid device ID (" ++ pretty device_id ++ ")")
  end.

(** Lines 338-344. *)
Definition load_engine (h : SetupHost) (nodes : list VSNodeRef)
    (in_ : VSMap) : M Bindings :=
  emit CreateInferRuntime;;
  emit (InitEngine (engine_path in_));;
  match initEngine h (engine_path in_) with
  | inl engine => mret engine
  | inr message => set_error nodes message
  end.

(** What setup has settled when the engine is loaded and the profile
    selected (lines 230-346). *)
Record Config : Type := {
  cfg_pad : Z;
  cfg_block_size : BlockSize;
  cfg_device_id : Z;
  cfg_use_cuda_graph : bool;
  cfg_num_streams : Z;
  cfg_engine : Bindings;
  cfg_profile : ProfileIndex
}.

Definition configure (h : SetupHost) (in_ : VSMap) : M Config :=
  let nodes := clips in_ in
  for_each (seq 0 (length nodes)) (fun i => emit (PropGetNode i));;
  let in_vis := map node_vi nodes in
  match checkNodes h in_vis with
  | Some err => set_error nodes err
  | None =>
      pad ← parse_pad nodes in_;
      block_size ← resolve_block_size nodes in_vis pad in_;
      device_id ← select_device h nodes in_;
      let '(v, error) := propGetInt (prop_use_cuda_graph in_) in
      let use_cuda_graph := if error then false else negb (v =? 0) in
      let '(v, error) := propGetInt (prop_num_streams in_) in
      let num_streams := if error then 1 else int64ToIntS v in
      (* lines 326-336 set the verbosity of the logger and touch nothing else *)
      engine ← load_engine h nodes in_;
      emit SelectProfile;;
      let maybe_profile_index := selectProfile h engine block_size in
      mret {| cfg_pad := pad;
              cfg_block_size := block_size;
              cfg_device_id := device_id;
              cfg_use_cuda_graph := use_cuda_graph;
              cfg_num_streams := num_streams;
              cfg_engine := engine;
              cfg_profile := maybe_profile_index |}
  end.

(** The loop of lines 349-362, with [n] iterations left at index [i]. *)
Fixpoint build_instances (h : SetupHost) (nodes : list VSNodeRef)
    (cfg : Config) (n : nat) (i : Z) (instances : list InferenceInstance)
    : M (list InferenceInstance) :=
  match n with
  | O => mret instances
  | S n' =>
      emit (GetResource i);;
      match getResource h i (cfg_engine cfg) (cfg_profile cfg)
              (cfg_block_size cfg) (cfg_use_cuda_graph cfg) with
      | inl instance =>
          build_instances h nodes cfg n' (i + 1) (instances ++ [instance])
      | inr message => set_error nodes message
      end
  end.

(** Lines 348-377: the pool, the published descriptor, the filter. *)
Definition allocate (h : SetupHost) (in_ : VSMap) (cfg : Config)
    : M vsTrtData :=
  let nodes := clips in_ in
  let in_vis := map node_vi nodes in
  let num_streams := cfg_num_streams cfg in
  reserve num_streams;;
  instances ← build_instances h nodes cfg (Z.to_nat num_streams) 0 [];
  reserve num_streams;;
  let pool := Pool.pool_init num_streams in
  vi0 ← defined (in_vis !! 0%nat);
  instance0 ← defined (instances !! 0%nat);
  let out_vi := setDimensions h vi0 (exec_context instance0) in
  emit CreateFilter;;
  mret {| nodes := nodes;
          out_vi := out_vi;
          device_id := cfg_device_id cfg;
          num_streams := num_streams;
          use_cuda_graph := cfg_use_cuda_graph cfg;
          pad := cfg_pad cfg;
          engine := cfg_engine cfg;
          pool := pool;
          instances := instances |}.

Definition vsTrtCreate (h : SetupHost) (in_ : VSMap) : M vsTrtData :=
  cfg ← configure h in_;
  allocate h in_ cfg.

(** The padding after lines 258-261: the saturated argument, 0 when it is
    absent. *)
Definition given_pad (in_ : VSMap) : Z :=
  match prop_pad in_ with
  | Some p => int64ToIntS p
  | None => 0
  end.

(** The engine was loaded during a run. *)
Definition engine_loaded {A : Type} (m : M A) : Prop :=
  exists path, InitEngine path ∈ trace m.

(** Setup ended with an error reported through [set_error]. *)
Definition setup_failed {A : Type} (m : M A) : Prop :=
  exists msg, outcome m = Failed msg /\ SetError msg ∈ trace m.

(** With a width that is not positive, setup gets as far as the read of
    element 0 of an empty instance sequence, which has no defined result. *)
Definition unchecked_width_undefined (h : SetupHost) (in_ : VSMap) : Prop :=
  forall t cfg,
    configure h in_ = (t, Returned cfg) ->
    cfg_num_streams cfg <= 0 ->
    outcome (vsTrtCreate h in_) = Undefined.

End Setup.

(** ** Concrete filters and requests *)

Module Samples.

Import Host Filter Setup.

Definition vi64 : VSVideoInfo :=
  {| numPlanes := 3; bytesPerSample := 4; width := 64; height := 64 |}.

Definition clip0 : VSNodeRef := {| node_id := 0; node_vi := vi64 |}.

(** An engine with three input and three output planes. *)
Definition sample_engine : Bindings :=
  {| binding0 := {| nbDims := 4; d := [1; 3; 64; 64] |};
     binding1 := {| nbDims := 4; d := [1; 3; 128; 128] |} |}.

(** Collaborators that all succeed; the instances double the tile. *)
Definition sample_setup_host : SetupHost :=
  {| checkNodes := fun _ => None;
     cudaGetDeviceCount := inl 1;
     cudaSetDevice := fun _ => None;
     initEngine := fun _ => inl sample_engine;
     selectProfile := fun _ _ => inl 0;
     getResource := fun _ _ _ block_size _ =>
       match block_size with
       | RequestedBlockSize w h => inl (bound_instance 3 h w 3 (2 * h) (2 * w))
       | VideoSize w h => inl (bound_instance 3 h w 3 (2 * h) (2 * w))
       end;
     setDimensions := fun vi _ =>
       {| numPlanes := numPlanes vi; bytesPerSample := bytesPerSample vi;
          width := 2 * width vi; height := 2 * height vi |} |}.

Definition sample_args (pad block_w block_h num_streams : option Z) : VSMap :=
  {| clips := [clip0];
     engine_path := "model.engine";
     prop_pad := pad;
     prop_block_w := block_w;
     prop_block_h := block_h;
     prop_device_id := None;
     prop_use_cuda_graph := None;
     prop_num_streams := num_streams;
     prop_verbosity := None |}.

(** A request that is handed instance 0 and whose inference ends as
    [inference_result] says. *)
Definition sample_frame_host (inference_result : option string) : FrameHost :=
  {| host_stride := fun _ => 256;
     host_acquire := 0;
     host_inference := fun _ _ _ _ _ _ => inference_result |}.

(** A filter of width 1 whose only instance is bound to [instance]. *)
Definition sample_filter (instance : InferenceInstance) : vsTrtData :=
  {| nodes := [clip0];
     out_vi := vi64;
     device_id := 0;
     num_streams := 1;
     use_cuda_graph := false;
     pad := 0;
     engine := sample_engine;
     pool := Pool.pool_init 1;
     instances := [instance] |}.

(** Input patches of 2 x 2 bound to output patches of 3 x 3. *)
Definition skewed_instance : InferenceInstance := bound_instance 3 2 2 3 3 3.

Definition doubling_instance : InferenceInstance := bound_instance 3 32 32 3 64 64.

(** Input patches of 16 x 24 bound to output patches of 48 x 48: the
    height triples, the width doubles. *)
Definition tall_instance : InferenceInstance := bound_instance 3 16 24 3 48 48.

(** Input patches of 5 x 7 bound to output patches of 13 x 15. *)
Definition odd_instance : InferenceInstance := bound_instance 3 5 7 3 13 15.

(** A request that is handed the instance of index [ticket]. *)
Definition sample_frame_host_at (ticket : Z)
    (inference_result : option string) : FrameHost :=
  {| host_stride := fun _ => 256;
     host_acquire := ticket;
     host_inference := fun _ _ _ _ _ _ => inference_result |}.

(** A filter of width 2 whose instances are bound to [instance0] and
    [instance1]. *)
Definition sample_filter2 (instance0 instance1 : InferenceInstance)
    : vsTrtData :=
  {| nodes := [clip0];
     out_vi := vi64;
     device_id := 0;
     num_streams := 2;
     use_cuda_graph := false;
     pad := 0;
     engine := sample_engine;
     pool := Pool.pool_init 2;
     instances := [instance0; instance1] |}.

End Samples.
(** ** Further observations on the pool *)

Module PoolObs.

Import Pool.

(** The ticket a draw recorded. *)
Definition drawn_ticket (e : event) : option Z :=
  match e with
  | EvTake _ tk => Some tk
  | _ => None
  end.

(** The tickets drawn so far, in the order of the draws. *)
Definition drawn_tickets (w : world) : list Z := omap drawn_ticket (log w).

(** The waiting tickets that [current] already lets through. *)
Definition eligible (w : world) : list Z :=
  filter (fun a => a < current (semaphore (shared w))) (waiting_tickets w).

(** Thread [tid] is in a request. *)
Definition busy (w : world) (tid : nat) : Prop :=
  exists p, threads w !! tid = Some p /\ p <> Idle.

(** Thread [tid] can move: its step is defined and takes it elsewhere. *)
Definition enabled (w : world) (tid : nat) : Prop :=
  exists w', step w tid = Some w' /\ threads w' !! tid <> threads w !! tid.

(** A thread in a request that is not held up: not parked on an unchanged
    [current], not in front of a mutex that is taken. *)
Definition movable (w : world) (p : pc) : bool :=
  match p with
  | Idle => false
  | SemWait _ curr => negb (current (semaphore (shared w)) =? curr)
  | PoolLock | RelLock _ => negb (instances_lock (shared w))
  | _ => true
  end.

(** The twelve steps of [acquire(); inference; release()] by one thread:
    six up to the return of [acquire], six from the end of inference to
    the return of [release]. *)
Definition acquire_steps (tid : nat) : list nat := repeat tid 6.
Definition release_steps (tid : nat) : list nat := repeat tid 6.

(** Tickets are used once: what was drawn, what is let through and what
    still waits. *)
Record Tickets (w : world) : Prop := {
  tk_drawn : drawn_tickets w = seqZ 0 (ticket (semaphore (shared w)));
  tk_once : NoDup (granted_tickets w ++ waiting_tickets w);
  tk_known : forall a,
    a ∈ granted_tickets w ++ waiting_tickets w ->
    0 <= a < ticket (semaphore (shared w))
}.

(** A pool that lets nobody through: initialised with a width [N <= 0]. *)
Record Closed (N n : Z) (w : world) : Prop := {
  cl_current : current (semaphore (shared w)) = N;
  cl_ticket : 0 <= ticket (semaphore (shared w)) <= n;
  cl_threads : forall p, p ∈ threads w ->
    p = Idle \/ exists tk, 0 <= tk /\ (p = SemLoad tk \/ p = SemWait tk N);
  cl_log : granted_tickets w = [];
  cl_free : free_list w = []
}.

End PoolObs.

(** ** Teardown, and further observations on setup *)

Module SetupObs.

Import MachInt Host Filter Setup.

(** [vsTrtFree]: every node is freed, the device of the filter is made
    current again, and the data is deleted (the end of the life of [d],
    which is no call to the host). *)
Definition vsTrtFree (d : vsTrtData) : M unit :=
  for_each (nodes d) (fun node => emit (FreeNode (node_id node)));;
  emit (CudaSetDevice (device_id d));;
  mret tt.

(** The node a call frees. *)
Definition freed_node (c : call) : option nat :=
  match c with
  | FreeNode node => Some node
  | _ => None
  end.

(** The calls by which setup gives up: the report and the release of the
    nodes. *)
Definition is_cleanup (c : call) : bool :=
  match c with
  | SetError _ | FreeNode _ => true
  | _ => false
  end.

(** Neither a call of giving up nor the registration of the filter. *)
Definition is_quiet (c : call) : bool :=
  match c with
  | SetError _ | FreeNode _ | CreateFilter => false
  | _ => true
  end.

(** The device index after lines 302-305: the saturated argument, 0 when
    it is absent. *)
Definition given_device (in_ : VSMap) : Z :=
  match prop_device_id in_ with
  | Some v => int64ToIntS v
  | None => 0
  end.

(** The height of an explicit tile: [block_h], or [block_w] when it is
    absent (lines 272-274). *)
Definition given_block_h (in_ : VSMap) (block_w : Z) : Z :=
  match prop_block_h in_ with
  | Some bh => int64ToIntS bh
  | None => block_w
  end.

(** A block size that the checks of lines 266-300 let through, for the
    arguments [in_], the video infos [in_vis] and the padding [pad]. *)
Definition usable_block (in_ : VSMap) (in_vis : list VSVideoInfo) (pad : Z)
    (block_size : BlockSize) : Prop :=
  match block_size with
  | RequestedBlockSize block_w block_h =>
      (exists bw, prop_block_w in_ = Some bw /\ block_w = int64ToIntS bw)
      /\ block_h = given_block_h in_ block_w
      /\ 0 < block_w - 2 * pad
      /\ 0 < block_h - 2 * pad
  | VideoSize vwidth vheight =>
      prop_block_w in_ = None
      /\ pad = 0
      /\ (exists vi, in_vis !! 0%nat = Some vi
                     /\ vwidth = width vi /\ vheight = height vi)
      /\ 0 < vwidth <= INT_MAX
      /\ 0 < vheight <= INT_MAX
  end.

(** The graph flag after lines 316-319. *)
Definition given_use_cuda_graph (in_ : VSMap) : bool :=
  match prop_use_cuda_graph in_ with
  | Some v => negb (v =? 0)
  | None => false
  end.

(** The concurrency width after lines 321-324: the saturated argument, 1
    when it is absent. *)
Definition given_num_streams (in_ : VSMap) : Z :=
  match prop_num_streams in_ with
  | Some v => int64ToIntS v
  | None => 1
  end.

(** Everything setup needs to go through: a first clip, clips that
    [checkNodes] accepts, a padding that is not negative, a block size the
    checks let through, a device that exists and can be made current, an
    engine that loads, a width of at least 1, and an instance for every
    slot. *)
Definition accepted (h : SetupHost) (in_ : VSMap) : Prop :=
  clips in_ <> []
  /\ checkNodes h (map node_vi (clips in_)) = None
  /\ 0 <= given_pad in_
  /\ (exists device_count,
        cudaGetDeviceCount h = inl device_count
        /\ 0 <= given_device in_ < device_count
        /\ cudaSetDevice h (given_device in_) = None)
  /\ 1 <= given_num_streams in_
  /\ exists block_size engine,
       usable_block in_ (map node_vi (clips in_)) (given_pad in_) block_size
       /\ initEngine h (engine_path in_) = inl engine
       /\ forall j, 0 <= j < given_num_streams in_ ->
            exists instance,
              getResource h j engine (selectProfile h engine block_size)
                block_size (given_use_cuda_graph in_) = inl instance.

(** The arguments [in_] with [block_h] left out. *)
Definition without_block_h (in_ : VSMap) : VSMap :=
  {| clips := clips in_;
     engine_path := engine_path in_;
     prop_pad := prop_pad in_;
     prop_block_w := prop_block_w in_;
     prop_block_h := None;
     prop_device_id := prop_device_id in_;
     prop_use_cuda_graph := prop_use_cuda_graph in_;
     prop_num_streams := prop_num_streams in_;
     prop_verbosity := prop_verbosity in_ |}.

(** Lines 316-346, the part of [configure] that follows the selection of
    the device: the graph flag, the width, the engine and the profile. *)
Definition configure_engine (h : SetupHost) (in_ : VSMap) (pad : Z)
    (block_size : BlockSize) (device_id : Z) : M Config :=
  let '(v, error) := propGetInt (prop_use_cuda_graph in_) in
  let use_cuda_graph := if error then false else negb (v =? 0) in
  let '(v, error) := propGetInt (prop_num_streams in_) in
  let num_streams := if error then 1 else int64ToIntS v in
  engine ← load_engine h (clips in_) in_;
  emit SelectProfile;;
  let maybe_profile_index := selectProfile h engine block_size in
  mret {| cfg_pad := pad;
          cfg_block_size := block_size;
          cfg_device_id := device_id;
          cfg_use_cuda_graph := use_cuda_graph;
          cfg_num_streams := num_streams;
          cfg_engine := engine;
          cfg_profile := maybe_profile_index |}.

(** Every call of a computation satisfies [P]. *)
Definition calls_in {A : Type} (P : call -> bool) (m : M A) : Prop :=
  Forall (fun c => P c = true) (trace m).

(** How a run that gives up ends: the report of [msg], then the release of
    every node, after calls that neither report nor free nor register. *)
Definition gives_up (nodes : list VSNodeRef) (msg : string)
    (t : list call) : Prop :=
  exists before,
    t = before ++ SetError msg :: map (fun node => FreeNode (node_id node)) nodes
    /\ Forall (fun c => is_quiet c = true) before.

(** A computation of setup that reports and frees only when it gives up,
    and then as [gives_up] says. *)
Definition tidy {A : Type} (nodes : list VSNodeRef) (m : M A) : Prop :=
  match outcome m with
  | Failed msg => gives_up nodes msg (trace m)
  | _ => Forall (fun c => is_quiet c = true) (trace m)
  end.

(** How setup as a whole ends: giving up as [gives_up] says; or with the
    registration of the filter as its last call, after calls that neither
    report nor free; or, where it has no defined result or is terminated,
    having neither reported, freed nor registered. *)
Definition settles {A : Type} (nodes : list VSNodeRef) (m : M A) : Prop :=
  match outcome m with
  | Failed msg => gives_up nodes msg (trace m)
  | Returned _ =>
      exists before,
        trace m = before ++ [CreateFilter]
        /\ Forall (fun c => is_quiet c = true) before
  | _ => Forall (fun c => is_quiet c = true) (trace m)
  end.

(** The calls of setup that come before the engine is loaded, and those of
    giving up. *)
Definition before_engine (c : call) : bool :=
  match c with
  | PropGetNode _ | SetError _ | FreeNode _
  | CudaGetDeviceCount | CudaSetDevice _ => true
  | _ => false
  end.

End SetupObs.

(** ** Further concrete collaborators and arguments *)

Module SetupSamples.

Import Host Filter Setup Samples.

(** Collaborators as in [sample_setup_host], with [device_count] devices,
    an engine that loads as [engine_result] says, and instances that can
    be built for the slots below [built] only. *)
Definition sample_host_with (device_count : Z)
    (engine_result : Bindings + string) (built : Z) : SetupHost :=
  {| checkNodes := checkNodes sample_setup_host;
     cudaGetDeviceCount := inl device_count;
     cudaSetDevice := cudaSetDevice sample_setup_host;
     initEngine := fun _ => engine_result;
     selectProfile := selectProfile sample_setup_host;
     getResource := fun i engine profile block_size use_cuda_graph =>
       if i <? built
       then getResource sample_setup_host i engine profile block_size
              use_cuda_graph
       else inr "out of memory";
     setDimensions := setDimensions sample_setup_host |}.

(** The arguments of [sample_args] with an explicit device index. *)
Definition sample_args_on (device_id : Z) : VSMap :=
  {| clips := [clip0];
     engine_path := "model.engine";
     prop_pad := None;
     prop_block_w := None;
     prop_block_h := None;
     prop_device_id := Some device_id;
     prop_use_cuda_graph := None;
     prop_num_streams := None;
     prop_verbosity := None |}.

End SetupSamples.

(** ** Further observations on a frame request *)

Module FrameObs.

Import MachInt Host Filter Samples.

(** The patch shapes bound to an instance can be divided: the input patch
    has a positive height and width, and the output ones are [int]
    values. *)
Definition sound_patches (instance : InferenceInstance) : Prop :=
  let src_dim := binding0 (exec_context instance) in
  let dst_dim := binding1 (exec_context instance) in
  0 < dim src_dim 2 /\ 0 < dim src_dim 3
  /\ in_int (dim dst_dim 2) = true /\ in_int (dim dst_dim 3) = true.

(** The calls by which a request touches the pool or runs inference. *)
Definition uses_pool (c : call) : bool :=
  match c with
  | PoolAcquire | PoolRelease _ | Inference _ _ _ _ => true
  | _ => false
  end.

(** The filter of [sample_filter] with another engine. *)
Definition sample_filter_with (engine : Bindings)
    (instance : InferenceInstance) : vsTrtData :=
  {| nodes := nodes (sample_filter instance);
     out_vi := out_vi (sample_filter instance);
     device_id := device_id (sample_filter instance);
     num_streams := num_streams (sample_filter instance);
     use_cuda_graph := use_cuda_graph (sample_filter instance);
     pad := pad (sample_filter instance);
     engine := engine;
     pool := pool (sample_filter instance);
     instances := instances (sample_filter instance) |}.

(** An engine whose input channel dimension is dynamic. *)
Definition dynamic_engine : Bindings :=
  {| binding0 := {| nbDims := 4; d := [1; -1; 64; 64] |};
     binding1 := {| nbDims := 4; d := [1; 3; 128; 128] |} |}.

End FrameObs.

(** * Proofs *)

(** ** Machine integers *)

Module MachIntFacts.

Lemma wrap_intptr_id z :
  INTPTR_MIN <= z <= INTPTR_MAX -> wrap_intptr z = z.
Proof.
  unfold wrap_intptr, INTPTR_MIN, INTPTR_MAX. intros H.
  rewrite Z.mod_small; lia.
Qed.


Lemma int64ToIntS_nonneg p : 0 <= p -> 0 <= int64ToIntS p.
Proof. unfold int64ToIntS, INT_MAX, INT_MIN. intros. repeat case_match; lia. Qed.

Lemma int64ToIntS_nonzero p : p <> 0 -> int64ToIntS p <> 0.
Proof. unfold int64ToIntS, INT_MAX, INT_MIN. intros. repeat case_match; lia. Qed.

Lemma quot_in_int a b : in_int a = true -> 0 < b -> in_int (a ÷ b) = true.
Proof.
  unfold in_int, INT_MIN, INT_MAX. intros Ha Hb.
  apply andb_true_iff in Ha as [Hlo Hhi].
  apply Z.leb_le in Hlo, Hhi.
  apply andb_true_iff. rewrite !Z.leb_le.
  destruct (Z.le_gt_cases 0 a) as [Hpos|Hneg].
  - rewrite Z.quot_div_nonneg by lia.
    pose proof (Z.div_pos a b Hpos Hb).
    pose proof (Z.div_le_upper_bound a b a Hb). nia.
  - assert (a ÷ b = - ((- a) ÷ b)) as -> by (rewrite Z.quot_opp_l; lia).
    rewrite Z.quot_div_nonneg by lia.
    pose proof (Z.div_pos (- a) b ltac:(lia) Hb).
    pose proof (Z.div_le_upper_bound (- a) b (- a) Hb). nia.
Qed.

End MachIntFacts.

Import MachIntFacts.

(** ** The pool: admission bound, arrival order, integrity *)

Module PoolSafety.

Import Pool.

(** *** Counting over the threads *)

#[global] Instance count_Permutation f : Proper ((≡ₚ) ==> (=)) (count f).
Proof.
  intros l1 l2 H. induction H; simpl; try lia.
Qed.

(** *** A step changes one thread *)

Lemma delete_insert_same (l : list pc) i p : delete i (<[i:=p]> l) = delete i l.
Proof.
  revert i. induction l as [|q l IH]; intros [|i]; simpl; try done.
  f_equal. apply IH.
Qed.

Lemma thread_swap (l : list pc) i p :
  l !! i = Some p ->
  exists rest, l ≡ₚ p :: rest /\ forall p', <[i:=p']> l ≡ₚ p' :: rest.
Proof.
  intros H. exists (delete i l). split.
  - by apply delete_Permutation.
  - intros p'. rewrite <- (delete_insert_same l i p').
    apply delete_Permutation. apply list_lookup_insert_eq.
    by eapply lookup_lt_Some.
Qed.

(** *** The initial state *)

Lemma fill_tickets_seqZ n i tks :
  fill_tickets n i tks = tks ++ seqZ i (Z.of_nat n).
Proof.
  revert i tks. induction n as [|n IH]; intros i tks.
  - simpl. by rewrite app_nil_r.
  - cbn [fill_tickets]. rewrite IH.
    rewrite Nat2Z.inj_succ, (seqZ_cons i) by lia.
    rewrite <- app_assoc. simpl. do 3 f_equal; lia.
Qed.

Lemma pool_init_tickets N : tickets (pool_init N) = seqZ 0 N.
Proof.
  unfold pool_init; simpl. rewrite fill_tickets_seqZ. simpl.
  unfold seqZ. by rewrite Nat2Z.id.
Qed.

Lemma count_replicate_false f p n : f p = false -> count f (replicate n p) = 0.
Proof. intros H. induction n; simpl; rewrite ?H; lia. Qed.

Lemma omap_replicate_None {A} (f : pc -> option A) p n :
  f p = None -> omap f (replicate n p) = [].
Proof. intros H. induction n; simpl; rewrite ?H; done. Qed.

Lemma Inv_init N M : 0 <= N -> Inv N 0 (init N M).
Proof.
  intros HN. split; unfold holders, checked_out, free_list; simpl; try lia.
  - rewrite count_replicate_false, omap_replicate_None by done. simpl. lia.
  - intros tk curr H. apply elem_of_replicate in H as [? _]. done.
  - intros tid tk H. by apply elem_of_nil in H.
  - rewrite omap_replicate_None by done. rewrite app_nil_r.
    change (fill_tickets _ _ _) with (tickets (pool_init N)).
    by rewrite pool_init_tickets.
  - by apply count_replicate_false.
  - intros t H. apply elem_of_replicate in H as [? _]. done.
Qed.

Lemma Inv_mono N n w : Inv N n w -> Inv N (n + 1) w.
Proof. intros []. split; try done; lia. Qed.

(** From the invariant: the tickets between [current] and [ticket] are
    distinct waiters, so at most [N] threads are past the semaphore. *)
Lemma Inv_holders_le N n w : Inv N n w -> holders w <= N.
Proof.
  intros [].
  set (C := current (semaphore (shared w))) in *.
  set (T := ticket (semaphore (shared w))) in *.
  assert (Z.of_nat (length (seqZ C (T - C)))
          <= Z.of_nat (length (omap waiting_ticket (threads w)))) as Hlen.
  { apply Nat2Z.inj_le, submseteq_length, NoDup_submseteq.
    - apply NoDup_seqZ.
    - intros k Hk. apply elem_of_seqZ in Hk. apply inv_waiting0. lia. }
  rewrite length_seqZ in Hlen. lia.
Qed.

Lemma count_nonneg f l : 0 <= count f l.
Proof. induction l; simpl; try case_match; lia. Qed.

Lemma count_le f g l :
  (forall p, f p = true -> g p = true) -> count f l <= count g l.
Proof.
  intros H. induction l as [|p l IH]; simpl; [lia|].
  destruct (f p) eqn:E; [rewrite (H _ E)|destruct (g p)]; lia.
Qed.

Lemma count_elem f l p : p ∈ l -> f p = true -> 1 <= count f l.
Proof.
  intros Hin Hf. induction Hin; simpl.
  - rewrite Hf. pose proof (count_nonneg f l). lia.
  - specialize (IHHin Hf). case_match; lia.
Qed.

Lemma length_omap_held l :
  Z.of_nat (length (omap held_index l)) + count before_pop l <= count past_sem l.
Proof.
  induction l as [|p l IH]; simpl; [lia|].
  destruct p; csimpl; lia.
Qed.

(** The free list is not empty while an admitted thread has yet to pop. *)
Lemma Inv_free_nonempty N n w p :
  Inv N n w -> p ∈ threads w -> before_pop p = true -> free_list w <> [].
Proof.
  intros HI Hin Hp Hnil.
  pose proof (Inv_holders_le _ _ _ HI) as Hle.
  destruct HI. rewrite Hnil in inv_pool0. simpl in inv_pool0.
  apply Permutation_length in inv_pool0. rewrite length_seqZ in inv_pool0.
  pose proof (length_omap_held (threads w)).
  pose proof (count_elem _ _ _ Hin Hp).
  unfold holders, checked_out in *. lia.
Qed.

(** *** Every step keeps the invariant *)

Lemma Inv_threads_perm N n d ths ths' lg :
  ths ≡ₚ ths' ->
  Inv N n {| shared := d; threads := ths; log := lg |} ->
  Inv N n {| shared := d; threads := ths'; log := lg |}.
Proof.
  intros Hp []. unfold holders, checked_out, free_list in *. simpl in *.
  split; unfold holders, checked_out, free_list; simpl; try done.
  - by rewrite <- Hp.
  - intros k Hk. rewrite <- Hp. by apply inv_waiting0.
  - intros tk curr H. rewrite <- Hp in H. by eapply inv_parked0.
  - by rewrite <- Hp.
  - by rewrite <- Hp.
  - intros t H. rewrite <- Hp in H. by apply inv_back0.
Qed.

(** No other thread is between [back()] and [pop_back()] while one thread
    is inside the critical section. *)
Lemma critical_alone (p : pc) rest (lk : bool) q :
  count in_critical (p :: rest) = (if lk then 1 else 0) ->
  in_critical p = true -> q ∈ rest -> in_critical q = true -> False.
Proof.
  simpl. intros H Hp Hq Hq'. rewrite Hp in H.
  pose proof (count_elem _ _ _ Hq Hq'). destruct lk; lia.
Qed.

Ltac inv_fields :=
  split; unfold holders, checked_out, free_list in *; csimpl in *;
  rewrite ?wrap_intptr_id by (unfold INTPTR_MIN, INTPTR_MAX in *; lia);
  try done; try lia.

Lemma match_snoc {A B} (l : list A) x (a b : B) :
  match l ++ [x] with [] => a | _ :: _ => b end = b.
Proof. by destruct l. Qed.

Ltac rest_elem H :=
  let X := fresh in
  intros; match goal with
  | X : _ ∈ _ :: _ |- _ =>
      apply elem_of_cons in X as [|]; [by simplify_eq|]; eapply H; by right
  end.

Lemma step_cons_Inv N n d p rest lg tid ths :
  Inv N n {| shared := d; threads := p :: rest; log := lg |} ->
  N + n < INTPTR_MAX ->
  ths !! tid = Some p ->
  (forall p', <[tid:=p']> ths ≡ₚ p' :: rest) ->
  exists w', step {| shared := d; threads := ths; log := lg |} tid = Some w'
             /\ Inv N (n + 1) w'.
Proof.
  intros HI Hn Hlook Hswap.
  assert (forall d' p' lg',
    Inv N (n + 1) {| shared := d'; threads := p' :: rest; log := lg' |} ->
    Inv N (n + 1) {| shared := d'; threads := <[tid:=p']> ths; log := lg' |}) as Hback.
  { intros d' p' lg'. apply Inv_threads_perm. by rewrite Hswap. }
  unfold step, move. simpl. rewrite Hlook.
  destruct d as [[T C] tks lk].
  destruct p; simpl.
  - (* Idle *) eexists; split; [done|]. apply Hback. destruct HI. inv_fields.
    + intros k Hk. destruct (decide (k = T)) as [->|]; [left|right].
      apply inv_waiting0. lia.
    + intros tk curr H. apply elem_of_cons in H as [|]; [done|].
      eapply inv_parked0. by right.
    + intros tid' tk H. apply elem_of_app in H as [H|H]; [eauto|].
      apply list_elem_of_singleton in H. done.
    + intros t H. apply elem_of_cons in H as [|]; [done|].
      apply inv_back0. by right.
  - (* SemLoad *) unfold sem_grants. destruct (Z.ltb_spec tk C) as [Hlt|Hge].
    + eexists; split; [done|]. apply Hback. destruct HI. inv_fields.
      * intros k Hk. specialize (inv_waiting0 k).
        rewrite elem_of_cons in inv_waiting0. destruct inv_waiting0; [lia|lia|done].
      * intros tk' curr H. apply elem_of_cons in H as [|]; [done|].
        eapply inv_parked0. by right.
      * intros tid' tk' H. apply elem_of_app in H as [H|H]; [eauto|].
        apply list_elem_of_singleton in H. by simplify_eq.
      * intros t H. apply elem_of_cons in H as [|]; [done|].
        apply inv_back0. by right.
    + eexists; split; [done|]. apply Hback. destruct HI. inv_fields.
      * intros tk' curr H. apply elem_of_cons in H as [|]; [by simplify_eq|].
        eapply inv_parked0. by right.
      * rewrite app_nil_r. done.
      * intros t H. apply elem_of_cons in H as [|]; [done|].
        apply inv_back0. by right.
  - (* SemWait *) destruct (Z.eqb_spec C curr) as [Heq|Hne].
    + eexists; split; [done|]. apply Inv_mono. eapply Inv_threads_perm; [|exact HI].
      rewrite <- (Hswap (SemWait tk curr)). by rewrite list_insert_id.
    + eexists; split; [done|]. apply Hback. destruct HI. inv_fields.
      * intros tk' curr' H. apply elem_of_cons in H as [|]; [done|].
        eapply inv_parked0. by right.
      * rewrite app_nil_r. done.
      * intros t H. apply elem_of_cons in H as [|]; [done|].
        apply inv_back0. by right.
  - (* PoolLock *) destruct lk.
    + eexists; split; [done|]. apply Inv_mono. eapply Inv_threads_perm; [|exact HI].
      rewrite <- (Hswap PoolLock). by rewrite list_insert_id.
    + eexists; split; [done|]. apply Hback. destruct HI. inv_fields.
      * rest_elem inv_parked0.
      * by rewrite app_nil_r.
      * rest_elem inv_back0.
  - (* PoolBack *) destruct (last tks) as [t|] eqn:Hlast.
    + eexists; split; [done|]. apply Hback. destruct HI. inv_fields.
      * rest_elem inv_parked0.
      * by rewrite app_nil_r.
      * intros t' H. apply elem_of_cons in H as [|]; [by simplify_eq|].
        apply inv_back0. by right.
    + exfalso. apply last_None in Hlast.
      eapply (Inv_free_nonempty _ _ _ PoolBack HI); [by left|done|done].
  - (* PoolPopBack *) destruct HI.
    pose proof (inv_back0 t (list_elem_of_here _ _)) as Hlast.
    unfold free_list in Hlast; simpl in Hlast.
    apply last_Some in Hlast as [l' ->].
    rewrite match_snoc, removelast_last.
    eexists; split; [done|]. apply Hback. inv_fields.
    * rest_elem inv_parked0.
    * by rewrite app_nil_r.
    * rewrite <- inv_pool0, <- app_assoc. done.
    * intros t' H. apply elem_of_cons in H as [|]; [done|]. exfalso.
      by eapply (critical_alone (PoolPopBack t) rest lk (PoolPopBack t')).
  - (* PoolUnlock *) eexists; split; [done|]. apply Hback. destruct HI.
    pose proof (count_nonneg in_critical rest). inv_fields.
    + rest_elem inv_parked0.
    + by rewrite app_nil_r.
    + destruct lk; lia.
    + rest_elem inv_back0.
  - (* Holding *) eexists; split; [done|]. apply Hback. destruct HI. inv_fields.
    + rest_elem inv_parked0.
    + by rewrite app_nil_r.
    + rest_elem inv_back0.
  - (* RelLock *) destruct lk.
    + eexists; split; [done|]. apply Inv_mono. eapply Inv_threads_perm; [|exact HI].
      rewrite <- (Hswap (RelLock t)). by rewrite list_insert_id.
    + eexists; split; [done|]. apply Hback. destruct HI. inv_fields.
      * rest_elem inv_parked0.
      * by rewrite app_nil_r.
      * rest_elem inv_back0.
  - (* RelPush *) eexists; split; [done|]. apply Hback. destruct HI. inv_fields.
    + rest_elem inv_parked0.
    + by rewrite app_nil_r.
    + rewrite <- inv_pool0, <- app_assoc. done.
    + intros t' H. apply elem_of_cons in H as [|]; [done|]. exfalso.
      by eapply (critical_alone (RelPush t) rest lk (PoolPopBack t')).
  - (* RelUnlock *) eexists; split; [done|]. apply Hback. destruct HI.
    pose proof (count_nonneg in_critical rest). inv_fields.
    + rest_elem inv_parked0.
    + by rewrite app_nil_r.
    + destruct lk; lia.
    + rest_elem inv_back0.
  - (* RelSem *) eexists; split; [done|]. apply Hback. destruct HI. inv_fields.
    + intros k Hk. apply inv_waiting0. lia.
    + rest_elem inv_parked0.
    + intros tid' tk H. rewrite app_nil_r in H. apply inv_granted0 in H. lia.
    + rest_elem inv_back0.
  - (* RelNotify *) eexists; split; [done|]. apply Hback. destruct HI. inv_fields.
    + rest_elem inv_parked0.
    + by rewrite app_nil_r.
    + rest_elem inv_back0.
Qed.

Lemma step_Inv N n w tid :
  Inv N n w -> N + n < INTPTR_MAX ->
  exists w', step w tid = Some w' /\ Inv N (n + 1) w'.
Proof.
  intros HI Hn. destruct w as [d ths lg].
  destruct (ths !! tid) as [p|] eqn:Hp.
  - destruct (thread_swap _ _ _ Hp) as (rest & H1 & H2).
    eapply step_cons_Inv; eauto. eapply Inv_threads_perm; eauto.
  - eexists. unfold step; simpl; rewrite Hp. split; [done|by apply Inv_mono].
Qed.

Lemma exec_Inv N sched : forall n w,
  Inv N n w -> N + n + Z.of_nat (length sched) <= INTPTR_MAX ->
  exists w', exec w sched = Some w' /\ Inv N (n + Z.of_nat (length sched)) w'.
Proof.
  induction sched as [|tid sched IH]; intros n w HI Hn.
  - exists w. split; [done|]. simpl. by rewrite Z.add_0_r.
  - cbn [length] in *. rewrite Nat2Z.inj_succ in *.
    destruct (step_Inv N n w tid HI) as (w1 & Hs & HI1); [lia|].
    destruct (IH (n + 1) w1 HI1) as (w' & He & HI'); [lia|].
    exists w'. simpl. rewrite Hs. split; [done|].
    by replace (n + Z.succ (Z.of_nat (length sched)))
      with (n + 1 + Z.of_nat (length sched)) by lia.
Qed.

Lemma reachable_Inv N M sched :
  0 <= N -> N + Z.of_nat (length sched) <= INTPTR_MAX ->
  exists w, exec (init N M) sched = Some w
            /\ Inv N (Z.of_nat (length sched)) w.
Proof.
  intros HN Hn.
  destruct (exec_Inv N sched 0 (init N M)) as (w & He & HI);
    [by apply Inv_init|lia|].
  exists w. split; [done|]. by rewrite Z.add_0_l in HI.
Qed.

Lemma omap_held_le l :
  Z.of_nat (length (omap held_index l)) <= count past_sem l.
Proof.
  pose proof (length_omap_held l). pose proof (count_nonneg before_pop l). lia.
Qed.

(** C1. For every width [N >= 1], every number of threads and every
    schedule of their steps (short enough for the two [intptr_t] counters
    not to wrap), the run is defined, so [back()] and [pop_back()] never
    meet an empty free list; and in the state reached at most [N] threads
    are past the semaphore, at most [N] instances are checked out, and the
    free list is not empty while an admitted thread has yet to pop. *)
Theorem C1_admission_bound N M sched :
  1 <= N ->
  N + Z.of_nat (length sched) <= INTPTR_MAX ->
  exists w,
    exec (init N M) sched = Some w
    /\ holders w <= N
    /\ Z.of_nat (length (checked_out w)) <= N
    /\ (forall tid p, threads w !! tid = Some p -> before_pop p = true ->
          free_list w <> []).
Proof.
  intros HN Hn.
  destruct (reachable_Inv N M sched) as (w & He & HI); [lia|done|].
  exists w. pose proof (Inv_holders_le _ _ _ HI) as Hle.
  repeat split; [done|done| |].
  - pose proof (omap_held_le (threads w)). unfold holders, checked_out in *. lia.
  - intros tid p Hp Hb. eapply Inv_free_nonempty; eauto.
    by eapply list_elem_of_lookup_2.
Qed.

Lemma C1_admission_bound_witness :
  exists w,
    exec (init 2 3) [0; 0; 1; 1; 2; 2; 0; 1; 0; 1; 2; 0; 0; 1]%nat = Some w
    /\ holders w <= 2
    /\ Z.of_nat (length (checked_out w)) <= 2
    /\ (forall tid p, threads w !! tid = Some p -> before_pop p = true ->
          free_list w <> []).
Proof.
  apply (C1_admission_bound 2 3 [0; 0; 1; 1; 2; 2; 0; 1; 0; 1; 2; 0; 0; 1]%nat).
  - lia.
  - vm_compute. discriminate.
Defined.

Lemma omap_NoDup_lookup {A} (f : pc -> option A) l i j x y k :
  NoDup (omap f l) ->
  l !! i = Some x -> f x = Some k ->
  l !! j = Some y -> f y = Some k ->
  i = j.
Proof.
  revert i j. induction l as [|p l IH]; intros i j Hnd Hi Hx Hj Hy; [done|].
  csimpl in Hnd.
  destruct i as [|i], j as [|j]; simpl in *; simplify_eq; try done.
  - rewrite Hx in Hnd. apply NoDup_cons in Hnd as [Hnot _].
    exfalso. apply Hnot. apply list_elem_of_omap. exists y.
    split; [by eapply list_elem_of_lookup_2|done].
  - rewrite Hy in Hnd. apply NoDup_cons in Hnd as [Hnot _].
    exfalso. apply Hnot. apply list_elem_of_omap. exists x.
    split; [by eapply list_elem_of_lookup_2|done].
  - f_equal. apply IH; try done.
    destruct (f p); [by apply NoDup_cons in Hnd as [_ ?]|done].
Qed.

Lemma omap_all_None {A} (f : pc -> option A) l :
  (forall p, p ∈ l -> f p = None) -> omap f l = [].
Proof.
  induction l as [|p l IH]; intros H; [done|]. csimpl.
  rewrite (H p) by left. apply IH. intros q Hq. apply H. by right.
Qed.

Lemma holds_checked_out w i : i ∈ checked_out w <-> exists tid, holds w tid i.
Proof.
  unfold checked_out, holds. rewrite list_elem_of_omap. split.
  - intros (p & Hin & Hp). apply list_elem_of_lookup in Hin as [tid Htid]. eauto.
  - intros (tid & p & Hl & Hp). exists p. split; [|done].
    by eapply list_elem_of_lookup_2.
Qed.

(** C3. In every state reached, each index of [0..N-1] is either in the
    free list and held by no thread, or absent from the free list and held
    by exactly one thread; the free list and the checked-out indices hold
    nothing else and no index twice; and when no request holds an instance
    the free list is a permutation of [0..N-1]. *)
Theorem C3_pool_integrity N M sched :
  1 <= N ->
  N + Z.of_nat (length sched) <= INTPTR_MAX ->
  exists w,
    exec (init N M) sched = Some w
    /\ (forall i, 0 <= i < N ->
          (i ∈ free_list w /\ forall tid, ~ holds w tid i)
          \/ ((i ∉ free_list w)
              /\ exists tid, holds w tid i
                   /\ forall tid', holds w tid' i -> tid' = tid))
    /\ (forall i, i ∈ free_list w ++ checked_out w -> 0 <= i < N)
    /\ NoDup (free_list w ++ checked_out w)
    /\ (quiescent w -> free_list w ≡ₚ seqZ 0 N /\ NoDup (free_list w)).
Proof.
  intros HN Hn.
  destruct (reachable_Inv N M sched) as (w & He & HI); [lia|done|].
  exists w. split; [done|].
  pose proof (inv_pool _ _ _ HI) as Hperm.
  assert (NoDup (free_list w ++ checked_out w)) as Hnd.
  { rewrite Hperm. apply NoDup_seqZ. }
  pose proof Hnd as Hnd'.
  apply NoDup_app in Hnd' as (Hfree & Hdisj & Hout).
  repeat split; try done.
  - intros i Hi.
    assert (i ∈ free_list w ++ checked_out w) as Hin.
    { rewrite Hperm. apply elem_of_seqZ. lia. }
    apply elem_of_app in Hin as [Hin|Hin].
    + left. split; [done|]. intros tid Hh.
      apply (Hdisj i Hin). apply holds_checked_out. eauto.
    + right. split.
      * intros Hf. by apply (Hdisj i Hf).
      * apply holds_checked_out in Hin as [tid Hh]. exists tid. split; [done|].
        destruct Hh as (p & Hl & Hp). intros tid' (p' & Hl' & Hp').
        eapply (omap_NoDup_lookup held_index); eauto.
  - rewrite Hperm in H. apply elem_of_seqZ in H. lia.
  - rewrite Hperm in H. apply elem_of_seqZ in H. lia.
  - rewrite <- Hperm. unfold checked_out.
    by rewrite (omap_all_None held_index (threads w)), app_nil_r.
Qed.

Lemma C3_pool_integrity_witness :
  exists w,
    exec (init 2 3) [0; 0; 0; 0; 0; 0; 1; 1; 1; 1; 1; 2; 2]%nat = Some w
    /\ NoDup (free_list w ++ checked_out w)
    /\ (forall i, i ∈ free_list w ++ checked_out w -> 0 <= i < 2).
Proof.
  destruct (C3_pool_integrity 2 3 [0; 0; 0; 0; 0; 0; 1; 1; 1; 1; 1; 2; 2]%nat)
    as (w & He & _ & Hin & Hnd & _).
  - lia.
  - vm_compute. discriminate.
  - exists w. split; [exact He|]. split; [exact Hnd|exact Hin].
Defined.


(** *** Arrival order *)

Lemma step_effect w tid w' : step w tid = Some w' -> effect w w'.
Proof.
  destruct w as [[[T C] tks lk] ths lg]. unfold step. simpl.
  destruct (ths !! tid) as [p|] eqn:Hp.
  2: { intros [= <-]. by apply Quiet. }
  destruct (thread_swap _ _ _ Hp) as (rest & H1 & H2).
  assert (forall p', omap waiting_ticket (<[tid:=p']> ths)
                     ≡ₚ omap waiting_ticket (p' :: rest)) as HW'.
  { intros p'. by rewrite H2. }
  assert (omap waiting_ticket ths ≡ₚ omap waiting_ticket (p :: rest)) as HW.
  { by rewrite H1. }
  destruct p; simpl; unfold move; simpl;
    repeat case_match; intros [= <-];
    try (apply Quiet; unfold waiting_tickets, granted_tickets; simpl;
         rewrite ?app_nil_r; try done; by rewrite HW', HW).
  - apply Draw; unfold waiting_tickets, granted_tickets; simpl; try done.
    + by rewrite HW', HW.
    + by rewrite omap_app, app_nil_r.
  - apply (Grant _ _ tk); unfold waiting_tickets, granted_tickets; simpl; try done.
    + unfold sem_grants in *. lia.
    + by rewrite HW', HW.
    + by rewrite omap_app.
Qed.

Lemma length_filter_split (P : Z -> Prop) `{!forall x, Decision (P x)} (l : list Z) :
  length l = (length (filter P l) + length (filter (fun x => ~ P x) l))%nat.
Proof.
  induction l as [|x l IH]; [done|].
  rewrite !filter_cons. destruct (decide (P x)), (decide (~ P x)); simpl; try done; lia.
Qed.

(** The admitted threads and the waiting threads that [current] already
    admits are at most [N] together. *)
Lemma Inv_eligible_le N n w :
  Inv N n w ->
  holders w
  + Z.of_nat (length (filter (fun a => a < current (semaphore (shared w)))
                        (waiting_tickets w)))
  <= N.
Proof.
  intros []. unfold waiting_tickets.
  set (C := current (semaphore (shared w))) in *.
  set (T := ticket (semaphore (shared w))) in *.
  set (W := omap waiting_ticket (threads w)) in *.
  rewrite (length_filter_split (fun a => a < C) W) in inv_drawn0.
  assert (Z.of_nat (length (seqZ C (T - C)))
          <= Z.of_nat (length (filter (fun a => ~ a < C) W))) as Hlen.
  { apply Nat2Z.inj_le, submseteq_length, NoDup_submseteq.
    - apply NoDup_seqZ.
    - intros k Hk. apply elem_of_seqZ in Hk. apply list_elem_of_filter.
      split; [lia|]. apply inv_waiting0. lia. }
  rewrite length_seqZ in Hlen. lia.
Qed.

Lemma Order_init N M : Order N (init N M).
Proof.
  split; unfold waiting_tickets, granted_tickets; simpl;
    rewrite ?omap_replicate_None by done; intros; by decompose_list_elem_of.
Qed.

Lemma step_Order N n w tid w' :
  Inv N n w -> N + n < INTPTR_MAX ->
  Order N w -> step w tid = Some w' -> Order N w'.
Proof.
  intros HI Hn [Hw Ha Hs] Hstep.
  pose proof (Inv_eligible_le _ _ _ HI) as Hel.
  pose proof (count_nonneg past_sem (threads w)) as Hpast.
  destruct HI. destruct (step_effect _ _ _ Hstep) as [HT HC HW HA|b HT Hb HW HA|HT HW HA].
  - rewrite wrap_intptr_id in HT by (unfold INTPTR_MIN, INTPTR_MAX in *; lia).
    split; rewrite ?HT, ?HA.
    + intros a Hin. rewrite HW in Hin. apply elem_of_cons in Hin as [->|Hin]; [lia|].
      apply Hw in Hin. lia.
    + intros b Hin. apply Ha in Hin. lia.
    + intros HN b a Hb Hin. rewrite HW in Hin.
      apply elem_of_cons in Hin as [->|Hin]; [by apply Ha|by apply Hs].
  - assert (b ∈ waiting_tickets w) as Hbw by (rewrite HW; left).
    split; rewrite ?HT, ?HA.
    + intros a Hin. apply Hw. rewrite HW. by right.
    + intros b' Hin. apply elem_of_app in Hin as [Hin|Hin]; [by apply Ha|].
      apply list_elem_of_singleton in Hin as ->. by apply Hw.
    + intros HN b' a Hin Hina.
      apply elem_of_app in Hin as [Hin|Hin].
      { apply Hs; [done|done|]. rewrite HW. by right. }
      apply list_elem_of_singleton in Hin as ->.
      destruct (Z.lt_ge_cases b a) as [|Hle]; [done|exfalso].
      rewrite HW, filter_cons_True in Hel by done.
      assert (a ∈ filter (fun a => a < current (semaphore (shared w)))
                    (waiting_tickets w')) as Hfa.
      { apply list_elem_of_filter. split; [lia|done]. }
      destruct (filter _ (waiting_tickets w')); [by apply elem_of_nil in Hfa|].
      unfold holders in Hel. simpl in Hel. lia.
  - split; rewrite ?HT, ?HA.
    + intros a Hin. rewrite HW in Hin. by apply Hw.
    + done.
    + intros HN b a Hb Hin. rewrite HW in Hin. by apply Hs.
Qed.

Lemma exec_Order N sched : forall n w,
  Inv N n w -> N + n + Z.of_nat (length sched) <= INTPTR_MAX ->
  Order N w ->
  forall w', exec w sched = Some w' -> Order N w'.
Proof.
  induction sched as [|tid sched IH]; intros n w HI Hn HO w' He.
  - by injection He as <-.
  - cbn [length] in Hn. rewrite Nat2Z.inj_succ in Hn.
    destruct (step_Inv N n w tid HI) as (w1 & Hs & HI1); [lia|].
    simpl in He. rewrite Hs in He.
    apply (IH (n + 1) w1); [done|lia| |done].
    apply (step_Order N n w tid w1 HI); [lia|done|done].
Qed.

Lemma single_slot_strict_order M sched w :
  1 + Z.of_nat (length sched) <= INTPTR_MAX ->
  exec (init 1 M) sched = Some w ->
  strict_arrival_order w.
Proof.
  intros Hn He.
  assert (Order 1 w) as [_ _ Hs].
  { apply (exec_Order 1 sched 0 (init 1 M)); [|lia| |done].
    - apply Inv_init. lia.
    - apply Order_init. }
  intros tidA tidB a b pA Hadm HA Hwait Hab.
  assert (b < a); [|lia]. apply Hs; [done| |].
  - unfold granted_tickets. apply list_elem_of_omap. by exists (EvPass tidB b).
  - unfold waiting_tickets. apply list_elem_of_omap. exists pA.
    split; [by eapply list_elem_of_lookup_2|done].
Qed.

Lemma step_SemLoad_pass w tid a :
  threads w !! tid = Some (SemLoad a) ->
  a < current (semaphore (shared w)) ->
  exists w', step w tid = Some w'
    /\ threads w' !! tid = Some PoolLock
    /\ shared w' = shared w.
Proof.
  intros Hl Ha. unfold step. rewrite Hl. unfold sem_grants.
  destruct (Z.ltb_spec a (current (semaphore (shared w)))); [|lia].
  eexists. split; [done|]. simpl. split; [|done].
  apply list_lookup_insert_eq. by eapply lookup_lt_Some.
Qed.

Lemma step_SemWait_wake w tid a c :
  threads w !! tid = Some (SemWait a c) ->
  current (semaphore (shared w)) <> c ->
  exists w', step w tid = Some w'
    /\ threads w' !! tid = Some (SemLoad a)
    /\ shared w' = shared w.
Proof.
  intros Hl Hc. unfold step. rewrite Hl.
  destruct (Z.eqb_spec (current (semaphore (shared w))) c); [done|].
  eexists. split; [done|]. simpl. split; [|done].
  apply list_lookup_insert_eq. by eapply lookup_lt_Some.
Qed.

Lemma step_PoolLock_past w tid :
  threads w !! tid = Some PoolLock ->
  exists w' p', step w tid = Some w'
    /\ threads w' !! tid = Some p' /\ past_sem p' = true.
Proof.
  intros Hl. unfold step. rewrite Hl. destruct (instances_lock (shared w)).
  - by exists w, PoolLock.
  - eexists _, PoolBack. split; [done|]. simpl. split; [|done].
    apply list_lookup_insert_eq. by eapply lookup_lt_Some.
Qed.

(** C2, as amended. The semaphore makes callers eligible in arrival order:
    once a caller has left the loop with ticket [b], every caller still in
    the loop with an earlier ticket [a < b] has [a < current], and its own
    next two steps (leave [wait], load and test) take it past the
    semaphore. On a pool of width 1 admission itself is in strict arrival
    order. *)
Theorem C2_eligible_in_arrival_order N M sched w :
  1 <= N ->
  N + Z.of_nat (length sched) <= INTPTR_MAX ->
  exec (init N M) sched = Some w ->
  (forall tidA tidB a b pA,
     EvPass tidB b ∈ log w ->
     threads w !! tidA = Some pA ->
     waiting_ticket pA = Some a ->
     a < b ->
     a < current (semaphore (shared w))
     /\ exists w' p',
          exec w [tidA; tidA] = Some w'
          /\ threads w' !! tidA = Some p' /\ past_sem p' = true)
  /\ (N = 1 -> strict_arrival_order w).
Proof.
  intros HN Hn He. split; [|intros ->; by eapply single_slot_strict_order].
  intros tidA tidB a b pA Hadm HA Hwait Hab.
  destruct (reachable_Inv N M sched) as (w0 & He0 & HI); [lia|done|].
  rewrite He in He0. injection He0 as <-.
  pose proof (inv_granted _ _ _ HI _ _ Hadm) as Hb.
  assert (a < current (semaphore (shared w))) as Ha by lia.
  split; [done|]. destruct pA; simplify_eq/=.
  - destruct (step_SemLoad_pass w tidA a HA Ha) as (w1 & Hs1 & Hl1 & _).
    destruct (step_PoolLock_past w1 tidA Hl1) as (w2 & p2 & Hs2 & Hl2 & Hp2).
    exists w2, p2. by rewrite Hs1, Hs2.
  - assert (curr <= a) as Hc.
    { eapply (inv_parked _ _ _ HI). by eapply list_elem_of_lookup_2. }
    destruct (step_SemWait_wake w tidA a curr HA) as (w1 & Hs1 & Hl1 & Hd1); [lia|].
    destruct (step_SemLoad_pass w1 tidA a Hl1) as (w2 & Hs2 & Hl2 & _).
    { by rewrite Hd1. }
    exists w2, PoolLock. by rewrite Hs1, Hs2.
Qed.

Lemma C2_eligible_in_arrival_order_witness :
  exists w,
    exec (init 2 4) overtaking_schedule = Some w
    /\ 2 < current (semaphore (shared w))
    /\ exists w' p',
         exec w [2; 2]%nat = Some w'
         /\ threads w' !! 2%nat = Some p' /\ past_sem p' = true.
Proof.
  eexists. split; [vm_compute; reflexivity|].
  lazymatch goal with
  | |- _ < current (semaphore (shared ?w)) /\ _ =>
      destruct (C2_eligible_in_arrival_order 2 4 overtaking_schedule w)
        as [Hel _];
        [lia|vm_compute; discriminate|vm_compute; reflexivity|]
  end.
  apply (Hel 2%nat 3%nat 2 3 (SemWait 2 2)).
  - apply list_elem_of_In. vm_compute. tauto.
  - reflexivity.
  - reflexivity.
  - lia.
Defined.

(** C2 as stated fails: on a pool of width 2, thread 3 (ticket 3) leaves
    [TicketSemaphore::acquire] while thread 2 (ticket 2) is still parked
    in [wait]. *)
Lemma C2_strict_order_counterexample :
  exists w,
    exec (init 2 4) overtaking_schedule = Some w
    /\ ~ strict_arrival_order w.
Proof.
  eexists. split; [vm_compute; reflexivity|].
  intros H. apply (H 2%nat 3%nat 2 3 (SemWait 2 2)).
  - apply list_elem_of_In. simpl. tauto.
  - reflexivity.
  - reflexivity.
  - lia.
Qed.

End PoolSafety.

(** ** The monad of recorded calls *)

Module HostFacts.

Import Host.

Lemma bind_returned {A B} t a (f : A -> M B) :
  ((t, Returned a) : M A) ≫= f = (t ++ trace (f a), outcome (f a)).
Proof. unfold mbind, M_bind, bind, trace, outcome. by destruct (f a). Qed.

Lemma mret_bind {A B} a (f : A -> M B) : (mret a : M A) ≫= f = f a.
Proof. unfold mret, M_ret. rewrite bind_returned. by destruct (f a). Qed.

Lemma bind_failed {A B} t msg (f : A -> M B) :
  ((t, Failed msg) : M A) ≫= f = (t, Failed msg).
Proof. done. Qed.

Lemma bind_undefined {A B} t (f : A -> M B) :
  ((t, Undefined) : M A) ≫= f = (t, Undefined).
Proof. done. Qed.

Lemma bind_terminated {A B} t (f : A -> M B) :
  ((t, Terminated) : M A) ≫= f = (t, Terminated).
Proof. done. Qed.

Lemma bind_Returned_inv {A B} (m : M A) (f : A -> M B) t b :
  m ≫= f = (t, Returned b) ->
  exists t1 a t2, m = (t1, Returned a) /\ f a = (t2, Returned b) /\ t = t1 ++ t2.
Proof.
  destruct m as [t1 [a| | |]]; try done.
  rewrite bind_returned. destruct (f a) as [t2 r] eqn:Hf.
  unfold trace, outcome; simpl. intros [= <- ->]. eauto 6.
Qed.

Lemma emit_bind_eq {B} c (f : unit -> M B) :
  emit c ≫= f = (c :: trace (f tt), outcome (f tt)).
Proof. unfold emit. by rewrite bind_returned. Qed.


Lemma trace_bind_l {A B} (m : M A) (f : A -> M B) x :
  x ∈ trace m -> x ∈ trace (m ≫= f).
Proof.
  destruct m as [t [a| | |]]; try done.
  rewrite bind_returned. unfold trace; simpl. rewrite elem_of_app. by left.
Qed.

Lemma for_each_emit {A} (l : list A) (f : A -> call) :
  for_each l (fun x => emit (f x)) = (map f l, Returned tt).
Proof.
  induction l as [|x l IH]; [done|].
  cbn [for_each]. rewrite IH. done.
Qed.

Lemma reserve_nonneg n : 0 <= n -> reserve n = ([], Returned tt).
Proof. intros H. unfold reserve. destruct (Z.ltb_spec n 0); [lia|done]. Qed.

Lemma reserve_negative n : n < 0 -> reserve n = ([], Terminated).
Proof. intros H. unfold reserve. destruct (Z.ltb_spec n 0); [done|lia]. Qed.

End HostFacts.

Import HostFacts.

(** ** The frame orchestrator *)

Module FrameProtocol.

Import Host Filter Samples.

Lemma getFrames_spec h n nodes :
  getFrames h n nodes
  = (map (fun node => GetFrameFilter n (node_id node)) nodes,
     Returned (map (src_frame h n) nodes)).
Proof.
  induction nodes as [|node nodes IH]; [done|].
  cbn [getFrames]. rewrite IH. cbn. by rewrite app_nil_r.
Qed.

Lemma derive_scales_positive instance :
  let src_dim := binding0 (exec_context instance) in
  let dst_dim := binding1 (exec_context instance) in
  in_int (dim dst_dim 2) = true -> in_int (dim dst_dim 3) = true ->
  0 < dim src_dim 2 -> 0 < dim src_dim 3 ->
  derive_scales instance
  = Some (dim src_dim 2, dim src_dim 3,
          dim dst_dim 2 ÷ dim src_dim 2, dim dst_dim 3 ÷ dim src_dim 3).
Proof.
  intros src_dim dst_dim Hh Hw Hsh Hsw.
  unfold derive_scales, int_div, int_result.
  fold src_dim dst_dim.
  destruct (Z.eqb_spec (dim src_dim 2) 0); [lia|].
  destruct (Z.eqb_spec (dim src_dim 3) 0); [lia|].
  rewrite !quot_in_int by done. done.
Qed.

(** The ready phase of a request that can be served: the filter has an
    upstream source, the plane counts of the engine are not negative, and
    the pool hands out the index of an instance. *)
Section ReadyPhase.

Variables (h : FrameHost) (n : Z) (d : vsTrtData).
Variable instance : InferenceInstance.

Hypothesis nodes_given : nodes d <> [].
Hypothesis src_planes_nonneg : 0 <= dim (binding0 (engine d)) 1.
Hypothesis dst_planes_nonneg : 0 <= dim (binding1 (engine d)) 1.
Hypothesis instance_given :
  instance_at (instances d) (host_acquire h) = Some instance.

Local Abbreviation request := (vsTrtGetFrame h n arAllFramesReady d).
Local Abbreviation ticket := (host_acquire h).
Local Abbreviation src_h := (dim (binding0 (exec_context instance)) 2).
Local Abbreviation src_w := (dim (binding0 (exec_context instance)) 3).
Local Abbreviation dst_h := (dim (binding1 (exec_context instance)) 2).
Local Abbreviation dst_w := (dim (binding1 (exec_context instance)) 3).
Local Abbreviation inference_of info src_ptrs dst_ptrs :=
  (host_inference h instance (device_id d) (use_cuda_graph d)
     info src_ptrs dst_ptrs).

(** The calls of the ready phase, in order, and its result. *)
Lemma vsTrtGetFrame_ready sph spw hs ws :
  derive_scales instance = Some (sph, spw, hs, ws) ->
  exists info src_ptrs dst_ptrs,
    h_scale info = hs /\ w_scale info = ws
    /\ patch_h (io_in info) = sph /\ patch_w (io_in info) = spw
    /\ io_pad info = pad d
    /\ request
       = (map (fun node => GetFrameFilter n (node_id node)) (nodes d)
          ++ [NewVideoFrame n; PoolAcquire;
              Inference ticket info src_ptrs dst_ptrs;
              PoolRelease ticket]
          ++ map (fun node => FreeFrame (SrcFrame n (node_id node))) (nodes d)
          ++ match inference_of info src_ptrs dst_ptrs with
             | Some msg => [SetFilterError ("vsTrtGetFrame: " ++ msg);
                            FreeFrame (DstFrame n)]
             | None => []
             end,
          Returned
            match inference_of info src_ptrs dst_ptrs with
            | Some msg => None
            | None =>
                Some {| frame := DstFrame n;
                        frame_width := width (out_vi d);
                        frame_height := height (out_vi d);
                        frame_stride := host_stride h (DstFrame n);
                        frame_bytesPerSample := bytesPerSample (out_vi d) |}
            end).
Proof.
  intros Hgeom.
  destruct (nodes d) as [|node0 rest] eqn:Hn; [done|].
  unfold vsTrtGetFrame. rewrite Hn, getFrames_spec.
  rewrite (reserve_nonneg _ src_planes_nonneg),
    (reserve_nonneg _ dst_planes_nonneg), instance_given.
  cbn -[read_ptrs seqZ String.append derive_scales].
  rewrite Hgeom.
  cbn -[read_ptrs seqZ String.append].
  rewrite for_each_emit.
  match goal with
  | |- context [host_inference h instance _ _ ?i ?s ?p] => exists i, s, p
  end.
  split_and!; try done.
  destruct (host_inference _ _ _ _ _ _ _) as [msg|];
    cbn -[read_ptrs seqZ String.append]; rewrite map_map; try done.
Qed.

(** C6. In the ready phase the calls are, in this order: the frame
    requests, [newVideoFrame], [acquire], [inference], then [release] of
    the slot whatever inference answered, then [freeFrame] of every source
    frame, and only then the report: after an inference error
    [setFilterError] with the message prefixed by the name of the function
    (and the release of the destination frame) and a null result; else
    the destination frame as result. *)
Theorem C6_release_then_free_then_report :
  is_Some (derive_scales instance) ->
  exists info src_ptrs dst_ptrs dst_frame,
    let before :=
      map (fun node => GetFrameFilter n (node_id node)) (nodes d)
      ++ [NewVideoFrame n; PoolAcquire;
          Inference ticket info src_ptrs dst_ptrs] in
    let frees :=
      map (fun node => FreeFrame (SrcFrame n (node_id node))) (nodes d) in
    frame dst_frame = DstFrame n
    /\ match inference_of info src_ptrs dst_ptrs with
       | None =>
           request
           = (before ++ [PoolRelease ticket] ++ frees,
              Returned (Some dst_frame))
       | Some msg =>
           request
           = (before ++ [PoolRelease ticket] ++ frees
              ++ [SetFilterError ("vsTrtGetFrame: " ++ msg);
                  FreeFrame (DstFrame n)],
              Returned None)
       end.
Proof.
  intros [[[[sph spw] hs] ws] Hgeom].
  destruct (vsTrtGetFrame_ready sph spw hs ws Hgeom)
    as (info & src_ptrs & dst_ptrs & _ & _ & _ & _ & _ & Hrun).
  exists info, src_ptrs, dst_ptrs. eexists. split; [|].
  2: { rewrite Hrun. destruct (host_inference _ _ _ _ _ _ _).
       - rewrite <- !app_assoc. reflexivity.
       - rewrite <- !app_assoc, app_nil_r. reflexivity. }
  reflexivity.
Qed.

(** C9. When inference reports an error, the request ends with
    [setFilterError] and then the release of the destination frame that
    [newVideoFrame] had made, and returns null; before that the slot was
    released and every source frame that was requested was freed. *)
Theorem C9_error_path_frees_destination :
  is_Some (derive_scales instance) ->
  exists info src_ptrs dst_ptrs,
    Inference ticket info src_ptrs dst_ptrs ∈ trace request
    /\ forall msg,
         inference_of info src_ptrs dst_ptrs = Some msg ->
         outcome request = Returned None
         /\ exists t,
              trace request
              = t ++ [SetFilterError ("vsTrtGetFrame: " ++ msg);
                      FreeFrame (DstFrame n)]
              /\ NewVideoFrame n ∈ t
              /\ PoolRelease ticket ∈ t
              /\ (forall node, node ∈ nodes d ->
                    GetFrameFilter n (node_id node) ∈ t
                    /\ FreeFrame (SrcFrame n (node_id node)) ∈ t).
Proof.
  intros [[[[sph spw] hs] ws] Hgeom].
  destruct (vsTrtGetFrame_ready sph spw hs ws Hgeom)
    as (info & src_ptrs & dst_ptrs & _ & _ & _ & _ & _ & Hrun).
  exists info, src_ptrs, dst_ptrs. rewrite Hrun. unfold trace, outcome; simpl.
  split.
  { rewrite elem_of_app. right. apply list_elem_of_In. simpl. tauto. }
  intros msg Hmsg. rewrite Hmsg. split; [done|].
  exists (map (fun node => GetFrameFilter n (node_id node)) (nodes d)
          ++ [NewVideoFrame n; PoolAcquire;
              Inference ticket info src_ptrs dst_ptrs;
              PoolRelease ticket]
          ++ map (fun node => FreeFrame (SrcFrame n (node_id node))) (nodes d)).
  split; [by rewrite <- !app_assoc|].
  split_and!.
  - rewrite !elem_of_app. right. left. apply list_elem_of_In. simpl. tauto.
  - rewrite !elem_of_app. right. left. apply list_elem_of_In. simpl. tauto.
  - intros node Hnode. split.
    + rewrite !elem_of_app. left. apply list_elem_of_fmap. eauto.
    + rewrite !elem_of_app. right. right. apply list_elem_of_fmap. eauto.
Qed.

End ReadyPhase.

(** *** The scale factors of the instance that was checked out *)

Lemma instance_at_lookup l ticket instance :
  0 <= ticket ->
  l !! Z.to_nat ticket = Some instance ->
  instance_at l ticket = Some instance.
Proof.
  intros Hticket Hl. unfold instance_at.
  destruct (Z.ltb_spec ticket 0); [lia|done].
Qed.

(** The quotient of an [int] by an [int] that is not 0 is an [int], but for
    [INT_MIN / -1]. *)
Lemma quot_in_int_nonzero a b :
  in_int a = true -> b <> 0 -> ~ (a = INT_MIN /\ b = -1) ->
  in_int (a ÷ b) = true.
Proof.
  unfold in_int, INT_MIN, INT_MAX. intros Ha Hb Hmin.
  apply andb_true_iff in Ha as [Hlo Hhi].
  apply Z.leb_le in Hlo, Hhi.
  apply andb_true_iff. rewrite !Z.leb_le.
  destruct (Z.eq_dec b 1) as [->|H1]; [rewrite Z.quot_1_r; lia|].
  destruct (Z.eq_dec b (-1)) as [->|H2].
  { replace (-1) with (- (1)) by lia.
    rewrite Z.quot_opp_r, Z.quot_1_r by lia. lia. }
  assert (Z.abs (a ÷ b) <= Z.abs a ÷ 2) as Habs.
  { rewrite <- Z.quot_abs by done.
    apply Z.quot_le_compat_l; lia. }
  assert (Z.abs a ÷ 2 <= 1073741824) as Hhalf.
  { apply Z.quot_le_upper_bound; lia. }
  lia.
Qed.

Lemma derive_scales_defined instance :
  let src_dim := binding0 (exec_context instance) in
  let dst_dim := binding1 (exec_context instance) in
  in_int (dim dst_dim 2) = true -> in_int (dim dst_dim 3) = true ->
  dim src_dim 2 <> 0 -> dim src_dim 3 <> 0 ->
  ~ (dim dst_dim 2 = INT_MIN /\ dim src_dim 2 = -1) ->
  ~ (dim dst_dim 3 = INT_MIN /\ dim src_dim 3 = -1) ->
  derive_scales instance
  = Some (dim src_dim 2, dim src_dim 3,
          dim dst_dim 2 ÷ dim src_dim 2, dim dst_dim 3 ÷ dim src_dim 3).
Proof.
  intros src_dim dst_dim Hh Hw Hsh Hsw Hmh Hmw.
  unfold derive_scales, int_div, int_result.
  fold src_dim dst_dim.
  destruct (Z.eqb_spec (dim src_dim 2) 0); [done|].
  destruct (Z.eqb_spec (dim src_dim 3) 0); [done|].
  rewrite !quot_in_int_nonzero by done. done.
Qed.

(** A ready request on a filter with an upstream source and plane counts
    that are not negative, to which [d->acquire()] hands the index
    [ticket]; [instance] is the element of [d->instances] at that very
    index. *)
Section CheckedOut.

Variables (h : FrameHost) (n : Z) (d : vsTrtData).
Variable instance : InferenceInstance.

Hypothesis nodes_given : nodes d <> [].
Hypothesis src_planes_nonneg : 0 <= dim (binding0 (engine d)) 1.
Hypothesis dst_planes_nonneg : 0 <= dim (binding1 (engine d)) 1.
Hypothesis ticket_nonneg : 0 <= host_acquire h.
Hypothesis instance_checked_out :
  instances d !! Z.to_nat (host_acquire h) = Some instance.

Local Abbreviation request := (vsTrtGetFrame h n arAllFramesReady d).
Local Abbreviation ticket := (host_acquire h).
Local Abbreviation src_h := (dim (binding0 (exec_context instance)) 2).
Local Abbreviation src_w := (dim (binding0 (exec_context instance)) 3).
Local Abbreviation dst_h := (dim (binding1 (exec_context instance)) 2).
Local Abbreviation dst_w := (dim (binding1 (exec_context instance)) 3).
Local Abbreviation inference_of info src_ptrs dst_ptrs :=
  (host_inference h instance (device_id d) (use_cuda_graph d)
     info src_ptrs dst_ptrs).

(** The one call of inference of the request, what it is given, and how
    the request ends when inference reports no error. *)
Lemma checked_out_inference :
  in_int dst_h = true -> in_int dst_w = true ->
  src_h <> 0 -> src_w <> 0 ->
  ~ (dst_h = INT_MIN /\ src_h = -1) ->
  ~ (dst_w = INT_MIN /\ src_w = -1) ->
  exists info src_ptrs dst_ptrs,
    Inference ticket info src_ptrs dst_ptrs ∈ trace request
    /\ (forall ticket' info' src_ptrs' dst_ptrs',
          Inference ticket' info' src_ptrs' dst_ptrs' ∈ trace request ->
          ticket' = ticket /\ info' = info)
    /\ patch_h (io_in info) = src_h
    /\ patch_w (io_in info) = src_w
    /\ h_scale info = dst_h ÷ src_h
    /\ w_scale info = dst_w ÷ src_w
    /\ (inference_of info src_ptrs dst_ptrs = None ->
        ~ signals_violation request
        /\ exists dst_frame,
             outcome request = Returned (Some dst_frame)
             /\ frame dst_frame = DstFrame n).
Proof.
  intros Hh Hw Hsh Hsw Hmh Hmw.
  pose proof (derive_scales_defined instance Hh Hw Hsh Hsw Hmh Hmw) as Hgeom.
  pose proof (instance_at_lookup _ _ _ ticket_nonneg instance_checked_out)
    as Hat.
  destruct (vsTrtGetFrame_ready h n d instance nodes_given src_planes_nonneg
              dst_planes_nonneg Hat _ _ _ _ Hgeom)
    as (info & src_ptrs & dst_ptrs & Hhs & Hws & Hph & Hpw & _ & Hrun).
  exists info, src_ptrs, dst_ptrs. rewrite Hrun.
  unfold trace, outcome; cbn [fst snd].
  assert (forall c,
            c ∈ map (fun node => GetFrameFilter n (node_id node)) (nodes d)
                ++ [NewVideoFrame n; PoolAcquire;
                    Inference ticket info src_ptrs dst_ptrs;
                    PoolRelease ticket]
                ++ map (fun node => FreeFrame (SrcFrame n (node_id node)))
                     (nodes d)
                ++ match inference_of info src_ptrs dst_ptrs with
                   | Some msg => [SetFilterError ("vsTrtGetFrame: " ++ msg);
                                  FreeFrame (DstFrame n)]
                   | None => []
                   end ->
            (exists node, c = GetFrameFilter n node)
            \/ c = NewVideoFrame n \/ c = PoolAcquire
            \/ c = Inference ticket info src_ptrs dst_ptrs
            \/ c = PoolRelease ticket
            \/ (exists f, c = FreeFrame f)
            \/ (exists msg,
                  inference_of info src_ptrs dst_ptrs = Some msg
                  /\ c = SetFilterError ("vsTrtGetFrame: " ++ msg))) as Hcalls.
  { intros c Hc.
    apply elem_of_app in Hc as [Hc|Hc].
    { apply list_elem_of_fmap in Hc as (node & -> & _). eauto. }
    apply elem_of_app in Hc as [Hc|Hc].
    { apply list_elem_of_In in Hc. simpl in Hc.
      destruct Hc as [<-|[<-|[<-|[<-|[]]]]]; eauto 10. }
    apply elem_of_app in Hc as [Hc|Hc].
    { apply list_elem_of_fmap in Hc as (node & -> & _). eauto 10. }
    destruct (inference_of info src_ptrs dst_ptrs) as [msg|];
      [|by apply elem_of_nil in Hc].
    apply list_elem_of_In in Hc. simpl in Hc.
    destruct Hc as [<-|[<-|[]]]; eauto 10. }
  split.
  { rewrite elem_of_app. right. apply list_elem_of_In. simpl. tauto. }
  split.
  { intros ticket' info' src_ptrs' dst_ptrs' Hin.
    destruct (Hcalls _ Hin)
      as [[? ?]|[?|[?|[Heq|[?|[[? ?]|(? & _ & ?)]]]]]]; try done.
    by injection Heq as -> -> _ _. }
  split; [done|]. split; [done|]. split; [done|]. split; [done|].
  intros Hok. split.
  - intros [[msg Hin]|Hnot].
    + destruct (Hcalls _ Hin)
        as [[? ?]|[?|[?|[?|[?|[[? ?]|(msg' & Hsome & _)]]]]]]; try done.
      by rewrite Hok in Hsome.
    + rewrite Hok in Hnot. by eapply Hnot.
  - rewrite Hok. eexists. split; reflexivity.
Qed.

(** C5. The request calls inference once, on the index it was handed, with
    the patch shapes bound to the instance of [d->instances] at that index
    and with [h_scale = output_patch_height / input_patch_height] and
    [w_scale = output_patch_width / input_patch_width] (division of [int],
    truncating) read on that same instance; for output patches of twice
    the input height and width both factors are 2. The divisions are
    defined: the input patch dimensions are not 0, the output ones are
    [int] values, and no quotient is [INT_MIN / -1]. *)
Theorem C5_scale_factors :
  in_int dst_h = true -> in_int dst_w = true ->
  src_h <> 0 -> src_w <> 0 ->
  ~ (dst_h = INT_MIN /\ src_h = -1) ->
  ~ (dst_w = INT_MIN /\ src_w = -1) ->
  exists info src_ptrs dst_ptrs,
    Inference ticket info src_ptrs dst_ptrs ∈ trace request
    /\ (forall ticket' info' src_ptrs' dst_ptrs',
          Inference ticket' info' src_ptrs' dst_ptrs' ∈ trace request ->
          ticket' = ticket /\ info' = info)
    /\ patch_h (io_in info) = src_h
    /\ patch_w (io_in info) = src_w
    /\ h_scale info = dst_h ÷ src_h
    /\ w_scale info = dst_w ÷ src_w
    /\ (dst_h = 2 * src_h -> dst_w = 2 * src_w ->
        h_scale info = 2 /\ w_scale info = 2).
Proof.
  intros Hh Hw Hsh Hsw Hmh Hmw.
  destruct (checked_out_inference Hh Hw Hsh Hsw Hmh Hmw)
    as (info & src_ptrs & dst_ptrs & Hin & Honly & Hph & Hpw & Hhs & Hws & _).
  exists info, src_ptrs, dst_ptrs.
  do 6 (split; [done|]).
  intros Eh Ew. rewrite Hhs, Hws, Eh, Ew.
  rewrite !Z.quot_mul by done. done.
Qed.

(** C4, as amended. When a bound output patch dimension is not a multiple
    of the input one, the geometry derivation signals nothing: the request
    calls inference with the quotients truncated towards zero, one of which
    no longer gives back the output dimension, and if inference reports no
    error the request reports none either, runs to its [return] and
    returns the destination frame. *)
Theorem C4_scales_truncate :
  in_int dst_h = true -> in_int dst_w = true ->
  src_h <> 0 -> src_w <> 0 ->
  ~ (dst_h = INT_MIN /\ src_h = -1) ->
  ~ (dst_w = INT_MIN /\ src_w = -1) ->
  non_integral instance ->
  exists info src_ptrs dst_ptrs,
    Inference ticket info src_ptrs dst_ptrs ∈ trace request
    /\ h_scale info = dst_h ÷ src_h
    /\ w_scale info = dst_w ÷ src_w
    /\ (h_scale info * src_h <> dst_h \/ w_scale info * src_w <> dst_w)
    /\ (inference_of info src_ptrs dst_ptrs = None ->
        ~ signals_violation request
        /\ (forall msg, SetFilterError msg ∉ trace request)
        /\ exists dst_frame,
             outcome request = Returned (Some dst_frame)
             /\ frame dst_frame = DstFrame n).
Proof.
  intros Hh Hw Hsh Hsw Hmh Hmw Hnon.
  destruct (checked_out_inference Hh Hw Hsh Hsw Hmh Hmw)
    as (info & src_ptrs & dst_ptrs & Hin & _ & _ & _ & Hhs & Hws & Hquiet).
  exists info, src_ptrs, dst_ptrs.
  do 3 (split; [done|]). split.
  - rewrite Hhs, Hws.
    destruct Hnon as [Hnon|Hnon]; [left|right];
      intros Heq; apply Hnon; rewrite <- Heq; by apply Z.mod_mul.
  - intros Hok. destruct (Hquiet Hok) as [Hnone Hframe].
    split; [done|]. split; [|done].
    intros msg Hmsg. apply Hnone. left. eauto.
Qed.

End CheckedOut.

Lemma C5_scale_factors_witness :
  exists info src_ptrs dst_ptrs,
    Inference 1 info src_ptrs dst_ptrs
      ∈ trace (vsTrtGetFrame (sample_frame_host_at 1 None) 0 arAllFramesReady
                 (sample_filter2 doubling_instance tall_instance))
    /\ patch_h (io_in info) = 16
    /\ patch_w (io_in info) = 24
    /\ h_scale info = 3
    /\ w_scale info = 2.
Proof.
  destruct (C5_scale_factors (sample_frame_host_at 1 None) 0
              (sample_filter2 doubling_instance tall_instance) tall_instance)
    as (info & src_ptrs & dst_ptrs & Hin & _ & Hph & Hpw & Hhs & Hws & _);
    try reflexivity; try discriminate.
  - vm_compute. intros [H _]. discriminate H.
  - vm_compute. intros [H _]. discriminate H.
  - exists info, src_ptrs, dst_ptrs.
    split; [exact Hin|]. split; [exact Hph|]. split; [exact Hpw|].
    split; [exact Hhs|exact Hws].
Defined.

Lemma C4_scales_truncate_witness :
  exists info src_ptrs dst_ptrs,
    Inference 1 info src_ptrs dst_ptrs
      ∈ trace (vsTrtGetFrame (sample_frame_host_at 1 None) 0 arAllFramesReady
                 (sample_filter2 doubling_instance odd_instance))
    /\ h_scale info = 2
    /\ w_scale info = 2
    /\ (h_scale info * 5 <> 13 \/ w_scale info * 7 <> 15)
    /\ exists dst_frame,
         outcome (vsTrtGetFrame (sample_frame_host_at 1 None) 0
                    arAllFramesReady
                    (sample_filter2 doubling_instance odd_instance))
         = Returned (Some dst_frame)
         /\ frame dst_frame = DstFrame 0.
Proof.
  destruct (C4_scales_truncate (sample_frame_host_at 1 None) 0
              (sample_filter2 doubling_instance odd_instance) odd_instance)
    as (info & src_ptrs & dst_ptrs & Hin & Hhs & Hws & Hoff & Hend);
    try reflexivity; try discriminate.
  - vm_compute. intros [H _]. discriminate H.
  - vm_compute. intros [H _]. discriminate H.
  - left. discriminate.
  - exists info, src_ptrs, dst_ptrs.
    split; [exact Hin|]. split; [exact Hhs|]. split; [exact Hws|].
    split; [exact Hoff|]. exact (proj2 (proj2 (Hend eq_refl))).
Defined.

(** C4 as stated fails: with input patches of 2 x 2 bound to output patches
    of 3 x 3 the request reports no error and runs to its [return]. *)
Lemma C4_counterexample :
  instance_at (instances (sample_filter skewed_instance))
    (host_acquire (sample_frame_host None)) = Some skewed_instance
  /\ non_integral skewed_instance
  /\ ~ signals_violation
         (vsTrtGetFrame (sample_frame_host None) 0 arAllFramesReady
            (sample_filter skewed_instance)).
Proof.
  split_and!; [done|left; discriminate|].
  intros [[msg Hin]|Hnot].
  - apply list_elem_of_In in Hin. vm_compute in Hin.
    repeat (destruct Hin as [Hin|Hin]; [discriminate|]). done.
  - by eapply Hnot.
Qed.

Lemma C6_release_then_free_then_report_witness :
  exists info src_ptrs dst_ptrs dst_frame,
    frame dst_frame = DstFrame 7
    /\ vsTrtGetFrame (sample_frame_host (Some "out of memory")) 7
         arAllFramesReady (sample_filter doubling_instance)
       = ([GetFrameFilter 7 0; NewVideoFrame 7; PoolAcquire;
           Inference 0 info src_ptrs dst_ptrs;
           PoolRelease 0; FreeFrame (SrcFrame 7 0);
           SetFilterError "vsTrtGetFrame: out of memory";
           FreeFrame (DstFrame 7)],
          Returned None).
Proof.
  destruct (C6_release_then_free_then_report
              (sample_frame_host (Some "out of memory")) 7
              (sample_filter doubling_instance) doubling_instance)
    as (info & src_ptrs & dst_ptrs & dst_frame & Hf & Hrun);
    try reflexivity; try discriminate.
  - eexists. reflexivity.
  - exists info, src_ptrs, dst_ptrs, dst_frame. split; [exact Hf|exact Hrun].
Defined.

Lemma C9_error_path_frees_destination_witness :
  exists info src_ptrs dst_ptrs,
    Inference 0 info src_ptrs dst_ptrs
      ∈ trace (vsTrtGetFrame (sample_frame_host (Some "out of memory")) 7
                 arAllFramesReady (sample_filter doubling_instance))
    /\ FreeFrame (DstFrame 7)
         ∈ trace (vsTrtGetFrame (sample_frame_host (Some "out of memory")) 7
                    arAllFramesReady (sample_filter doubling_instance)).
Proof.
  destruct (C9_error_path_frees_destination
              (sample_frame_host (Some "out of memory")) 7
              (sample_filter doubling_instance) doubling_instance)
    as (info & src_ptrs & dst_ptrs & Hin & Herr);
    try reflexivity; try discriminate.
  - eexists. reflexivity.
  - exists info, src_ptrs, dst_ptrs. split; [exact Hin|].
    destruct (Herr "out of memory"%string eq_refl) as (_ & t & -> & _).
    apply elem_of_app. right. apply list_elem_of_In. simpl. tauto.
Defined.

End FrameProtocol.

(** ** The setup orchestrator *)

Module SetupProtocol.

Import Host Filter Setup Samples.

Lemma set_error_bind {A B} nodes msg (f : A -> M B) :
  set_error nodes msg ≫= f = set_error nodes msg.
Proof. done. Qed.

Lemma no_engine_in_failure (nodes : list VSNodeRef) n msg path :
  InitEngine path
    ∈ map PropGetNode (seq 0 n) ++ trace (set_error (A := Config) nodes msg) ->
  False.
Proof.
  unfold set_error, trace; simpl. intros H.
  apply elem_of_app in H as [H|H].
  - apply list_elem_of_fmap in H as (? & ? & _). done.
  - apply elem_of_cons in H as [H|H]; [done|].
    apply list_elem_of_fmap in H as (? & ? & _). done.
Qed.

Lemma parse_pad_eq nodes in_ :
  parse_pad nodes in_
  = if given_pad in_ <? 0 then set_error nodes msg_pad_negative
    else ([], Returned (given_pad in_)).
Proof. unfold parse_pad, given_pad. by destruct (prop_pad in_). Qed.

(** The second operand of [||] is evaluated only when the first is false. *)
Lemma pad_leaves_nothing_defined pad a b :
  in_int (2 * pad) = true ->
  in_int (a - 2 * pad) = true ->
  (0 < a - 2 * pad -> in_int (b - 2 * pad) = true) ->
  pad_leaves_nothing pad a b
  = ([], Returned ((a - 2 * pad <=? 0) || (b - 2 * pad <=? 0))).
Proof.
  intros H2 Ha Hb. unfold pad_leaves_nothing, int_mul, int_sub, int_result.
  rewrite H2. cbn. rewrite Ha. cbn.
  destruct (Z.leb_spec (a - 2 * pad) 0) as [|Hpos]; [done|].
  cbn. rewrite (Hb Hpos). done.
Qed.

Lemma resolve_block_size_requested nodes in_vis pad in_ bw :
  let block_w := int64ToIntS bw in
  let block_h :=
    match prop_block_h in_ with
    | Some bh => int64ToIntS bh
    | None => block_w
    end in
  prop_block_w in_ = Some bw ->
  in_int (2 * pad) = true ->
  in_int (block_w - 2 * pad) = true ->
  (0 < block_w - 2 * pad -> in_int (block_h - 2 * pad) = true) ->
  resolve_block_size nodes in_vis pad in_
  = if (block_w - 2 * pad <=? 0) || (block_h - 2 * pad <=? 0)
    then set_error nodes msg_pad_too_large
    else ([], Returned (RequestedBlockSize block_w block_h)).
Proof.
  intros block_w block_h Hbw H2 Hw Hh. unfold resolve_block_size.
  rewrite Hbw. subst block_w block_h.
  destruct (prop_block_h in_) as [bh|]; cbn -[msg_pad_too_large];
    rewrite pad_leaves_nothing_defined by done;
    cbn -[msg_pad_too_large]; by case_match.
Qed.




(** Without [block_w] and with a padding that is not 0, setup ends in one
    of its first three checks. *)
Lemma vsTrtCreate_whole_frame_with_pad h in_ p :
  prop_block_w in_ = None ->
  prop_pad in_ = Some p ->
  p <> 0 ->
  exists msg,
    vsTrtCreate h in_
    = (map PropGetNode (seq 0 (length (clips in_)))
       ++ trace (set_error (A := Config) (clips in_) msg),
       Failed ("operator(): " ++ msg))
    /\ (checkNodes h (map node_vi (clips in_)) = None -> 0 < p ->
        msg = msg_block_w_missing).
Proof.
  intros Hbw Hp Hne. unfold vsTrtCreate, configure.
  rewrite for_each_emit, bind_returned.
  destruct (checkNodes h (map node_vi (clips in_))) as [err|].
  { exists err. split; [done|]. done. }
  unfold parse_pad. rewrite Hp. cbn [propGetInt].
  pose proof (int64ToIntS_nonzero p Hne) as Hnz.
  destruct (Z.ltb_spec (int64ToIntS p) 0) as [Hneg|Hpos].
  { exists msg_pad_negative. split; [done|].
    intros _ Hp0. pose proof (int64ToIntS_nonneg p). lia. }
  rewrite mret_bind. unfold resolve_block_size. rewrite Hbw.
  cbn [propGetInt]. destruct (propGetInt (prop_block_h in_)) as [v2 e2].
  cbn [negb]. destruct (Z.eqb_spec (int64ToIntS p) 0); [done|]. cbn [negb].
  exists msg_block_w_missing. split; [|done].
  rewrite !set_error_bind. unfold set_error, trace, outcome. cbn [fst snd].
  by rewrite bind_failed.
Qed.

(** C8. Without [block_w], a padding that is not 0 makes setup end
    through [set_error] with no engine load; once the nodes have passed and
    the padding is positive the message is that [block_w] must be
    specified, with the prefix that [__func__] gives inside the lambda. *)
Theorem C8_whole_frame_excludes_pad h in_ p :
  prop_block_w in_ = None ->
  prop_pad in_ = Some p ->
  p <> 0 ->
  setup_failed (vsTrtCreate h in_)
  /\ ~ engine_loaded (vsTrtCreate h in_)
  /\ (checkNodes h (map node_vi (clips in_)) = None -> 0 < p ->
      outcome (vsTrtCreate h in_)
      = Failed ("operator(): " ++ msg_block_w_missing)).
Proof.
  intros Hbw Hp Hne.
  destruct (vsTrtCreate_whole_frame_with_pad h in_ p Hbw Hp Hne)
    as (msg & -> & Hmsg).
  unfold setup_failed, engine_loaded, outcome. cbn [snd]. split_and!.
  - eexists. split; [reflexivity|]. unfold trace; simpl.
    rewrite elem_of_app. right. apply list_elem_of_here.
  - intros [path Hin].
    exact (no_engine_in_failure (clips in_) _ msg path Hin).
  - intros Hcheck Hpos. by rewrite (Hmsg Hcheck Hpos).
Qed.

Lemma C8_whole_frame_excludes_pad_witness :
  setup_failed (vsTrtCreate sample_setup_host (sample_args (Some 4) None None None))
  /\ ~ engine_loaded
         (vsTrtCreate sample_setup_host (sample_args (Some 4) None None None))
  /\ outcome (vsTrtCreate sample_setup_host (sample_args (Some 4) None None None))
     = Failed ("operator(): " ++ msg_block_w_missing).
Proof.
  destruct (C8_whole_frame_excludes_pad sample_setup_host
              (sample_args (Some 4) None None None) 4)
    as (Hfail & Hload & Hmsg); try reflexivity; [discriminate|].
  split; [exact Hfail|]. split; [exact Hload|].
  apply Hmsg; [reflexivity|lia].
Defined.

Lemma configure_num_streams h in_ t cfg :
  configure h in_ = (t, Returned cfg) ->
  cfg_num_streams cfg
  = match prop_num_streams in_ with
    | Some v => int64ToIntS v
    | None => 1
    end.
Proof.
  unfold configure. intros H.
  apply bind_Returned_inv in H as (? & [] & ? & _ & H & _).
  destruct (checkNodes _ _); [done|].
  apply bind_Returned_inv in H as (? & pad & ? & _ & H & _).
  apply bind_Returned_inv in H as (? & block_size & ? & _ & H & _).
  apply bind_Returned_inv in H as (? & device_id & ? & _ & H & _).
  destruct (prop_use_cuda_graph in_), (prop_num_streams in_); cbn in H;
    apply bind_Returned_inv in H as (? & engine & ? & _ & H & _);
    cbn in H; by injection H as _ <-.
Qed.

Lemma build_instances_ok h nodes cfg n : forall i acc,
  (forall j, i <= j < i + Z.of_nat n ->
     exists inst,
       getResource h j (cfg_engine cfg) (cfg_profile cfg)
         (cfg_block_size cfg) (cfg_use_cuda_graph cfg) = inl inst) ->
  exists l,
    length l = n
    /\ build_instances h nodes cfg n i acc
       = (map GetResource (seqZ i (Z.of_nat n)), Returned (acc ++ l)).
Proof.
  induction n as [|n IH]; intros i acc Hres.
  - exists []. split; [done|]. by rewrite app_nil_r.
  - destruct (Hres i) as [inst Hinst]; [lia|].
    destruct (IH (i + 1) (acc ++ [inst])) as (l & Hlen & Hrun).
    { intros j Hj. apply Hres. lia. }
    exists (inst :: l). split; [simpl; lia|].
    cbn [build_instances]. rewrite emit_bind_eq, Hinst, Hrun.
    rewrite <- app_assoc. unfold trace, outcome. cbn [fst snd app].
    rewrite Nat2Z.inj_succ, (seqZ_cons i), Z.pred_succ by lia.
    by replace (Z.succ i) with (i + 1) by lia.
Qed.

(** C10, as amended. Setup uses the width as given (1 when absent) and
    never compares it with 0. Once the engine is loaded: with a width of at
    least 1 and every instance built, the instance sequence has that many
    elements, element 0 is read in bounds and gives the published
    descriptor; with width 0 the sequence is empty and the read of element
    0 has no defined result; with a negative width setup does not get
    there: [instances.reserve] is called with it and the length error
    terminates the [noexcept] function. *)
Theorem C10_width_unchecked h in_ t cfg :
  let ns := cfg_num_streams cfg in
  configure h in_ = (t, Returned cfg) ->
  clips in_ <> [] ->
  ns = match prop_num_streams in_ with
       | Some v => int64ToIntS v
       | None => 1
       end
  /\ (1 <= ns ->
      (forall i, 0 <= i < ns ->
         exists inst,
           getResource h i (cfg_engine cfg) (cfg_profile cfg)
             (cfg_block_size cfg) (cfg_use_cuda_graph cfg) = inl inst) ->
      exists d instance0 vi0,
        outcome (vsTrtCreate h in_) = Returned d
        /\ Z.of_nat (length (instances d)) = ns
        /\ instances d !! 0%nat = Some instance0
        /\ map node_vi (clips in_) !! 0%nat = Some vi0
        /\ out_vi d = setDimensions h vi0 (exec_context instance0)
        /\ pool d = Pool.pool_init ns)
  /\ (ns = 0 -> vsTrtCreate h in_ = (t, Undefined))
  /\ (ns < 0 -> vsTrtCreate h in_ = (t, Terminated)).
Proof.
  intros ns Hcfg Hclips. split; [by eapply configure_num_streams|].
  unfold vsTrtCreate. rewrite Hcfg, bind_returned.
  destruct (clips in_) as [|node0 rest] eqn:Hn; [done|].
  unfold allocate. rewrite Hn. fold ns. split_and!.
  - intros Hns Hres.
    destruct (build_instances_ok h (node0 :: rest) cfg (Z.to_nat ns) 0 [])
      as (l & Hlen & Hrun).
    { intros j Hj. apply Hres. lia. }
    rewrite reserve_nonneg, bind_returned, Hrun, bind_returned by lia.
    rewrite bind_returned.
    destruct l as [|instance0 l]; [simpl in Hlen; lia|].
    cbn. eexists _, instance0, (node_vi node0). split_and!; try reflexivity.
    cbn. simpl in Hlen. lia.
  - intros Hns. rewrite Hns. cbn. by rewrite app_nil_r.
  - intros Hns. rewrite reserve_negative, bind_terminated by done.
    unfold trace, outcome; simpl. by rewrite app_nil_r.
Qed.

Lemma C10_width_unchecked_witness :
  exists d,
    outcome (vsTrtCreate sample_setup_host (sample_args None None None (Some 2)))
    = Returned d
    /\ Z.of_nat (length (instances d)) = 2.
Proof.
  destruct (configure sample_setup_host (sample_args None None None (Some 2)))
    as [t [cfg| | |]] eqn:Hcfg; try (vm_compute in Hcfg; discriminate).
  destruct (C10_width_unchecked sample_setup_host
              (sample_args None None None (Some 2)) t cfg Hcfg)
    as (Hns & Hok & _); [discriminate|].
  assert (cfg_num_streams cfg = 2) as Hns2 by exact Hns.
  destruct Hok as (d & _ & _ & Hout & Hlen & _).
  - rewrite Hns2. lia.
  - intros i _. vm_compute in Hcfg. injection Hcfg as _ <-. eexists. reflexivity.
  - exists d. split; [exact Hout|]. rewrite Hlen. exact Hns2.
Defined.

(** C10 as stated fails for a negative width: with [num_streams = -1] the
    outcome is termination at [reserve], not an undefined read. *)
Lemma C10_counterexample :
  ~ unchecked_width_undefined sample_setup_host
      (sample_args None None None (Some (-1))).
Proof.
  intros H.
  destruct (configure sample_setup_host (sample_args None None None (Some (-1))))
    as [t [cfg| | |]] eqn:Hcfg; try (vm_compute in Hcfg; discriminate).
  specialize (H t cfg Hcfg).
  vm_compute in Hcfg. injection Hcfg as _ <-.
  specialize (H ltac:(vm_compute; discriminate)). vm_compute in H. discriminate.
Qed.

End SetupProtocol.

(** ** More on the pool: exclusion, tickets, slots and progress *)

Module PoolAccounting.

Import Pool PoolSafety PoolObs.

Lemma count_le_one_unique f (l : list pc) i j p q :
  count f l <= 1 ->
  l !! i = Some p -> f p = true ->
  l !! j = Some q -> f q = true ->
  i = j.
Proof.
  revert i j. induction l as [|x l IH]; intros i j Hc Hi Hp Hj Hq; [done|].
  simpl in Hc. pose proof (count_nonneg f l).
  destruct i as [|i], j as [|j]; simpl in *; simplify_eq; try done.
  - rewrite Hp in Hc.
    pose proof (count_elem f l q (list_elem_of_lookup_2 _ _ _ Hj) Hq). lia.
  - rewrite Hq in Hc.
    pose proof (count_elem f l p (list_elem_of_lookup_2 _ _ _ Hi) Hp). lia.
  - f_equal. apply IH; try done. destruct (f x); lia.
Qed.

(** X1. The free list is never touched by two callers at once: in every state
    reached, at most one thread is between taking and giving back
    [instances_lock], and the lock is held exactly when some thread is
    there. So the [back]/[pop_back] of [acquire] and the [push_back] of
    [release] never overlap. *)
Theorem mutex_excludes N M sched :
  0 <= N ->
  N + Z.of_nat (length sched) <= INTPTR_MAX ->
  exists w,
    exec (init N M) sched = Some w
    /\ (forall i j p q,
          threads w !! i = Some p -> in_critical p = true ->
          threads w !! j = Some q -> in_critical q = true ->
          i = j)
    /\ (instances_lock (shared w) = true
        <-> exists i p, threads w !! i = Some p /\ in_critical p = true).
Proof.
  intros HN Hn.
  destruct (reachable_Inv N M sched HN Hn) as (w & He & HI).
  exists w. split; [done|]. pose proof (inv_mutex _ _ _ HI) as Hm.
  split.
  - intros i j p q Hi Hp Hj Hq.
    eapply (count_le_one_unique in_critical); eauto.
    rewrite Hm. destruct (instances_lock _); lia.
  - split.
    + intros Hl. rewrite Hl in Hm.
      assert (exists p, p ∈ threads w /\ in_critical p = true) as (p & Hin & Hp).
      { clear -Hm. induction (threads w) as [|x l IH]; simpl in Hm; [lia|].
        destruct (in_critical x) eqn:E.
        - exists x. split; [left|done].
        - destruct IH as (p & ? & ?); [lia|]. exists p. split; [by right|done]. }
      apply list_elem_of_lookup in Hin as [i Hi]. eauto.
    + intros (i & p & Hi & Hp).
      pose proof (count_elem in_critical _ p (list_elem_of_lookup_2 _ _ _ Hi) Hp).
      destruct (instances_lock _); [done|lia].
Qed.

(** *** Tickets are used once *)

(** What a step does to the three ticket lists. *)
Lemma step_tickets w tid w' :
  step w tid = Some w' ->
  let T := ticket (semaphore (shared w)) in
  let T' := ticket (semaphore (shared w')) in
  (T' = wrap_intptr (T + 1)
   /\ waiting_tickets w' ≡ₚ T :: waiting_tickets w
   /\ granted_tickets w' = granted_tickets w
   /\ drawn_tickets w' = drawn_tickets w ++ [T])
  \/ (exists b,
        T' = T
        /\ waiting_tickets w ≡ₚ b :: waiting_tickets w'
        /\ granted_tickets w' = granted_tickets w ++ [b]
        /\ drawn_tickets w' = drawn_tickets w)
  \/ (T' = T
      /\ waiting_tickets w' ≡ₚ waiting_tickets w
      /\ granted_tickets w' = granted_tickets w
      /\ drawn_tickets w' = drawn_tickets w).
Proof.
  destruct w as [[[T C] tks lk] ths lg]. unfold step. simpl.
  destruct (ths !! tid) as [p|] eqn:Hp.
  2: { intros [= <-]. by right; right. }
  destruct (thread_swap _ _ _ Hp) as (rest & H1 & H2).
  assert (forall p', omap waiting_ticket (<[tid:=p']> ths)
                     ≡ₚ omap waiting_ticket (p' :: rest)) as HW'.
  { intros p'. by rewrite H2. }
  assert (omap waiting_ticket ths ≡ₚ omap waiting_ticket (p :: rest)) as HW.
  { by rewrite H1. }
  destruct p; simpl; unfold move; simpl;
    repeat case_match; intros [= <-];
    unfold waiting_tickets, granted_tickets, drawn_tickets; simpl;
    rewrite ?omap_app, ?app_nil_r; simpl; rewrite ?app_nil_r;
    try (right; right; split_and!; try done; by rewrite HW', HW).
  - left. split_and!; try done. by rewrite HW', HW.
  - right; left. exists tk. split_and!; try done. by rewrite HW', HW.
Qed.

Lemma Tickets_init N M : Tickets (init N M).
Proof.
  split; unfold drawn_tickets, granted_tickets, waiting_tickets; simpl;
    rewrite ?omap_replicate_None by done; try done.
  - apply NoDup_nil_2.
  - intros a H. by apply elem_of_nil in H.
Qed.

Lemma step_Tickets N n w tid w' :
  Inv N n w -> N + n < INTPTR_MAX ->
  Tickets w -> step w tid = Some w' -> Tickets w'.
Proof.
  intros HI Hn [Hd Ho Hk] Hstep.
  pose proof (inv_ticket _ _ _ HI) as HT0. pose proof (inv_width _ _ _ HI).
  destruct (step_tickets _ _ _ Hstep)
    as [(HT & HW & HA & HD)|[(b & HT & HW & HA & HD)|(HT & HW & HA & HD)]].
  - rewrite wrap_intptr_id in HT by (unfold INTPTR_MIN, INTPTR_MAX in *; lia).
    split; rewrite ?HT, ?HA.
    + rewrite HD, Hd, seqZ_app by lia. done.
    + rewrite HW. rewrite <- Permutation_middle. apply NoDup_cons. split; [|done].
      intros Hin. apply Hk in Hin. lia.
    + intros a Hin. rewrite HW, <- Permutation_middle in Hin.
      apply elem_of_cons in Hin as [->|Hin]; [lia|]. apply Hk in Hin. lia.
  - assert (granted_tickets w' ++ waiting_tickets w'
            ≡ₚ granted_tickets w ++ waiting_tickets w) as Hp.
    { rewrite HA, HW, <- app_assoc. done. }
    split; rewrite ?HT.
    + by rewrite HD.
    + by rewrite Hp.
    + intros a Hin. rewrite Hp in Hin. by apply Hk.
  - split; rewrite ?HT, ?HA, ?HD; try done.
    + by rewrite HW.
    + intros a Hin. rewrite HW in Hin. by apply Hk.
Qed.

Lemma exec_Tickets N sched : forall n w,
  Inv N n w -> N + n + Z.of_nat (length sched) <= INTPTR_MAX ->
  Tickets w ->
  forall w', exec w sched = Some w' -> Tickets w'.
Proof.
  induction sched as [|tid sched IH]; intros n w HI Hn HO w' He.
  - by injection He as <-.
  - cbn [length] in Hn. rewrite Nat2Z.inj_succ in Hn.
    destruct (step_Inv N n w tid HI) as (w1 & Hs & HI1); [lia|].
    simpl in He. rewrite Hs in He.
    apply (IH (n + 1) w1); [done|lia| |done].
    apply (step_Tickets N n w tid w1 HI); [lia|done|done].
Qed.

(** A state reached from the initial one, with all that is known of it. *)
Lemma reachable_all N M sched :
  0 <= N -> N + Z.of_nat (length sched) <= INTPTR_MAX ->
  exists w, exec (init N M) sched = Some w
            /\ Inv N (Z.of_nat (length sched)) w /\ Tickets w.
Proof.
  intros HN Hn.
  destruct (reachable_Inv N M sched HN Hn) as (w & He & HI).
  exists w. split_and!; try done.
  apply (exec_Tickets N sched 0 (init N M)); [by apply Inv_init|lia| |done].
  apply Tickets_init.
Qed.

(** X2. The semaphore hands out the tickets 0, 1, 2, ... in the order of the
    calls, one per call of [acquire], and no ticket is used twice: the
    tickets let through and the tickets still waiting are all different,
    and each of them was drawn. *)
Theorem tickets_used_once N M sched :
  0 <= N ->
  N + Z.of_nat (length sched) <= INTPTR_MAX ->
  exists w,
    exec (init N M) sched = Some w
    /\ drawn_tickets w = seqZ 0 (ticket (semaphore (shared w)))
    /\ NoDup (granted_tickets w ++ waiting_tickets w)
    /\ (forall a, a ∈ granted_tickets w ++ waiting_tickets w ->
          a ∈ drawn_tickets w).
Proof.
  intros HN Hn.
  destruct (reachable_all N M sched HN Hn) as (w & He & HI & [Hd Ho Hk]).
  exists w. split_and!; try done.
  intros a Ha. rewrite Hd. apply elem_of_seqZ. apply Hk in Ha. lia.
Qed.

(** *** Every slot is accounted for *)

Lemma blocked_tickets N n w :
  Inv N n w -> Tickets w ->
  filter (fun a => ~ a < current (semaphore (shared w))) (waiting_tickets w)
  ≡ₚ seqZ (current (semaphore (shared w)))
       (ticket (semaphore (shared w)) - current (semaphore (shared w))).
Proof.
  intros HI [_ Ho Hk].
  apply NoDup_app in Ho as (_ & _ & Hw).
  apply NoDup_Permutation.
  - by apply NoDup_filter.
  - apply NoDup_seqZ.
  - intros a. rewrite list_elem_of_filter, elem_of_seqZ. split.
    + intros [Hge Hin].
      assert (a ∈ granted_tickets w ++ waiting_tickets w) as Hin'
        by (apply elem_of_app; by right).
      apply Hk in Hin'. lia.
    + intros Ha. split; [lia|]. apply (inv_waiting _ _ _ HI). lia.
Qed.

Lemma slots_of_Inv N n w :
  Inv N n w -> Tickets w ->
  holders w + Z.of_nat (length (eligible w))
  + Z.max 0 (current (semaphore (shared w)) - ticket (semaphore (shared w)))
  = N.
Proof.
  intros HI HT. pose proof (blocked_tickets _ _ _ HI HT) as Hb.
  apply Permutation_length in Hb. rewrite length_seqZ in Hb.
  pose proof (inv_drawn _ _ _ HI) as Hd.
  fold (waiting_tickets w) in Hd.
  rewrite (length_filter_split
             (fun a => a < current (semaphore (shared w))) (waiting_tickets w))
    in Hd.
  unfold eligible. lia.
Qed.

(** X3. Every slot of the pool is accounted for: in every state reached, the
    callers past the semaphore, the waiting callers that the counter
    already lets through and the slots no ticket was drawn for add up to
    the width [N]. In particular, while some caller is held back, all [N]
    slots are taken or promised: nobody waits while a slot is free. *)
Theorem slots_accounted N M sched :
  0 <= N ->
  N + Z.of_nat (length sched) <= INTPTR_MAX ->
  exists w,
    exec (init N M) sched = Some w
    /\ holders w + Z.of_nat (length (eligible w))
       + Z.max 0 (current (semaphore (shared w))
                  - ticket (semaphore (shared w)))
       = N
    /\ (forall a, a ∈ waiting_tickets w ->
          current (semaphore (shared w)) <= a ->
          holders w + Z.of_nat (length (eligible w)) = N).
Proof.
  intros HN Hn.
  destruct (reachable_all N M sched HN Hn) as (w & He & HI & HT).
  exists w. split; [done|].
  pose proof (slots_of_Inv _ _ _ HI HT) as Hs. split; [done|].
  intros a Ha Hge.
  assert (a < ticket (semaphore (shared w))).
  { apply (tk_known _ HT). apply elem_of_app. by right. }
  lia.
Qed.

(** *** Some request can always move *)

Lemma movable_enabled N n w tid p :
  Inv N n w -> N + n < INTPTR_MAX ->
  threads w !! tid = Some p -> movable w p = true ->
  busy w tid /\ enabled w tid.
Proof.
  intros HI Hn Hp Hm. split.
  { exists p. split; [done|]. by destruct p. }
  destruct (step_Inv N n w tid HI Hn) as (w' & Hs & _).
  exists w'. split; [done|]. rewrite Hp.
  assert (tid < length (threads w))%nat as Hlt by by eapply lookup_lt_Some.
  revert Hs. unfold step, movable in *. rewrite Hp.
  destruct p; simpl in *; try done; unfold move;
    repeat case_match; try done; intros [= <-]; simpl;
    rewrite list_lookup_insert_eq by done; done.
Qed.

Lemma find_movable w (l : list pc) :
  (exists i p, l !! i = Some p /\ movable w p = true)
  \/ (forall p, p ∈ l -> movable w p = false).
Proof.
  induction l as [|x l [(i & p & Hi & Hp)|IH]].
  - right. intros p H. by apply elem_of_nil in H.
  - left. by exists (S i), p.
  - destruct (movable w x) eqn:E.
    + left. by exists 0%nat, x.
    + right. intros p Hin. apply elem_of_cons in Hin as [->|Hin]; auto.
Qed.

Lemma count_none f (l : list pc) :
  (forall p, p ∈ l -> f p = false) -> count f l = 0.
Proof.
  induction l as [|x l IH]; intros H; [done|]. simpl.
  rewrite (H x) by left. rewrite IH; [done|]. intros p Hp. apply H. by right.
Qed.

Lemma count_some f (l : list pc) :
  1 <= count f l -> exists p, p ∈ l /\ f p = true.
Proof.
  induction l as [|x l IH]; simpl; [lia|]. intros H.
  destruct (f x) eqn:E.
  - exists x. split; [left|done].
  - destruct IH as (p & ? & ?); [lia|]. exists p. split; [by right|done].
Qed.

(** X4. The pool cannot get stuck: in every state reached of a pool of width at
    least 1, if some request is under way then one of the requests under
    way can take a step that moves it on. *)
Theorem some_request_moves N M sched :
  1 <= N ->
  N + Z.of_nat (length sched) < INTPTR_MAX ->
  exists w,
    exec (init N M) sched = Some w
    /\ ((exists tid, busy w tid) -> exists tid, busy w tid /\ enabled w tid).
Proof.
  intros HN Hn.
  destruct (reachable_all N M sched) as (w & He & HI & HT); [lia|lia|].
  exists w. split; [done|]. intros (tid & p & Hp & Hbusy).
  destruct (find_movable w (threads w)) as [(i & q & Hi & Hq)|Hstuck].
  { exists i. by eapply movable_enabled. }
  exfalso.
  destruct (instances_lock (shared w)) eqn:Hlk.
  - pose proof (inv_mutex _ _ _ HI) as Hm. rewrite Hlk in Hm.
    destruct (count_some in_critical (threads w)) as (q & Hin & Hq); [lia|].
    specialize (Hstuck q Hin). by destruct q.
  - assert (forall q, q ∈ threads w ->
              q = Idle \/ exists tk,
                q = SemWait tk (current (semaphore (shared w)))) as Hall.
    { intros q Hin. specialize (Hstuck q Hin). unfold movable in Hstuck.
      rewrite Hlk in Hstuck. destruct q; try done; [by left|].
      right. exists tk. f_equal.
      apply negb_false_iff, Z.eqb_eq in Hstuck. done. }
    assert (holders w = 0) as Hh.
    { apply count_none. intros q Hin. by destruct (Hall q Hin) as [->|[? ->]]. }
    destruct (Hall p (list_elem_of_lookup_2 _ _ _ Hp)) as [->|[tk ->]]; [done|].
    assert (tk ∈ waiting_tickets w) as Hw.
    { apply list_elem_of_omap. eexists. split; [by eapply list_elem_of_lookup_2|done]. }
    assert (current (semaphore (shared w)) <= tk) as Hge.
    { eapply (inv_parked _ _ _ HI). by eapply list_elem_of_lookup_2. }
    assert (eligible w = []) as Hel.
    { destruct (eligible w) as [|x l] eqn:E; [done|exfalso].
      assert (x ∈ eligible w) as Hx by (rewrite E; left).
      apply list_elem_of_filter in Hx as [Hlt Hx].
      apply list_elem_of_omap in Hx as (q & Hq & Hqx).
      assert (current (semaphore (shared w)) <= x); [|lia].
      destruct (Hall q Hq) as [->|[tk' ->]]; [done|].
      simpl in Hqx. injection Hqx as ->.
      by eapply (inv_parked _ _ _ HI). }
    pose proof (slots_of_Inv _ _ _ HI HT) as Hs.
    assert (tk < ticket (semaphore (shared w))).
    { apply (tk_known _ HT). apply elem_of_app. by right. }
    rewrite Hh, Hel in Hs. simpl in Hs. lia.
Qed.

(** *** One thread alone *)

Lemma step_at w tid p :
  threads w !! tid = Some p ->
  step w tid
  = match p with
    | Idle =>
        let '(tk, s) := sem_take_ticket (semaphore (shared w)) in
        move w tid (with_sem (shared w) s) (SemLoad tk) [EvTake tid tk]
    | SemLoad tk =>
        if sem_grants tk (current (semaphore (shared w)))
        then move w tid (shared w) PoolLock [EvPass tid tk]
        else move w tid (shared w)
               (SemWait tk (current (semaphore (shared w)))) []
    | SemWait tk curr =>
        if current (semaphore (shared w)) =? curr then Some w
        else move w tid (shared w) (SemLoad tk) []
    | PoolLock =>
        if instances_lock (shared w) then Some w
        else move w tid (with_lock (shared w) true) PoolBack []
    | PoolBack =>
        match last (tickets (shared w)) with
        | None => None
        | Some t => move w tid (shared w) (PoolPopBack t) []
        end
    | PoolPopBack t =>
        match tickets (shared w) with
        | [] => None
        | _ => move w tid
                 (with_tickets (shared w) (removelast (tickets (shared w))))
                 (PoolUnlock t) []
        end
    | PoolUnlock t => move w tid (with_lock (shared w) false) (Holding t) []
    | Holding t => move w tid (shared w) (RelLock t) []
    | RelLock t =>
        if instances_lock (shared w) then Some w
        else move w tid (with_lock (shared w) true) (RelPush t) []
    | RelPush t =>
        move w tid (with_tickets (shared w) (tickets (shared w) ++ [t]))
          RelUnlock []
    | RelUnlock => move w tid (with_lock (shared w) false) RelSem []
    | RelSem =>
        move w tid (with_sem (shared w) (sem_release (semaphore (shared w))))
          RelNotify []
    | RelNotify => move w tid (shared w) Idle []
    end.
Proof. intros H. unfold step. by rewrite H. Qed.

Ltac one_step H :=
  erewrite step_at;
    [|cbn [threads]; rewrite ?list_insert_insert_eq;
      first [exact H | apply list_lookup_insert_eq; by eapply lookup_lt_Some]];
  cbn -[wrap_intptr last removelast exec step].

(** X5. A caller that finds a slot free and meets nobody on its way goes
    through [acquire] in six steps and holds the index that was last in
    the free list; its [release] takes six steps more, after which the
    free list, the lock and the threads are as before and both counters of
    the semaphore have advanced by one. *)
Theorem uncontended_round_trip w tid l t :
  threads w !! tid = Some Idle ->
  instances_lock (shared w) = false ->
  ticket (semaphore (shared w)) < current (semaphore (shared w)) ->
  tickets (shared w) = l ++ [t] ->
  exists w1 w2,
    exec w (acquire_steps tid) = Some w1
    /\ threads w1 = <[tid := Holding t]> (threads w)
    /\ tickets (shared w1) = l
    /\ instances_lock (shared w1) = false
    /\ exec w1 (release_steps tid) = Some w2
    /\ threads w2 = threads w
    /\ tickets (shared w2) = l ++ [t]
    /\ instances_lock (shared w2) = false
    /\ ticket (semaphore (shared w2))
       = wrap_intptr (ticket (semaphore (shared w)) + 1)
    /\ current (semaphore (shared w2))
       = wrap_intptr (current (semaphore (shared w)) + 1).
Proof.
  destruct w as [[[T C] tks lk] ths lg]. simpl. intros Hlook -> Hlt ->.
  unfold acquire_steps, release_steps. cbn [repeat].
  eexists _, _. split.
  { one_step Hlook. one_step Hlook.
    unfold sem_grants. destruct (Z.ltb_spec T C); [|lia]. cbn -[wrap_intptr last removelast exec step].
    one_step Hlook. one_step Hlook. rewrite last_snoc. cbn -[wrap_intptr last removelast exec step].
    one_step Hlook. rewrite match_snoc, removelast_last. cbn -[wrap_intptr exec step].
    one_step Hlook. rewrite !list_insert_insert_eq. reflexivity. }
  cbn -[wrap_intptr]. split_and!; try done.
  { one_step Hlook. one_step Hlook. one_step Hlook. one_step Hlook.
    one_step Hlook. one_step Hlook. rewrite !list_insert_insert_eq. reflexivity. }
  all: cbn -[wrap_intptr]; try done.
  by apply list_insert_id.
Qed.

(** *** A pool of no width *)

Lemma Closed_init N M : N <= 0 -> Closed N 0 (init N M).
Proof.
  intros HN. split; unfold granted_tickets, free_list; simpl; try done.
  - intros p Hp. apply elem_of_replicate in Hp as [-> _]. by left.
  - by rewrite Z2Nat.nonpos.
Qed.

Lemma step_Closed N n w tid :
  N <= 0 -> Closed N n w -> n < INTPTR_MAX ->
  exists w', step w tid = Some w' /\ Closed N (n + 1) w'.
Proof.
  intros HN [Hc Ht Hth Hl Hf] Hn.
  destruct (threads w !! tid) as [p|] eqn:Hp.
  2: { exists w. unfold step. rewrite Hp. split; [done|]. split; try done; lia. }
  destruct (thread_swap _ _ _ Hp) as (rest & H1 & H2).
  assert (forall p' q, q ∈ <[tid:=p']> (threads w) -> q = p' \/ q ∈ threads w)
    as Hnew.
  { intros p' q Hq. rewrite H2 in Hq. apply elem_of_cons in Hq as [|Hq]; [by left|].
    right. rewrite H1. by right. }
  rewrite (step_at _ _ _ Hp).
  destruct (Hth p (list_elem_of_lookup_2 _ _ _ Hp)) as [->|(tk & Htk & [->| ->])].
  - eexists. split; [reflexivity|].
    destruct w as [[[T C] tks lk] ths lg]. simpl in *.
    rewrite wrap_intptr_id by (unfold INTPTR_MIN, INTPTR_MAX in *; lia).
    split; unfold granted_tickets, free_list in *; simpl; try done; try lia.
    + intros q Hq. apply Hnew in Hq as [->|Hq]; [|by apply Hth].
      right. exists T. split; [lia|by left].
    + simpl in Hl. by rewrite omap_app, Hl.
  - unfold sem_grants. rewrite Hc. destruct (Z.ltb_spec tk N); [lia|].
    eexists. split; [reflexivity|].
    split; unfold granted_tickets, free_list in *; simpl; try done; try lia.
    + intros q Hq. apply Hnew in Hq as [->|Hq]; [|by apply Hth].
      right. exists tk. split; [done|by right].
    + by rewrite app_nil_r.
  - rewrite Hc, Z.eqb_refl. exists w. split; [done|]. split; try done; lia.
Qed.

(** X6. A pool of width 0 or less serves nobody: whatever the callers do, none
    gets past the semaphore, none is let through, and the free list stays
    empty. *)
Theorem no_width_no_entry N M sched :
  N <= 0 ->
  Z.of_nat (length sched) <= INTPTR_MAX ->
  exists w,
    exec (init N M) sched = Some w
    /\ holders w = 0
    /\ granted_tickets w = []
    /\ free_list w = []
    /\ current (semaphore (shared w)) = N.
Proof.
  intros HN Hn.
  assert (forall sched n w,
            Closed N n w -> n + Z.of_nat (length sched) <= INTPTR_MAX ->
            exists w', exec w sched = Some w'
                       /\ Closed N (n + Z.of_nat (length sched)) w') as Hrun.
  { clear sched Hn. induction sched as [|tid sched IH]; intros n w HC Hn.
    - exists w. split; [done|]. simpl. by rewrite Z.add_0_r.
    - cbn [length] in *. rewrite Nat2Z.inj_succ in *.
      destruct (step_Closed N n w tid HN HC) as (w1 & Hs & HC1); [lia|].
      destruct (IH (n + 1) w1 HC1) as (w' & He & HC'); [lia|].
      exists w'. simpl. rewrite Hs. split; [done|].
      by replace (n + Z.succ (Z.of_nat (length sched)))
        with (n + 1 + Z.of_nat (length sched)) by lia. }
  destruct (Hrun sched 0 (init N M)) as (w & He & [Hc Ht Hth Hl Hf]);
    [by apply Closed_init|lia|].
  exists w. split_and!; try done.
  apply count_none. intros p Hp.
  by destruct (Hth p Hp) as [->|(tk & _ & [->| ->])].
Qed.

(** *** The theorems at concrete schedules *)

Lemma mutex_excludes_witness :
  exists w,
    exec (init 2 3) [0; 0; 0; 1; 1; 1; 0; 1]%nat = Some w
    /\ (forall i j p q,
          threads w !! i = Some p -> in_critical p = true ->
          threads w !! j = Some q -> in_critical q = true ->
          i = j)
    /\ (instances_lock (shared w) = true
        <-> exists i p, threads w !! i = Some p /\ in_critical p = true).
Proof.
  apply (mutex_excludes 2 3 [0; 0; 0; 1; 1; 1; 0; 1]%nat).
  - lia.
  - vm_compute. discriminate.
Defined.

Lemma tickets_used_once_witness :
  exists w,
    exec (init 2 4) overtaking_schedule = Some w
    /\ drawn_tickets w = seqZ 0 (ticket (semaphore (shared w)))
    /\ NoDup (granted_tickets w ++ waiting_tickets w)
    /\ (forall a, a ∈ granted_tickets w ++ waiting_tickets w ->
          a ∈ drawn_tickets w).
Proof.
  apply (tickets_used_once 2 4 overtaking_schedule).
  - lia.
  - vm_compute. discriminate.
Defined.

Lemma slots_accounted_witness :
  exists w,
    exec (init 2 4) (repeat 0 6 ++ repeat 1 6 ++ [2; 2; 3; 3])%nat = Some w
    /\ holders w + Z.of_nat (length (eligible w))
       + Z.max 0 (current (semaphore (shared w))
                  - ticket (semaphore (shared w)))
       = 2
    /\ (forall a, a ∈ waiting_tickets w ->
          current (semaphore (shared w)) <= a ->
          holders w + Z.of_nat (length (eligible w)) = 2).
Proof.
  apply (slots_accounted 2 4 (repeat 0 6 ++ repeat 1 6 ++ [2; 2; 3; 3])%nat).
  - lia.
  - vm_compute. discriminate.
Defined.

Lemma some_request_moves_witness :
  exists w,
    exec (init 1 3) (repeat 0 6 ++ [1; 1; 2; 2])%nat = Some w
    /\ ((exists tid, busy w tid) -> exists tid, busy w tid /\ enabled w tid).
Proof.
  apply (some_request_moves 1 3 (repeat 0 6 ++ [1; 1; 2; 2])%nat).
  - lia.
  - vm_compute. reflexivity.
Defined.

Lemma uncontended_round_trip_witness :
  exists w1 w2,
    exec (init 2 3) (acquire_steps 1) = Some w1
    /\ threads w1 = [Idle; Holding 1; Idle]
    /\ tickets (shared w1) = [0]
    /\ exec w1 (release_steps 1) = Some w2
    /\ threads w2 = [Idle; Idle; Idle]
    /\ tickets (shared w2) = [0; 1].
Proof.
  destruct (uncontended_round_trip (init 2 3) 1 [0] 1)
    as (w1 & w2 & H1 & Hth1 & Htk1 & _ & H2 & Hth2 & Htk2 & _).
  - reflexivity.
  - reflexivity.
  - vm_compute. reflexivity.
  - reflexivity.
  - exists w1, w2. split; [exact H1|]. split; [exact Hth1|].
    split; [exact Htk1|]. split; [exact H2|]. split; [exact Hth2|exact Htk2].
Defined.

Lemma no_width_no_entry_witness :
  exists w,
    exec (init 0 2) [0; 0; 1; 1; 0; 1]%nat = Some w
    /\ holders w = 0
    /\ granted_tickets w = []
    /\ free_list w = []
    /\ current (semaphore (shared w)) = 0.
Proof.
  apply (no_width_no_entry 0 2 [0; 0; 1; 1; 0; 1]%nat).
  - lia.
  - vm_compute. discriminate.
Defined.

End PoolAccounting.

(** ** More on setup: how each run of [vsTrtCreate] ends *)

Module SetupOutcomes.

Import Host Filter Setup Samples SetupProtocol SetupObs SetupSamples.

(** *** Computations that give up tidily *)

Lemma tidy_ret {A} nodes (a : A) : tidy nodes (mret a).
Proof. unfold tidy; simpl. constructor. Qed.

Lemma tidy_emit nodes c : is_quiet c = true -> tidy nodes (emit c).
Proof. intros H. unfold tidy; simpl. by repeat constructor. Qed.

Lemma tidy_set_error {A} nodes msg : tidy (A := A) nodes (set_error nodes msg).
Proof. unfold tidy; simpl. exists []. split; [done|constructor]. Qed.

Lemma tidy_defined {A} nodes (o : option A) : tidy nodes (defined o).
Proof. destruct o; unfold tidy; simpl; constructor. Qed.

Lemma tidy_reserve nodes n : tidy nodes (reserve n).
Proof. unfold reserve. case_match; unfold tidy; simpl; constructor. Qed.

Lemma tidy_bind {A B} nodes (m : M A) (f : A -> M B) :
  tidy nodes m -> (forall a, tidy nodes (f a)) -> tidy nodes (m ≫= f).
Proof.
  destruct m as [t [a|msg| |]]; intros Hm Hf; try done.
  rewrite bind_returned. specialize (Hf a). destruct (f a) as [t' r].
  unfold tidy, trace, outcome in *. simpl in *.
  destruct r; try (apply Forall_app; by split).
  destruct Hf as (before & -> & Hq). exists (t ++ before).
  split; [by rewrite app_assoc|]. apply Forall_app. by split.
Qed.

Lemma tidy_for_each {A} nodes (l : list A) (f : A -> call) :
  (forall x, is_quiet (f x) = true) ->
  tidy nodes (for_each l (fun x => emit (f x))).
Proof.
  intros H. rewrite for_each_emit. unfold tidy; simpl.
  apply Forall_fmap, Forall_forall. intros x _. apply H.
Qed.

Lemma settles_bind {A B} nodes (m : M A) (f : A -> M B) :
  tidy nodes m -> (forall a, settles nodes (f a)) -> settles nodes (m ≫= f).
Proof.
  destruct m as [t [a|msg| |]]; intros Hm Hf; try done.
  rewrite bind_returned. specialize (Hf a). destruct (f a) as [t' r].
  unfold tidy, settles, trace, outcome in *. simpl in *.
  destruct r; try (apply Forall_app; by split).
  - destruct Hf as (before & -> & Hq). exists (t ++ before).
    split; [by rewrite app_assoc|]. apply Forall_app. by split.
  - destruct Hf as (before & -> & Hq). exists (t ++ before).
    split; [by rewrite app_assoc|]. apply Forall_app. by split.
Qed.

Lemma tidy_parse_pad nodes in_ : tidy nodes (parse_pad nodes in_).
Proof.
  rewrite parse_pad_eq. case_match; [apply tidy_set_error|apply tidy_ret].
Qed.

Lemma tidy_pad_leaves_nothing nodes pad a b :
  tidy nodes (pad_leaves_nothing pad a b).
Proof.
  unfold pad_leaves_nothing.
  apply tidy_bind; [apply tidy_defined|intros twice].
  apply tidy_bind; [apply tidy_defined|intros rest_a].
  case_match; [apply tidy_ret|].
  apply tidy_bind; [apply tidy_defined|intros twice'].
  apply tidy_bind; [apply tidy_defined|intros rest_b]. apply tidy_ret.
Qed.

Lemma tidy_resolve_block_size nodes in_vis pad in_ :
  tidy nodes (resolve_block_size nodes in_vis pad in_).
Proof.
  unfold resolve_block_size.
  destruct (propGetInt (prop_block_w in_)) as [v1 e1].
  destruct (propGetInt (prop_block_h in_)) as [v2 e2].
  destruct e1; cbn [negb].
  - case_match; [apply tidy_set_error|].
    apply tidy_bind; [apply tidy_defined|intros vi0].
    apply tidy_bind; [apply tidy_pad_leaves_nothing|intros [|]];
      [apply tidy_set_error|apply tidy_ret].
  - apply tidy_bind; [apply tidy_pad_leaves_nothing|intros [|]];
      [apply tidy_set_error|apply tidy_ret].
Qed.

Lemma tidy_checkError nodes expr err : tidy nodes (checkError nodes expr err).
Proof. destruct err; [apply tidy_set_error|apply tidy_ret]. Qed.

Lemma tidy_select_device h nodes in_ : tidy nodes (select_device h nodes in_).
Proof.
  unfold select_device. destruct (propGetInt (prop_device_id in_)) as [v e].
  apply tidy_bind; [by apply tidy_emit|intros _].
  destruct (cudaGetDeviceCount h); [|apply tidy_set_error].
  case_match; [|apply tidy_set_error].
  apply tidy_bind; [by apply tidy_emit|intros _].
  apply tidy_bind; [apply tidy_checkError|intros _]. apply tidy_ret.
Qed.

Lemma tidy_load_engine h nodes in_ : tidy nodes (load_engine h nodes in_).
Proof.
  unfold load_engine.
  apply tidy_bind; [by apply tidy_emit|intros _].
  apply tidy_bind; [by apply tidy_emit|intros _].
  destruct (initEngine h _); [apply tidy_ret|apply tidy_set_error].
Qed.

Lemma tidy_configure h in_ : tidy (clips in_) (configure h in_).
Proof.
  unfold configure.
  apply tidy_bind; [by apply tidy_for_each|intros _].
  destruct (checkNodes h _); [apply tidy_set_error|].
  apply tidy_bind; [apply tidy_parse_pad|intros pad].
  apply tidy_bind; [apply tidy_resolve_block_size|intros block_size].
  apply tidy_bind; [apply tidy_select_device|intros device_id].
  destruct (propGetInt (prop_use_cuda_graph in_)) as [v e].
  destruct (propGetInt (prop_num_streams in_)) as [v' e'].
  apply tidy_bind; [apply tidy_load_engine|intros engine].
  apply tidy_bind; [by apply tidy_emit|intros _]. apply tidy_ret.
Qed.

Lemma tidy_build_instances h nodes cfg n : forall i acc,
  tidy nodes (build_instances h nodes cfg n i acc).
Proof.
  induction n as [|n IH]; intros i acc; [apply tidy_ret|].
  cbn [build_instances].
  apply tidy_bind; [by apply tidy_emit|intros _].
  destruct (getResource h _ _ _ _ _); [apply IH|apply tidy_set_error].
Qed.

Lemma settles_vsTrtCreate h in_ : settles (clips in_) (vsTrtCreate h in_).
Proof.
  unfold vsTrtCreate.
  apply settles_bind; [apply tidy_configure|intros cfg].
  unfold allocate.
  apply settles_bind; [apply tidy_reserve|intros _].
  apply settles_bind; [apply tidy_build_instances|intros instances].
  apply settles_bind; [apply tidy_reserve|intros _].
  apply settles_bind; [apply tidy_defined|intros vi0].
  apply settles_bind; [apply tidy_defined|intros instance0].
  unfold settles; simpl. exists []. split; [done|constructor].
Qed.

(** X7. However setup fails, it fails the same way: the error is reported
    once, then every node is freed, in order, and nothing was reported,
    freed or registered before. *)
Theorem failed_setup_frees_nodes h in_ msg :
  outcome (vsTrtCreate h in_) = Failed msg ->
  exists before,
    trace (vsTrtCreate h in_)
    = before ++ SetError msg
        :: map (fun node => FreeNode (node_id node)) (clips in_)
    /\ (forall c, c ∈ before -> is_quiet c = true).
Proof.
  intros Hout. pose proof (settles_vsTrtCreate h in_) as Hs.
  unfold settles in Hs. rewrite Hout in Hs.
  destruct Hs as (before & Ht & Hq). exists before. split; [done|].
  by apply Forall_forall.
Qed.

(** *** What a phase that returns has checked *)

Lemma int64ToIntS_range i : INT_MIN <= int64ToIntS i <= INT_MAX.
Proof. unfold int64ToIntS, INT_MAX, INT_MIN. repeat case_match; lia. Qed.


Lemma parse_pad_Returned nodes in_ t pad :
  parse_pad nodes in_ = (t, Returned pad) ->
  t = [] /\ pad = given_pad in_ /\ 0 <= pad <= INT_MAX.
Proof.
  rewrite parse_pad_eq. destruct (Z.ltb_spec (given_pad in_) 0); [done|].
  intros [= <- <-]. split_and!; try done.
  unfold given_pad. destruct (prop_pad in_) as [p|]; [|done].
  pose proof (int64ToIntS_range p). lia.
Qed.

Lemma pad_leaves_nothing_Returned pad a b t x :
  pad_leaves_nothing pad a b = (t, Returned x) ->
  t = [] /\ x = ((a - 2 * pad <=? 0) || (b - 2 * pad <=? 0))
  /\ in_int (2 * pad) = true /\ in_int (a - 2 * pad) = true
  /\ (x = false -> in_int (b - 2 * pad) = true).
Proof.
  unfold pad_leaves_nothing, int_mul, int_sub, int_result.
  destruct (in_int (2 * pad)); [|done]. cbn.
  destruct (in_int (a - 2 * pad)); [|done]. cbn.
  destruct (a - 2 * pad <=? 0); cbn; [by intros [= <- <-]|].
  destruct (in_int (b - 2 * pad)); [|done]. cbn. by intros [= <- <-].
Qed.

Ltac split_pad_check Hp :=
  match goal with
  | |- context [pad_leaves_nothing ?p ?a ?b] =>
      destruct (pad_leaves_nothing p a b) as [? [?| | |]] eqn:Hp
  end.

Ltac split_too_large Hle :=
  match goal with
  | |- context [if ?c then set_error _ _ else _] => destruct c eqn:Hle
  end.

Lemma in_int_le z : in_int z = true -> INT_MIN <= z <= INT_MAX.
Proof.
  unfold in_int. intros H. apply andb_true_iff in H as [H1 H2].
  apply Z.leb_le in H1, H2. lia.
Qed.

Lemma le_in_int z : INT_MIN <= z <= INT_MAX -> in_int z = true.
Proof.
  unfold in_int. intros H. apply andb_true_iff. split; apply Z.leb_le; lia.
Qed.

Lemma resolve_block_size_Returned nodes in_vis pad in_ t block_size :
  resolve_block_size nodes in_vis pad in_ = (t, Returned block_size) ->
  t = [] /\ usable_block in_ in_vis pad block_size.
Proof.
  unfold resolve_block_size, usable_block, given_block_h.
  destruct (prop_block_w in_) as [bw|], (prop_block_h in_) as [bh|];
    cbn -[pad_leaves_nothing set_error].
  1,2: split_pad_check Hp; cbn -[set_error]; try done;
    apply pad_leaves_nothing_Returned in Hp as (-> & -> & _);
    split_too_large Hle; [done|]; intros [= <- <-];
    apply orb_false_iff in Hle as [Hw Hh]; apply Z.leb_gt in Hw, Hh;
    (split; [done|]); split_and!; eauto.
  all: (destruct (Z.eqb_spec pad 0) as [->|]; cbn -[pad_leaves_nothing set_error];
        [|done]);
    (destruct (in_vis !! 0%nat) as [vi0|] eqn:Hvi;
     cbn -[pad_leaves_nothing set_error]; [|done]);
    split_pad_check Hp; cbn -[set_error]; try done;
    apply pad_leaves_nothing_Returned in Hp as (-> & -> & _ & Ha & Hb);
    split_too_large Hle; [done|]; intros [= <- <-];
    specialize (Hb eq_refl); apply in_int_le in Ha, Hb;
    apply orb_false_iff in Hle as [Hw Hh]; apply Z.leb_gt in Hw, Hh;
    (split; [done|]); split_and!; eauto; lia.
Qed.

Lemma select_device_Returned h nodes in_ t device_id :
  select_device h nodes in_ = (t, Returned device_id) ->
  t = [CudaGetDeviceCount; CudaSetDevice device_id]
  /\ device_id = given_device in_
  /\ exists device_count,
       cudaGetDeviceCount h = inl device_count
       /\ 0 <= device_id < device_count
       /\ cudaSetDevice h device_id = None.
Proof.
  unfold select_device, given_device.
  destruct (prop_device_id in_) as [v|]; cbn [propGetInt];
    rewrite emit_bind_eq;
    (destruct (cudaGetDeviceCount h) as [device_count|]; [|done]);
    (destruct (_ && _) eqn:Hin; [|done]);
    rewrite emit_bind_eq;
    (destruct (cudaSetDevice h _) eqn:Hset; [done|]);
    cbn; intros [= <- <-];
    apply andb_true_iff in Hin as [Hlo Hhi];
    apply Z.leb_le in Hlo; apply Z.ltb_lt in Hhi; eauto 10.
Qed.

Lemma load_engine_Returned h nodes in_ t engine :
  load_engine h nodes in_ = (t, Returned engine) ->
  t = [CreateInferRuntime; InitEngine (engine_path in_)]
  /\ initEngine h (engine_path in_) = inl engine.
Proof.
  unfold load_engine. rewrite !emit_bind_eq.
  destruct (initEngine h _); [|done]. cbn. by intros [= <- <-].
Qed.

(** What setup has settled when [configure] returns. *)
Lemma configure_Returned h in_ t cfg :
  configure h in_ = (t, Returned cfg) ->
  checkNodes h (map node_vi (clips in_)) = None
  /\ cfg_pad cfg = given_pad in_
  /\ 0 <= cfg_pad cfg <= INT_MAX
  /\ usable_block in_ (map node_vi (clips in_)) (cfg_pad cfg) (cfg_block_size cfg)
  /\ cfg_device_id cfg = given_device in_
  /\ (exists device_count,
        cudaGetDeviceCount h = inl device_count
        /\ 0 <= cfg_device_id cfg < device_count
        /\ cudaSetDevice h (cfg_device_id cfg) = None)
  /\ cfg_use_cuda_graph cfg
     = match prop_use_cuda_graph in_ with
       | Some v => negb (v =? 0)
       | None => false
       end
  /\ initEngine h (engine_path in_) = inl (cfg_engine cfg)
  /\ cfg_profile cfg = selectProfile h (cfg_engine cfg) (cfg_block_size cfg)
  /\ t = map PropGetNode (seq 0 (length (clips in_)))
         ++ [CudaGetDeviceCount; CudaSetDevice (cfg_device_id cfg);
             CreateInferRuntime; InitEngine (engine_path in_); SelectProfile].
Proof.
  unfold configure. rewrite for_each_emit. intros H.
  apply bind_Returned_inv in H as (t0 & [] & t0' & [= <-] & H & ->).
  destruct (checkNodes _ _); [done|].
  apply bind_Returned_inv in H as (t1 & pad & t1' & Hpad & H & ->).
  apply parse_pad_Returned in Hpad as (-> & -> & Hpad).
  apply bind_Returned_inv in H as (t2 & block_size & t2' & Hbs & H & ->).
  apply resolve_block_size_Returned in Hbs as (-> & Hbs).
  apply bind_Returned_inv in H as (t3 & device_id & t3' & Hdev & H & ->).
  apply select_device_Returned in Hdev as (-> & Hid & Hdev).
  destruct (prop_use_cuda_graph in_), (prop_num_streams in_); cbn in H;
    apply bind_Returned_inv in H as (t4 & engine & t4' & Heng & H & ->);
    apply load_engine_Returned in Heng as (-> & Heng);
    cbn in H; injection H as <- <-; cbn; split_and!; try done; lia.
Qed.

Lemma build_instances_Returned h nodes cfg n : forall i acc t instances,
  build_instances h nodes cfg n i acc = (t, Returned instances) ->
  exists built,
    instances = acc ++ built
    /\ length built = n
    /\ t = map GetResource (seqZ i (Z.of_nat n))
    /\ (forall j instance, built !! j = Some instance ->
          getResource h (i + Z.of_nat j) (cfg_engine cfg) (cfg_profile cfg)
            (cfg_block_size cfg) (cfg_use_cuda_graph cfg) = inl instance).
Proof.
  induction n as [|n IH]; intros i acc t instances.
  - cbn. intros [= <- <-]. exists []. by rewrite app_nil_r.
  - cbn [build_instances]. rewrite emit_bind_eq.
    destruct (getResource h i _ _ _ _) as [instance|] eqn:Hres; [|done].
    destruct (build_instances h nodes cfg n (i + 1) (acc ++ [instance]))
      as [t' r] eqn:Hrun.
    unfold trace, outcome; cbn. intros [= <- ->].
    apply IH in Hrun as (built & -> & Hlen & -> & Hall).
    exists (instance :: built). split_and!.
    + by rewrite <- app_assoc.
    + simpl. lia.
    + rewrite Nat2Z.inj_succ, (seqZ_cons i), Z.pred_succ by lia.
      by replace (Z.succ i) with (i + 1) by lia.
    + intros [|j] x; simpl.
      * intros [= <-]. by rewrite Z.add_0_r.
      * intros Hj. apply Hall in Hj.
        by replace (i + Z.of_nat (S j)) with (i + 1 + Z.of_nat j) by lia.
Qed.

(** *** Which calls a phase can make *)

Lemma calls_in_ret {A} P (a : A) : calls_in P (mret a).
Proof. constructor. Qed.

Lemma calls_in_emit P c : P c = true -> calls_in P (emit c).
Proof. intros H. by repeat constructor. Qed.

Lemma calls_in_set_error {A} P nodes msg :
  (forall c, is_cleanup c = true -> P c = true) ->
  calls_in (A := A) P (set_error nodes msg).
Proof.
  intros H. unfold calls_in, set_error, trace; simpl. constructor; [by apply H|].
  apply Forall_fmap, Forall_forall. intros x _. by apply H.
Qed.

Lemma calls_in_defined {A} P (o : option A) : calls_in P (defined o).
Proof. destruct o; constructor. Qed.

Lemma calls_in_reserve P n : calls_in P (reserve n).
Proof. unfold reserve. case_match; constructor. Qed.

Lemma calls_in_bind {A B} P (m : M A) (f : A -> M B) :
  calls_in P m -> (forall a, calls_in P (f a)) -> calls_in P (m ≫= f).
Proof.
  destruct m as [t [a|msg| |]]; intros Hm Hf; try done.
  rewrite bind_returned. unfold calls_in, trace in *. simpl.
  apply Forall_app. split; [done|apply Hf].
Qed.

Lemma calls_in_for_each {A} P (l : list A) (f : A -> call) :
  (forall x, P (f x) = true) -> calls_in P (for_each l (fun x => emit (f x))).
Proof.
  intros H. rewrite for_each_emit. unfold calls_in; simpl.
  apply Forall_fmap, Forall_forall. intros x _. apply H.
Qed.

(** A call that a phase cannot make, found after it: the phase returned. *)
Lemma call_after {A B} P (m : M A) (f : A -> M B) c :
  calls_in P m -> P c = false -> c ∈ trace (m ≫= f) ->
  exists t a, m = (t, Returned a) /\ c ∈ trace (f a).
Proof.
  intros Hm Hc Hin.
  assert (c ∉ trace m) as Hnot.
  { intros Hcm. unfold calls_in in Hm. rewrite Forall_forall in Hm.
    specialize (Hm c Hcm). congruence. }
  destruct m as [t [a|msg| |]]; try done.
  rewrite bind_returned in Hin. unfold trace in *. simpl in *.
  apply elem_of_app in Hin as [|]; [done|]. eauto.
Qed.

Ltac calls :=
  repeat first
    [ apply calls_in_ret
    | apply calls_in_defined
    | apply calls_in_reserve
    | apply calls_in_emit; reflexivity
    | apply calls_in_set_error; intros [] ?; done
    | apply calls_in_for_each; intros ?; reflexivity
    | apply calls_in_bind; [|intros ?]
    | match goal with
      | |- calls_in _ (let '(_, _) := propGetInt ?v in _) =>
          destruct (propGetInt v) as [? ?]
      | |- calls_in _ (match ?x with _ => _ end) => destruct x
      | |- calls_in _ (if ?x then _ else _) => destruct x
      end ].

Lemma calls_parse_pad P nodes in_ :
  (forall c, is_cleanup c = true -> P c = true) ->
  calls_in P (parse_pad nodes in_).
Proof.
  intros H. rewrite parse_pad_eq. case_match; [by apply calls_in_set_error|calls].
Qed.

Lemma calls_pad_leaves_nothing P pad a b :
  calls_in P (pad_leaves_nothing pad a b).
Proof. unfold pad_leaves_nothing. calls. Qed.

Lemma calls_resolve_block_size P nodes in_vis pad in_ :
  (forall c, is_cleanup c = true -> P c = true) ->
  calls_in P (resolve_block_size nodes in_vis pad in_).
Proof.
  intros H. unfold resolve_block_size.
  destruct (propGetInt (prop_block_w in_)) as [v1 e1].
  destruct (propGetInt (prop_block_h in_)) as [v2 e2].
  destruct e1; cbn [negb].
  - case_match; [by apply calls_in_set_error|].
    apply calls_in_bind; [calls|intros vi0].
    apply calls_in_bind; [apply calls_pad_leaves_nothing|intros [|]];
      [by apply calls_in_set_error|calls].
  - apply calls_in_bind; [apply calls_pad_leaves_nothing|intros [|]];
      [by apply calls_in_set_error|calls].
Qed.

Lemma configure_unfold h in_ :
  configure h in_
  = (for_each (seq 0 (length (clips in_))) (fun i => emit (PropGetNode i));;
     match checkNodes h (map node_vi (clips in_)) with
     | Some err => set_error (clips in_) err
     | None =>
         pad ← parse_pad (clips in_) in_;
         block_size ← resolve_block_size (clips in_)
                        (map node_vi (clips in_)) pad in_;
         device_id ← select_device h (clips in_) in_;
         configure_engine h in_ pad block_size device_id
     end).
Proof. reflexivity. Qed.

Lemma calls_select_device P h nodes in_ :
  (forall c, is_cleanup c = true -> P c = true) ->
  P CudaGetDeviceCount = true ->
  (forall id, P (CudaSetDevice id) = true) ->
  calls_in P (select_device h nodes in_).
Proof.
  intros Hc Hg Hs. unfold select_device.
  destruct (propGetInt (prop_device_id in_)) as [v e].
  apply calls_in_bind; [by apply calls_in_emit|intros _].
  destruct (cudaGetDeviceCount h); [|by apply calls_in_set_error].
  case_match; [|by apply calls_in_set_error].
  apply calls_in_bind; [by apply calls_in_emit|intros _].
  apply calls_in_bind; [|intros _; calls].
  destruct (cudaSetDevice h _); [by apply calls_in_set_error|calls].
Qed.

Lemma calls_load_engine P h nodes in_ :
  (forall c, is_cleanup c = true -> P c = true) ->
  P CreateInferRuntime = true ->
  (forall path, P (InitEngine path) = true) ->
  calls_in P (load_engine h nodes in_).
Proof.
  intros Hc Hr He. unfold load_engine.
  apply calls_in_bind; [by apply calls_in_emit|intros _].
  apply calls_in_bind; [by apply calls_in_emit|intros _].
  destruct (initEngine h _); [calls|by apply calls_in_set_error].
Qed.

Lemma calls_configure_engine P h in_ pad block_size device_id :
  (forall c, is_cleanup c = true -> P c = true) ->
  P CreateInferRuntime = true ->
  (forall path, P (InitEngine path) = true) ->
  P SelectProfile = true ->
  calls_in P (configure_engine h in_ pad block_size device_id).
Proof.
  intros Hc Hr He Hs. unfold configure_engine.
  destruct (propGetInt (prop_use_cuda_graph in_)) as [v e].
  destruct (propGetInt (prop_num_streams in_)) as [v' e'].
  apply calls_in_bind; [by apply calls_load_engine|intros engine].
  apply calls_in_bind; [by apply calls_in_emit|intros _]. calls.
Qed.

Lemma calls_build_instances P h nodes cfg n : forall i acc,
  (forall c, is_cleanup c = true -> P c = true) ->
  (forall j, P (GetResource j) = true) ->
  calls_in P (build_instances h nodes cfg n i acc).
Proof.
  induction n as [|n IH]; intros i acc Hc Hg; [calls|].
  cbn [build_instances].
  apply calls_in_bind; [by apply calls_in_emit|intros _].
  destruct (getResource h _ _ _ _ _); [by apply IH|by apply calls_in_set_error].
Qed.

Lemma calls_allocate P h in_ cfg :
  (forall c, is_cleanup c = true -> P c = true) ->
  (forall j, P (GetResource j) = true) ->
  P CreateFilter = true ->
  calls_in P (allocate h in_ cfg).
Proof.
  intros Hc Hg Hf. unfold allocate.
  apply calls_in_bind; [calls|intros _].
  apply calls_in_bind; [by apply calls_build_instances|intros instances].
  apply calls_in_bind; [calls|intros _].
  apply calls_in_bind; [calls|intros vi0].
  apply calls_in_bind; [calls|intros instance0].
  apply calls_in_bind; [by apply calls_in_emit|intros _]. calls.
Qed.

(** *** How far setup got *)

(** A call found in the trace of [configure] that is neither the fetch of
    a node nor part of giving up: the nodes, the padding and the tile
    have passed, and device selection was reached. *)
Lemma configure_reaches_device h in_ c :
  c ∈ trace (configure h in_) ->
  is_cleanup c = false ->
  (forall i, c <> PropGetNode i) ->
  checkNodes h (map node_vi (clips in_)) = None
  /\ 0 <= given_pad in_ <= INT_MAX
  /\ exists block_size,
       usable_block in_ (map node_vi (clips in_)) (given_pad in_) block_size
       /\ configure h in_
          = ((map PropGetNode (seq 0 (length (clips in_))), Returned tt)
             ≫= fun _ =>
                  select_device h (clips in_) in_
                  ≫= configure_engine h in_ (given_pad in_) block_size).
Proof.
  intros Hin Hc Hp. rewrite configure_unfold in Hin |- *.
  rewrite for_each_emit in Hin |- *. rewrite bind_returned in Hin.
  unfold trace at 1 in Hin. cbn [fst] in Hin.
  apply elem_of_app in Hin as [Hin|Hin].
  { apply list_elem_of_fmap in Hin as (i & -> & _). by destruct (Hp i). }
  destruct (checkNodes h _) as [err|].
  { exfalso. unfold set_error, trace in Hin; simpl in Hin.
    apply elem_of_cons in Hin as [->|Hin]; [done|].
    apply list_elem_of_fmap in Hin as (? & -> & _). done. }
  split; [done|].
  apply (call_after (fun c => is_cleanup c)) in Hin as (t1 & pad & Hpad & Hin);
    [|by apply calls_parse_pad|done].
  rewrite Hpad. apply parse_pad_Returned in Hpad as (-> & -> & Hpad).
  split; [done|].
  apply (call_after (fun c => is_cleanup c)) in Hin as (t2 & bs & Hbs & Hin);
    [|by apply calls_resolve_block_size|done].
  rewrite !bind_returned, Hbs.
  apply resolve_block_size_Returned in Hbs as (-> & Hbs).
  exists bs. split; [done|]. by rewrite !bind_returned.
Qed.

Lemma trace_bind_inv {A B} (m : M A) (f : A -> M B) c :
  c ∈ trace (m ≫= f) ->
  c ∈ trace m \/ exists t a, m = (t, Returned a) /\ c ∈ trace (f a).
Proof.
  destruct m as [t [a|msg| |]]; try by left.
  rewrite bind_returned. unfold trace; simpl.
  intros Hin. apply elem_of_app in Hin as [|]; [by left|right; eauto].
Qed.

(** A call found in the trace of [configure] that belongs to the engine
    phase: the device was selected too. *)
Lemma configure_reaches_engine h in_ c :
  c ∈ trace (configure h in_) ->
  before_engine c = false ->
  checkNodes h (map node_vi (clips in_)) = None
  /\ 0 <= given_pad in_ <= INT_MAX
  /\ (exists device_count,
        cudaGetDeviceCount h = inl device_count
        /\ 0 <= given_device in_ < device_count
        /\ cudaSetDevice h (given_device in_) = None)
  /\ exists block_size,
       usable_block in_ (map node_vi (clips in_)) (given_pad in_) block_size
       /\ c ∈ trace (configure_engine h in_ (given_pad in_) block_size
                       (given_device in_))
       /\ configure h in_
          = ((map PropGetNode (seq 0 (length (clips in_)))
              ++ [CudaGetDeviceCount; CudaSetDevice (given_device in_)],
              Returned tt)
             ≫= fun _ =>
                  configure_engine h in_ (given_pad in_) block_size
                    (given_device in_)).
Proof.
  intros Hin Hc.
  destruct (configure_reaches_device h in_ c Hin)
    as (Hcheck & Hpad & bs & Hbs & Heq).
  { by destruct c. }
  { intros i ->. done. }
  rewrite Heq in Hin. rewrite bind_returned in Hin.
  unfold trace at 1 in Hin. cbn [fst] in Hin.
  apply elem_of_app in Hin as [Hin|Hin].
  { apply list_elem_of_fmap in Hin as (i & -> & _). done. }
  apply (call_after before_engine) in Hin as (t & id & Hdev & Hin);
    [|by apply calls_select_device; [intros []| |]|done].
  rewrite Heq, Hdev.
  apply select_device_Returned in Hdev as (-> & -> & Hdev).
  split; [done|]. split; [done|]. split; [done|].
  exists bs. split; [done|]. split; [done|].
  rewrite !bind_returned. unfold trace, outcome; simpl.
  by rewrite <- app_assoc.
Qed.

Lemma allocate_Returned h in_ cfg t d :
  allocate h in_ cfg = (t, Returned d) ->
  1 <= cfg_num_streams cfg
  /\ nodes d = clips in_
  /\ device_id d = cfg_device_id cfg
  /\ num_streams d = cfg_num_streams cfg
  /\ use_cuda_graph d = cfg_use_cuda_graph cfg
  /\ pad d = cfg_pad cfg
  /\ engine d = cfg_engine cfg
  /\ pool d = Pool.pool_init (cfg_num_streams cfg)
  /\ Z.of_nat (length (instances d)) = cfg_num_streams cfg
  /\ (forall j instance, instances d !! j = Some instance ->
        getResource h (Z.of_nat j) (cfg_engine cfg) (cfg_profile cfg)
          (cfg_block_size cfg) (cfg_use_cuda_graph cfg) = inl instance)
  /\ (exists vi0 instance0,
        map node_vi (clips in_) !! 0%nat = Some vi0
        /\ instances d !! 0%nat = Some instance0
        /\ out_vi d = setDimensions h vi0 (exec_context instance0))
  /\ t = map GetResource (seqZ 0 (cfg_num_streams cfg)) ++ [CreateFilter].
Proof.
  unfold allocate. intros H.
  destruct (Z.ltb_spec (cfg_num_streams cfg) 0) as [Hneg|Hpos].
  { by rewrite reserve_negative in H. }
  replace (reserve (cfg_num_streams cfg)) with (mret tt : M unit) in H
    by (symmetry; by apply reserve_nonneg).
  rewrite mret_bind in H.
  apply bind_Returned_inv in H as (t1 & instances & t2 & Hbuild & H & ->).
  apply build_instances_Returned in Hbuild as (built & -> & Hlen & -> & Hall).
  rewrite app_nil_l in *.
  rewrite mret_bind in H.
  destruct (map node_vi (clips in_) !! 0%nat) as [vi0|] eqn:Hvi; [|done].
  destruct (built !! 0%nat) as [instance0|] eqn:Hi0; [|done].
  cbn in H. injection H as <- <-. cbn.
  assert (1 <= cfg_num_streams cfg).
  { apply lookup_lt_Some in Hi0. lia. }
  rewrite Z2Nat.id by lia.
  split_and!; try done; try lia. eauto.
Qed.

Lemma vsTrtCreate_Returned h in_ t d :
  vsTrtCreate h in_ = (t, Returned d) ->
  exists cfg t1,
    configure h in_ = (t1, Returned cfg)
    /\ allocate h in_ cfg = (map GetResource (seqZ 0 (cfg_num_streams cfg))
                              ++ [CreateFilter], Returned d)
    /\ t = t1 ++ map GetResource (seqZ 0 (cfg_num_streams cfg)) ++ [CreateFilter].
Proof.
  unfold vsTrtCreate. intros H.
  apply bind_Returned_inv in H as (t1 & cfg & t2 & Hcfg & Halloc & ->).
  exists cfg, t1. split; [done|].
  pose proof Halloc as Ha.
  apply allocate_Returned in Ha.
  destruct Ha as (_ & _ & _ & _ & _ & _ & _ & _ & _ & _ & _ & ->). done.
Qed.

(** *** When setup goes through *)

Lemma given_block_h_range in_ block_w :
  INT_MIN <= block_w <= INT_MAX ->
  INT_MIN <= given_block_h in_ block_w <= INT_MAX.
Proof.
  unfold given_block_h. destruct (prop_block_h in_); [|done].
  intros _. apply int64ToIntS_range.
Qed.

Lemma resolve_block_size_usable nodes in_vis pad in_ block_size :
  0 <= pad ->
  usable_block in_ in_vis pad block_size ->
  resolve_block_size nodes in_vis pad in_ = ([], Returned block_size).
Proof.
  intros Hpad. destruct block_size as [block_w block_h|vwidth vheight]; simpl.
  - intros ((bw & Hbw & ->) & -> & Hw & Hh).
    pose proof (int64ToIntS_range bw) as Hr.
    pose proof (given_block_h_range in_ _ Hr) as Hr'.
    unfold given_block_h in *.
    rewrite (resolve_block_size_requested nodes in_vis pad in_ bw Hbw);
      try (intros; apply le_in_int; unfold INT_MIN, INT_MAX in *; lia).
    destruct (Z.leb_spec (int64ToIntS bw - 2 * pad) 0); [lia|].
    match goal with
    | |- context [?a <=? 0] => destruct (Z.leb_spec a 0); [lia|done]
    end.
  - intros (Hbw & -> & (vi0 & Hvi & -> & ->) & Hw & Hh).
    unfold resolve_block_size. rewrite Hbw, Hvi.
    destruct (propGetInt (prop_block_h in_)) as [v2 error2].
    cbn -[pad_leaves_nothing set_error].
    rewrite pad_leaves_nothing_defined, bind_returned;
      try (intros; apply le_in_int; unfold INT_MIN, INT_MAX in *; lia).
    destruct (Z.leb_spec (width vi0 - 2 * 0) 0); [lia|].
    destruct (Z.leb_spec (height vi0 - 2 * 0) 0); [lia|]. done.
Qed.

Lemma select_device_valid h nodes in_ device_count :
  cudaGetDeviceCount h = inl device_count ->
  0 <= given_device in_ < device_count ->
  cudaSetDevice h (given_device in_) = None ->
  select_device h nodes in_
  = ([CudaGetDeviceCount; CudaSetDevice (given_device in_)],
     Returned (given_device in_)).
Proof.
  intros Hcount Hid Hset. unfold select_device, given_device in *.
  destruct (prop_device_id in_) as [v|]; cbn [propGetInt];
    rewrite emit_bind_eq, Hcount;
    (destruct (Z.leb_spec 0 (if false then 0 else int64ToIntS v)) ||
     destruct (Z.leb_spec 0 (if true then 0 else int64ToIntS 0)));
    try lia;
    (destruct (Z.ltb_spec (if false then 0 else int64ToIntS v) device_count) ||
     destruct (Z.ltb_spec (if true then 0 else int64ToIntS 0) device_count));
    try (cbn in *; lia);
    cbn [andb]; rewrite emit_bind_eq; cbn in *; rewrite Hset; done.
Qed.

Lemma configure_engine_loaded h in_ pad block_size device_id engine :
  initEngine h (engine_path in_) = inl engine ->
  configure_engine h in_ pad block_size device_id
  = ([CreateInferRuntime; InitEngine (engine_path in_); SelectProfile],
     Returned {| cfg_pad := pad;
                 cfg_block_size := block_size;
                 cfg_device_id := device_id;
                 cfg_use_cuda_graph := given_use_cuda_graph in_;
                 cfg_num_streams := given_num_streams in_;
                 cfg_engine := engine;
                 cfg_profile := selectProfile h engine block_size |}).
Proof.
  intros Heng.
  unfold configure_engine, load_engine, given_use_cuda_graph, given_num_streams.
  rewrite Heng.
  by destruct (prop_use_cuda_graph in_), (prop_num_streams in_).
Qed.

Lemma configure_engine_failed h in_ pad block_size device_id msg :
  initEngine h (engine_path in_) = inr msg ->
  configure_engine h in_ pad block_size device_id
  = (CreateInferRuntime :: InitEngine (engine_path in_)
       :: SetError ("operator(): " ++ msg)
       :: map (fun node => FreeNode (node_id node)) (clips in_),
     Failed ("operator(): " ++ msg)).
Proof.
  intros Heng. unfold configure_engine, load_engine. rewrite Heng.
  by destruct (prop_use_cuda_graph in_), (prop_num_streams in_).
Qed.

(** The calls of setup up to the selection of the profile. *)
Lemma configure_valid h in_ block_size device_count :
  checkNodes h (map node_vi (clips in_)) = None ->
  0 <= given_pad in_ ->
  usable_block in_ (map node_vi (clips in_)) (given_pad in_) block_size ->
  cudaGetDeviceCount h = inl device_count ->
  0 <= given_device in_ < device_count ->
  cudaSetDevice h (given_device in_) = None ->
  configure h in_
  = ((map PropGetNode (seq 0 (length (clips in_)))
      ++ [CudaGetDeviceCount; CudaSetDevice (given_device in_)],
      Returned tt)
     ≫= fun _ =>
          configure_engine h in_ (given_pad in_) block_size (given_device in_)).
Proof.
  intros Hcheck Hpad Hbs Hcount Hid Hset.
  rewrite configure_unfold, for_each_emit, Hcheck.
  rewrite parse_pad_eq.
  destruct (Z.ltb_spec (given_pad in_) 0); [lia|].
  rewrite !bind_returned.
  rewrite (resolve_block_size_usable _ _ _ _ block_size) by done.
  rewrite bind_returned.
  rewrite (select_device_valid h _ _ device_count) by done.
  rewrite bind_returned.
  unfold trace, outcome; simpl. by rewrite <- app_assoc.
Qed.

Lemma allocate_valid h in_ cfg :
  clips in_ <> [] ->
  1 <= cfg_num_streams cfg ->
  (forall j, 0 <= j < cfg_num_streams cfg ->
     exists instance,
       getResource h j (cfg_engine cfg) (cfg_profile cfg)
         (cfg_block_size cfg) (cfg_use_cuda_graph cfg) = inl instance) ->
  exists d,
    allocate h in_ cfg
    = (map GetResource (seqZ 0 (cfg_num_streams cfg)) ++ [CreateFilter],
       Returned d).
Proof.
  intros Hclips Hns Hres. unfold allocate.
  destruct (build_instances_ok h (clips in_) cfg
              (Z.to_nat (cfg_num_streams cfg)) 0 []) as (l & Hlen & Hrun).
  { intros j Hj. apply Hres. lia. }
  replace (reserve (cfg_num_streams cfg)) with (mret tt : M unit)
    by (symmetry; apply reserve_nonneg; lia).
  rewrite mret_bind, Hrun, bind_returned, mret_bind.
  destruct (clips in_) as [|node0 rest]; [done|].
  destruct l as [|instance0 l]; [simpl in Hlen; lia|].
  cbn. rewrite Z2Nat.id by lia. eexists. reflexivity.
Qed.

(** X8. The filter is created exactly when the arguments and the collaborators
    are [accepted]: each of the checks of [vsTrtCreate] is needed, and
    together they are enough. *)
Theorem created_iff_accepted h in_ :
  (exists t d, vsTrtCreate h in_ = (t, Returned d)) <-> accepted h in_.
Proof.
  split.
  - intros (t & d & Hrun).
    apply vsTrtCreate_Returned in Hrun as (cfg & t1 & Hcfg & Halloc & _).
    pose proof (configure_num_streams _ _ _ _ Hcfg) as Hns.
    apply configure_Returned in Hcfg
      as (Hcheck & Hpad & Hpad0 & Hbs & Hid & Hdev & Hgraph & Heng & Hprof & _).
    apply allocate_Returned in Halloc
      as (Hone & _ & _ & _ & _ & _ & _ & _ & Hlen & Hres
          & (vi0 & instance0 & Hvi & _ & _) & _).
    unfold accepted. fold (given_num_streams in_) in Hns.
    rewrite <- Hns, <- Hpad, <- Hid. split_and!; try done; try lia.
    { intros Hnil. by rewrite Hnil in Hvi. }
    exists (cfg_block_size cfg), (cfg_engine cfg). split_and!; try done.
    intros j Hj.
    destruct (lookup_lt_is_Some_2 (instances d) (Z.to_nat j))
      as [instance Hinst]; [lia|].
    exists instance. apply Hres in Hinst.
    rewrite Z2Nat.id in Hinst by lia.
    unfold given_use_cuda_graph. by rewrite <- Hprof, <- Hgraph.
  - intros (Hclips & Hcheck & Hpad & (device_count & Hcount & Hid & Hset)
            & Hns & block_size & engine & Hbs & Heng & Hres).
    unfold vsTrtCreate.
    rewrite (configure_valid h in_ block_size device_count) by done.
    rewrite bind_returned, (configure_engine_loaded _ _ _ _ _ engine) by done.
    unfold trace, outcome. cbn [fst snd].
    rewrite bind_returned.
    match goal with
    | |- context [allocate h in_ ?c] =>
        destruct (allocate_valid h in_ c) as (d & ->); try done
    end.
    eexists _, d. reflexivity.
Qed.

(** X9. What a created filter holds, and the calls that led to it: the
    descriptor records the clips, the saturated arguments and the loaded
    engine, it has one instance and one ticket per slot, and setup made
    its calls in the fixed order clips, device, engine, profile, instances,
    registration, without reporting an error or freeing a node. *)
Theorem created_filter_descriptor h in_ t d :
  vsTrtCreate h in_ = (t, Returned d) ->
  nodes d = clips in_
  /\ pad d = given_pad in_
  /\ device_id d = given_device in_
  /\ num_streams d = given_num_streams in_
  /\ use_cuda_graph d = given_use_cuda_graph in_
  /\ initEngine h (engine_path in_) = inl (engine d)
  /\ 1 <= num_streams d
  /\ Z.of_nat (length (instances d)) = num_streams d
  /\ Pool.tickets (pool d) = seqZ 0 (num_streams d)
  /\ Pool.current (Pool.semaphore (pool d)) = num_streams d
  /\ t = map PropGetNode (seq 0 (length (clips in_)))
         ++ [CudaGetDeviceCount; CudaSetDevice (device_id d);
             CreateInferRuntime; InitEngine (engine_path in_); SelectProfile]
         ++ map GetResource (seqZ 0 (num_streams d))
         ++ [CreateFilter].
Proof.
  intros Hrun.
  apply vsTrtCreate_Returned in Hrun as (cfg & t1 & Hcfg & Halloc & ->).
  pose proof (configure_num_streams _ _ _ _ Hcfg) as Hns.
  apply configure_Returned in Hcfg
    as (_ & Hpad & _ & _ & Hid & _ & Hgraph & Heng & _ & ->).
  apply allocate_Returned in Halloc
    as (Hone & Hn & Hd & Hs & Hg & Hp & He & Hpool & Hlen & _).
  rewrite Hn, Hd, Hs, Hg, Hp, He, Hpool, Hlen.
  rewrite PoolSafety.pool_init_tickets.
  split_and!; try done. by rewrite <- app_assoc.
Qed.

(** *** How far a run got *)

(** X10. The engine is loaded only after every earlier check has passed:
    the clips were accepted, the padding is not negative, the block size
    went through its checks, and the device exists and was made current. *)
Theorem engine_loaded_after_validation h in_ :
  engine_loaded (vsTrtCreate h in_) ->
  checkNodes h (map node_vi (clips in_)) = None
  /\ 0 <= given_pad in_ <= INT_MAX
  /\ (exists block_size,
        usable_block in_ (map node_vi (clips in_)) (given_pad in_) block_size)
  /\ (exists device_count,
        cudaGetDeviceCount h = inl device_count
        /\ 0 <= given_device in_ < device_count
        /\ cudaSetDevice h (given_device in_) = None)
  /\ CudaSetDevice (given_device in_) ∈ trace (vsTrtCreate h in_).
Proof.
  intros [path Hin]. unfold vsTrtCreate in *.
  assert (InitEngine path ∈ trace (configure h in_)) as Hcfg.
  { apply trace_bind_inv in Hin as [|(t & cfg & _ & Hin)]; [done|].
    pose proof (calls_allocate
                  (fun c => match c with InitEngine _ => false | _ => true end)
                  h in_ cfg) as Hall.
    unfold calls_in in Hall. rewrite Forall_forall in Hall.
    specialize (Hall ltac:(by intros []) ltac:(done) ltac:(done) _ Hin).
    done. }
  destruct (configure_reaches_engine h in_ _ Hcfg)
    as (Hcheck & Hpad & Hdev & bs & Hbs & _ & Heq); [done|].
  do 4 (split; [by eauto|]).
  apply trace_bind_l. rewrite Heq. apply trace_bind_l.
  unfold trace; simpl. rewrite elem_of_app. right.
  apply list_elem_of_In. simpl. auto.
Qed.

Lemma select_device_invalid h nodes in_ device_count :
  cudaGetDeviceCount h = inl device_count ->
  ~ (0 <= given_device in_ < device_count) ->
  select_device h nodes in_
  = (CudaGetDeviceCount
       :: SetError ("operator(): invalid device ID ("
                    ++ pretty (given_device in_) ++ ")")
       :: map (fun node => FreeNode (node_id node)) nodes,
     Failed ("operator(): invalid device ID ("
             ++ pretty (given_device in_) ++ ")")).
Proof.
  intros Hcount Hid. unfold select_device, given_device in *.
  destruct (prop_device_id in_) as [v|]; cbn [propGetInt];
    rewrite emit_bind_eq, Hcount;
    match goal with
    | |- context [(0 <=? ?x) && (?x <? ?y)] =>
        destruct (Z.leb_spec 0 x); destruct (Z.ltb_spec x y);
          cbn in *; try lia; done
    end.
Qed.

(** X11. A device index outside [0, device_count) ends setup right after the
    devices were counted: the error names the index, every node is freed,
    no device is made current and no engine is loaded. *)
Theorem invalid_device_rejected h in_ device_count :
  CudaGetDeviceCount ∈ trace (vsTrtCreate h in_) ->
  cudaGetDeviceCount h = inl device_count ->
  ~ (0 <= given_device in_ < device_count) ->
  vsTrtCreate h in_
  = (map PropGetNode (seq 0 (length (clips in_)))
     ++ CudaGetDeviceCount
          :: SetError ("operator(): invalid device ID ("
                       ++ pretty (given_device in_) ++ ")")
          :: map (fun node => FreeNode (node_id node)) (clips in_),
     Failed ("operator(): invalid device ID ("
             ++ pretty (given_device in_) ++ ")")).
Proof.
  intros Hin Hcount Hid. unfold vsTrtCreate in *.
  assert (CudaGetDeviceCount ∈ trace (configure h in_)) as Hcfg.
  { apply trace_bind_inv in Hin as [|(t & cfg & _ & Hin)]; [done|].
    pose proof (calls_allocate
                  (fun c => match c with CudaGetDeviceCount => false | _ => true end)
                  h in_ cfg) as Hall.
    unfold calls_in in Hall. rewrite Forall_forall in Hall.
    specialize (Hall ltac:(by intros []) ltac:(done) ltac:(done) _ Hin).
    done. }
  destruct (configure_reaches_device h in_ _ Hcfg)
    as (_ & _ & bs & _ & Heq); [done|done|].
  rewrite Heq, bind_returned.
  by rewrite (select_device_invalid h _ _ device_count).
Qed.

(** X12. When the engine does not load, setup ends there: it reports the
    engine's message, frees every node, and neither selects a profile nor
    builds an instance. *)
Theorem engine_failure_ends_setup h in_ msg :
  engine_loaded (vsTrtCreate h in_) ->
  initEngine h (engine_path in_) = inr msg ->
  vsTrtCreate h in_
  = (map PropGetNode (seq 0 (length (clips in_)))
     ++ [CudaGetDeviceCount; CudaSetDevice (given_device in_);
         CreateInferRuntime; InitEngine (engine_path in_)]
     ++ SetError ("operator(): " ++ msg)
          :: map (fun node => FreeNode (node_id node)) (clips in_),
     Failed ("operator(): " ++ msg)).
Proof.
  intros [path Hin] Heng. unfold vsTrtCreate in *.
  assert (InitEngine path ∈ trace (configure h in_)) as Hcfg.
  { apply trace_bind_inv in Hin as [|(t & cfg & _ & Hin)]; [done|].
    pose proof (calls_allocate
                  (fun c => match c with InitEngine _ => false | _ => true end)
                  h in_ cfg) as Hall.
    unfold calls_in in Hall. rewrite Forall_forall in Hall.
    specialize (Hall ltac:(by intros []) ltac:(done) ltac:(done) _ Hin).
    done. }
  destruct (configure_reaches_engine h in_ _ Hcfg)
    as (_ & _ & _ & bs & _ & _ & Heq); [done|].
  rewrite Heq, bind_returned, (configure_engine_failed _ _ _ _ _ msg) by done.
  unfold trace, outcome; simpl. by rewrite <- app_assoc.
Qed.

Lemma build_instances_fails h nodes cfg msg : forall n i acc k,
  (k < n)%nat ->
  (forall j, i <= j < i + Z.of_nat k ->
     exists instance,
       getResource h j (cfg_engine cfg) (cfg_profile cfg)
         (cfg_block_size cfg) (cfg_use_cuda_graph cfg) = inl instance) ->
  getResource h (i + Z.of_nat k) (cfg_engine cfg) (cfg_profile cfg)
    (cfg_block_size cfg) (cfg_use_cuda_graph cfg) = inr msg ->
  build_instances h nodes cfg n i acc
  = (map GetResource (seqZ i (Z.of_nat k + 1))
     ++ SetError ("operator(): " ++ msg)
          :: map (fun node => FreeNode (node_id node)) nodes,
     Failed ("operator(): " ++ msg)).
Proof.
  induction n as [|n IH]; intros i acc k Hk Hbefore Hfail; [lia|].
  cbn [build_instances]. rewrite emit_bind_eq.
  destruct k as [|k].
  - rewrite Z.add_0_r in Hfail. rewrite Hfail. done.
  - destruct (Hbefore i) as [instance ->]; [lia|].
    rewrite (IH (i + 1) _ k); [|lia| |].
    + unfold trace, outcome. cbn [fst snd].
      rewrite (seqZ_cons i (Z.of_nat (S k) + 1)) by lia.
      replace (Z.succ i) with (i + 1) by lia.
      replace (Z.pred (Z.of_nat (S k) + 1)) with (Z.of_nat k + 1) by lia.
      done.
    + intros j Hj. apply Hbefore. lia.
    + by replace (i + 1 + Z.of_nat k) with (i + Z.of_nat (S k)) by lia.
Qed.

(** X13. When the instance for slot [k] cannot be built, the loop stops at
    that slot: [getResource] was called [k + 1] times, the message is
    reported, every node is freed, and no filter is registered. *)
Theorem instance_failure_ends_setup h in_ t cfg k msg :
  configure h in_ = (t, Returned cfg) ->
  0 <= k < cfg_num_streams cfg ->
  (forall j, 0 <= j < k ->
     exists instance,
       getResource h j (cfg_engine cfg) (cfg_profile cfg)
         (cfg_block_size cfg) (cfg_use_cuda_graph cfg) = inl instance) ->
  getResource h k (cfg_engine cfg) (cfg_profile cfg)
    (cfg_block_size cfg) (cfg_use_cuda_graph cfg) = inr msg ->
  vsTrtCreate h in_
  = (t ++ map GetResource (seqZ 0 (k + 1))
       ++ SetError ("operator(): " ++ msg)
            :: map (fun node => FreeNode (node_id node)) (clips in_),
     Failed ("operator(): " ++ msg)).
Proof.
  intros Hcfg Hk Hbefore Hfail. unfold vsTrtCreate.
  rewrite Hcfg, bind_returned. unfold allocate.
  replace (reserve (cfg_num_streams cfg)) with (mret tt : M unit)
    by (symmetry; apply reserve_nonneg; lia).
  rewrite mret_bind.
  rewrite (build_instances_fails h (clips in_) cfg msg _ 0 [] (Z.to_nat k)).
  - rewrite Z2Nat.id by lia. done.
  - lia.
  - intros j Hj. apply Hbefore. lia.
  - by rewrite Z2Nat.id by lia.
Qed.

(** X14. With an explicit tile, a padding of [2^30] or more makes [2 * pad]
    leave the range of [int]: the run has no defined result, and nothing
    was reported or freed before. *)
Theorem huge_pad_undefined h in_ bw :
  checkNodes h (map node_vi (clips in_)) = None ->
  prop_block_w in_ = Some bw ->
  2 ^ 30 <= given_pad in_ ->
  vsTrtCreate h in_
  = (map PropGetNode (seq 0 (length (clips in_))), Undefined).
Proof.
  intros Hcheck Hbw Hpad. unfold vsTrtCreate.
  rewrite configure_unfold, for_each_emit, Hcheck, parse_pad_eq.
  destruct (Z.ltb_spec (given_pad in_) 0); [lia|].
  rewrite !bind_returned.
  unfold resolve_block_size, pad_leaves_nothing, int_mul, int_result.
  rewrite Hbw. cbn [propGetInt negb].
  assert (in_int (2 * given_pad in_) = false) as ->.
  { unfold in_int, INT_MAX. apply andb_false_iff. right.
    apply Z.leb_gt. lia. }
  destruct (propGetInt (prop_block_h in_)) as [v2 error2].
  cbn. by rewrite app_nil_r.
Qed.

(** X15. [block_h] counts only together with [block_w]: without [block_w] the
    whole frame is the tile and setup runs as if [block_h] was not given. *)
Theorem block_h_alone_ignored h in_ :
  prop_block_w in_ = None ->
  vsTrtCreate h in_ = vsTrtCreate h (without_block_h in_).
Proof.
  intros Hbw. destruct in_ as [cl path p w bh dev graph ns verb].
  simpl in Hbw. subst w. by destruct bh.
Qed.

(** *** The life of a created filter *)

Lemma quiet_frees_nothing t :
  Forall (fun c => is_quiet c = true) t -> omap freed_node t = [].
Proof.
  induction 1 as [|c t Hc _ IH]; [done|].
  csimpl. rewrite IH. by destruct c.
Qed.

Lemma omap_freed_nodes (nodes : list VSNodeRef) :
  omap freed_node (map (fun node => FreeNode (node_id node)) nodes)
  = map node_id nodes.
Proof. induction nodes as [|node nodes IH]; [done|]. csimpl. by rewrite IH. Qed.

(** X16. Over the life of a created filter every node taken from the
    arguments is freed exactly once: setup frees none, and [vsTrtFree]
    frees each of them, in order, before it makes current the device that
    setup validated. *)
Theorem created_then_freed h in_ t d :
  vsTrtCreate h in_ = (t, Returned d) ->
  omap freed_node t = []
  /\ vsTrtFree d
     = (map (fun node => FreeNode (node_id node)) (clips in_)
        ++ [CudaSetDevice (given_device in_)], Returned tt)
  /\ omap freed_node (t ++ trace (vsTrtFree d)) = map node_id (clips in_)
  /\ exists device_count,
       cudaGetDeviceCount h = inl device_count
       /\ 0 <= given_device in_ < device_count.
Proof.
  intros Hrun.
  pose proof (settles_vsTrtCreate h in_) as Hs.
  unfold settles in Hs. rewrite Hrun in Hs. cbn in Hs.
  destruct Hs as (before & -> & Hq).
  apply vsTrtCreate_Returned in Hrun as (cfg & t1 & Hcfg & Halloc & _).
  apply configure_Returned in Hcfg
    as (_ & _ & _ & _ & Hid & (device_count & Hcount & Hrange & _) & _).
  apply allocate_Returned in Halloc as (_ & Hn & Hd & _).
  assert (vsTrtFree d
          = (map (fun node => FreeNode (node_id node)) (clips in_)
             ++ [CudaSetDevice (given_device in_)], Returned tt)) as Hfree.
  { unfold vsTrtFree. rewrite for_each_emit, bind_returned, Hn, Hd, Hid. done. }
  assert (omap freed_node (before ++ [CreateFilter]) = []) as Hnone.
  { rewrite omap_app, quiet_frees_nothing by done. done. }
  split; [done|]. split; [done|]. split.
  - rewrite omap_app, Hnone, Hfree. unfold trace. cbn [fst app].
    rewrite omap_app, omap_freed_nodes. csimpl. by rewrite app_nil_r.
  - exists device_count. split; [done|]. by rewrite <- Hid.
Qed.

(** X17. Setup and the pool fit together: on the pool of a created filter,
    whatever the interleaving of its callers, every index a caller holds
    is the index of an instance, so [d->instances[ticket]] is read in
    bounds. *)
Theorem handed_index_has_instance h in_ t d M sched w tid i :
  vsTrtCreate h in_ = (t, Returned d) ->
  num_streams d + Z.of_nat (length sched) <= INTPTR_MAX ->
  Pool.exec {| Pool.shared := pool d;
               Pool.threads := replicate M Pool.Idle;
               Pool.log := [] |} sched = Some w ->
  Pool.holds w tid i ->
  0 <= i < num_streams d
  /\ exists instance, instance_at (instances d) i = Some instance.
Proof.
  intros Hrun Hlen Hexec Hholds.
  apply vsTrtCreate_Returned in Hrun as (cfg & t1 & _ & Halloc & _).
  apply allocate_Returned in Halloc
    as (Hone & _ & _ & Hs & _ & _ & _ & Hpool & Hinst & _).
  rewrite Hpool, <- Hs in Hexec.
  destruct (PoolSafety.reachable_Inv (num_streams d) M sched)
    as (w' & Hexec' & HI); [lia|done|].
  unfold Pool.init in Hexec'. rewrite Hexec in Hexec'.
  injection Hexec' as <-.
  assert (i ∈ Pool.checked_out w) as Hin.
  { apply PoolSafety.holds_checked_out. eauto. }
  assert (i ∈ seqZ 0 (num_streams d)) as Hseq.
  { rewrite <- (Pool.inv_pool _ _ _ HI). apply elem_of_app. by right. }
  apply elem_of_seqZ in Hseq. split; [lia|].
  unfold instance_at. destruct (Z.ltb_spec i 0); [lia|].
  apply lookup_lt_is_Some_2. lia.
Qed.

(** *** The theorems at concrete arguments *)

Lemma failed_setup_frees_nodes_witness :
  exists before,
    trace (vsTrtCreate sample_setup_host (sample_args (Some (-1)) None None None))
    = before ++ [SetError ("operator(): " ++ msg_pad_negative); FreeNode 0]
    /\ (forall c, c ∈ before -> is_quiet c = true).
Proof.
  apply (failed_setup_frees_nodes sample_setup_host
           (sample_args (Some (-1)) None None None)).
  reflexivity.
Defined.

Lemma created_iff_accepted_witness :
  exists t d,
    vsTrtCreate sample_setup_host (sample_args None None None (Some 2))
    = (t, Returned d).
Proof.
  apply (created_iff_accepted sample_setup_host
           (sample_args None None None (Some 2))).
  unfold accepted.
  split; [discriminate|]. split; [reflexivity|]. split; [vm_compute; discriminate|].
  split.
  { exists 1. split; [reflexivity|]. split; [|reflexivity].
    vm_compute. split; [discriminate|reflexivity]. }
  split; [vm_compute; discriminate|].
  exists (VideoSize 64 64), sample_engine. split.
  - simpl. split; [reflexivity|]. split; [reflexivity|]. split.
    + exists vi64. split; [reflexivity|]. split; reflexivity.
    + vm_compute. repeat split; discriminate.
  - split; [reflexivity|]. intros j _. eexists. reflexivity.
Defined.

Lemma created_filter_descriptor_witness :
  exists t d,
    vsTrtCreate sample_setup_host (sample_args None None None (Some 2))
    = (t, Returned d)
    /\ num_streams d = 2
    /\ Z.of_nat (length (instances d)) = 2
    /\ Pool.tickets (pool d) = [0; 1].
Proof.
  destruct (vsTrtCreate sample_setup_host (sample_args None None None (Some 2)))
    as [t [d| | |]] eqn:Hrun; try (vm_compute in Hrun; discriminate).
  destruct (created_filter_descriptor _ _ _ _ Hrun)
    as (_ & _ & _ & Hs & _ & _ & _ & Hlen & Htk & _).
  exists t, d. split; [reflexivity|].
  rewrite Hs in Hlen, Htk. split; [exact Hs|]. split; [exact Hlen|exact Htk].
Defined.

Lemma engine_loaded_after_validation_witness :
  0 <= given_pad (sample_args (Some 4) (Some 32) None None) <= INT_MAX
  /\ CudaSetDevice 0
       ∈ trace (vsTrtCreate sample_setup_host
                  (sample_args (Some 4) (Some 32) None None)).
Proof.
  destruct (engine_loaded_after_validation sample_setup_host
              (sample_args (Some 4) (Some 32) None None))
    as (_ & Hpad & _ & _ & Hset).
  - exists "model.engine". vm_compute.
    apply list_elem_of_In. simpl. auto 10.
  - split; [exact Hpad|exact Hset].
Defined.

Lemma invalid_device_rejected_witness :
  vsTrtCreate (sample_host_with 1 (inl sample_engine) 1) (sample_args_on 3)
  = ([PropGetNode 0; CudaGetDeviceCount;
      SetError "operator(): invalid device ID (3)"; FreeNode 0],
     Failed "operator(): invalid device ID (3)").
Proof.
  apply (invalid_device_rejected (sample_host_with 1 (inl sample_engine) 1)
           (sample_args_on 3) 1).
  - vm_compute. apply list_elem_of_In. simpl. auto.
  - reflexivity.
  - vm_compute. intros [_ H]. discriminate H.
Defined.

Lemma engine_failure_ends_setup_witness :
  vsTrtCreate (sample_host_with 1 (inr "no such file") 1)
    (sample_args None None None None)
  = ([PropGetNode 0; CudaGetDeviceCount; CudaSetDevice 0;
      CreateInferRuntime; InitEngine "model.engine";
      SetError "operator(): no such file"; FreeNode 0],
     Failed "operator(): no such file").
Proof.
  apply (engine_failure_ends_setup (sample_host_with 1 (inr "no such file") 1)
           (sample_args None None None None) "no such file").
  - exists "model.engine". vm_compute. apply list_elem_of_In. simpl. auto 10.
  - reflexivity.
Defined.

Lemma instance_failure_ends_setup_witness :
  exists t,
    vsTrtCreate (sample_host_with 1 (inl sample_engine) 1)
      (sample_args None None None (Some 3))
    = (t ++ [GetResource 0; GetResource 1;
             SetError "operator(): out of memory"; FreeNode 0],
       Failed "operator(): out of memory").
Proof.
  destruct (configure (sample_host_with 1 (inl sample_engine) 1)
              (sample_args None None None (Some 3)))
    as [t [cfg| | |]] eqn:Hcfg; try (vm_compute in Hcfg; discriminate).
  exists t.
  apply (instance_failure_ends_setup _ _ t cfg 1 "out of memory" Hcfg);
    vm_compute in Hcfg; injection Hcfg as _ <-.
  - vm_compute. split; [discriminate|reflexivity].
  - intros j Hj. assert (j = 0) as -> by lia. eexists. reflexivity.
  - reflexivity.
Defined.

Lemma huge_pad_undefined_witness :
  vsTrtCreate sample_setup_host
    (sample_args (Some (2 ^ 30)) (Some 32) None None)
  = ([PropGetNode 0], Undefined).
Proof.
  apply (huge_pad_undefined sample_setup_host
           (sample_args (Some (2 ^ 30)) (Some 32) None None) 32).
  - reflexivity.
  - reflexivity.
  - vm_compute. discriminate.
Defined.

Lemma block_h_alone_ignored_witness :
  vsTrtCreate sample_setup_host (sample_args None None (Some 16) None)
  = vsTrtCreate sample_setup_host (sample_args None None None None).
Proof.
  apply (block_h_alone_ignored sample_setup_host
           (sample_args None None (Some 16) None)).
  reflexivity.
Defined.

Lemma created_then_freed_witness :
  exists t d,
    vsTrtCreate sample_setup_host (sample_args None None None None)
    = (t, Returned d)
    /\ omap freed_node (t ++ trace (vsTrtFree d)) = [0%nat].
Proof.
  destruct (vsTrtCreate sample_setup_host (sample_args None None None None))
    as [t [d| | |]] eqn:Hrun; try (vm_compute in Hrun; discriminate).
  destruct (created_then_freed _ _ _ _ Hrun) as (_ & _ & Hall & _).
  exists t, d. split; [reflexivity|exact Hall].
Defined.

Lemma handed_index_has_instance_witness :
  exists t d w,
    vsTrtCreate sample_setup_host (sample_args None None None (Some 2))
    = (t, Returned d)
    /\ Pool.exec {| Pool.shared := pool d;
                    Pool.threads := replicate 3 Pool.Idle;
                    Pool.log := [] |} (repeat 1%nat 6) = Some w
    /\ Pool.holds w 1 1
    /\ exists instance, instance_at (instances d) 1 = Some instance.
Proof.
  destruct (vsTrtCreate sample_setup_host (sample_args None None None (Some 2)))
    as [t [d| | |]] eqn:Hrun; try (vm_compute in Hrun; discriminate).
  pose proof Hrun as Hd. vm_compute in Hd. injection Hd as _ <-.
  eexists t, _, _. split; [reflexivity|]. split; [vm_compute; reflexivity|].
  assert (Pool.holds
            {| Pool.shared :=
                 {| Pool.semaphore := {| Pool.ticket := 1; Pool.current := 2 |};
                    Pool.tickets := [0];
                    Pool.instances_lock := false |};
               Pool.threads := [Pool.Idle; Pool.Holding 1; Pool.Idle];
               Pool.log := [Pool.EvTake 1 0; Pool.EvPass 1 0] |} 1 1) as Hholds.
  { eexists. split; reflexivity. }
  split; [exact Hholds|].
  refine (proj2 (handed_index_has_instance _ _ _ _ 3 (repeat 1%nat 6) _ 1 1
                   Hrun _ _ Hholds)).
  - vm_compute. discriminate.
  - vm_compute. reflexivity.
Defined.

End SetupOutcomes.

(** ** More on the frame function: activations and edge cases *)

Module FrameEdges.

Import Host Filter Setup Samples FrameProtocol SetupObs FrameObs SetupOutcomes.

(** X18. Before the frames are ready a request only asks for them: on the
    first activation it requests frame [n] of every node once, in order;
    on any other activation but the last it calls nothing. It never
    touches the pool and returns no frame. *)
Theorem not_ready_only_requests h n reason d :
  reason <> arAllFramesReady ->
  outcome (vsTrtGetFrame h n reason d) = Returned None
  /\ trace (vsTrtGetFrame h n reason d)
     = match reason with
       | arInitial =>
           map (fun node => RequestFrameFilter n (node_id node)) (nodes d)
       | _ => []
       end
  /\ (forall c, c ∈ trace (vsTrtGetFrame h n reason d) -> uses_pool c = false).
Proof.
  intros Hreason.
  assert (vsTrtGetFrame h n reason d
          = (match reason with
             | arInitial =>
                 map (fun node => RequestFrameFilter n (node_id node)) (nodes d)
             | _ => []
             end, Returned None)) as ->.
  { destruct reason; try done.
    unfold vsTrtGetFrame. rewrite for_each_emit, bind_returned.
    unfold trace, outcome; simpl. by rewrite app_nil_r. }
  split; [done|]. split; [done|].
  unfold trace; simpl. intros c Hc.
  destruct reason; try by apply elem_of_nil in Hc.
  by apply list_elem_of_fmap in Hc as (node & -> & _).
Qed.

Lemma not_ready_only_requests_witness :
  trace (vsTrtGetFrame (sample_frame_host None) 7 arInitial
           (sample_filter doubling_instance))
  = [RequestFrameFilter 7 0].
Proof.
  destruct (not_ready_only_requests (sample_frame_host None) 7 arInitial
              (sample_filter doubling_instance)) as (_ & Htrace & _).
  - discriminate.
  - exact Htrace.
Defined.

(** X19. A plane count of the engine that is negative, as a dynamic channel
    dimension reads, ends the request at the [reserve] of the pointer
    vector: the request is terminated, with the source frames fetched and
    none of them freed, and without the pool being touched. *)
Theorem negative_planes_terminate h n d :
  dim (binding0 (engine d)) 1 < 0
  \/ (nodes d <> [] /\ 0 <= dim (binding0 (engine d)) 1
      /\ dim (binding1 (engine d)) 1 < 0) ->
  outcome (vsTrtGetFrame h n arAllFramesReady d) = Terminated
  /\ (forall c, c ∈ trace (vsTrtGetFrame h n arAllFramesReady d) ->
        (exists node, c = GetFrameFilter n node) \/ c = NewVideoFrame n).
Proof.
  intros Hneg. unfold vsTrtGetFrame. rewrite getFrames_spec, bind_returned.
  destruct Hneg as [Hsrc|(Hnodes & Hsrc & Hdst)].
  - rewrite (reserve_negative _ Hsrc), bind_terminated.
    unfold trace, outcome; cbn [fst snd]. rewrite app_nil_r.
    split; [done|]. intros c Hc.
    apply list_elem_of_fmap in Hc as (node & -> & _). eauto.
  - destruct (nodes d) as [|node0 rest]; [done|].
    rewrite (reserve_nonneg _ Hsrc), (reserve_negative _ Hdst).
    cbn. split; [done|]. intros c Hc.
    apply elem_of_cons in Hc as [->|Hc]; [eauto|].
    apply elem_of_app in Hc as [Hc|Hc].
    + apply list_elem_of_fmap in Hc as (node & -> & _). eauto.
    + apply list_elem_of_In in Hc. simpl in Hc. destruct Hc as [<-|[]]. eauto.
Qed.

Lemma negative_planes_terminate_witness :
  outcome (vsTrtGetFrame (sample_frame_host None) 7 arAllFramesReady
             (sample_filter_with dynamic_engine doubling_instance))
  = Terminated.
Proof.
  destruct (negative_planes_terminate (sample_frame_host None) 7
              (sample_filter_with dynamic_engine doubling_instance))
    as [Hout _].
  - left. vm_compute. reflexivity.
  - exact Hout.
Defined.

(** X20. An input patch of height or width 0 makes the scale a division by
    zero: the request has no defined result, and by then it has taken an
    instance from the pool that it does not give back. *)
Theorem zero_patch_undefined h n d instance :
  nodes d <> [] ->
  0 <= dim (binding0 (engine d)) 1 ->
  0 <= dim (binding1 (engine d)) 1 ->
  instance_at (instances d) (host_acquire h) = Some instance ->
  dim (binding0 (exec_context instance)) 2 = 0
  \/ dim (binding0 (exec_context instance)) 3 = 0 ->
  vsTrtGetFrame h n arAllFramesReady d
  = (map (fun node => GetFrameFilter n (node_id node)) (nodes d)
     ++ [NewVideoFrame n; PoolAcquire],
     Undefined).
Proof.
  intros Hnodes Hsrc Hdst Hinst Hzero.
  assert (derive_scales instance = None) as Hgeom.
  { unfold derive_scales, int_div.
    destruct Hzero as [-> | ->]; [done|].
    rewrite Z.eqb_refl.
    by destruct (if _ =? 0 then None else _). }
  destruct (nodes d) as [|node0 rest] eqn:Hn; [done|].
  unfold vsTrtGetFrame. rewrite Hn, getFrames_spec.
  rewrite (reserve_nonneg _ Hsrc), (reserve_nonneg _ Hdst), Hinst.
  cbn -[read_ptrs seqZ String.append derive_scales].
  rewrite Hgeom. cbn. done.
Qed.

Lemma zero_patch_undefined_witness :
  vsTrtGetFrame (sample_frame_host None) 7 arAllFramesReady
    (sample_filter (bound_instance 3 0 32 3 64 64))
  = ([GetFrameFilter 7 0; NewVideoFrame 7; PoolAcquire], Undefined).
Proof.
  apply (zero_patch_undefined (sample_frame_host None) 7
           (sample_filter (bound_instance 3 0 32 3 64 64))
           (bound_instance 3 0 32 3 64 64)).
  - discriminate.
  - vm_compute. discriminate.
  - vm_compute. discriminate.
  - reflexivity.
  - left. reflexivity.
Defined.

(** X21. Setup and the frame function fit together: a filter that setup
    created, whose engine has plane counts that are not negative and whose
    instances are bound to patches that can be divided, serves a ready
    request on any index of the pool: the request runs to its [return],
    gives back the instance it took, and returns a frame exactly when it
    reported no error. *)
Theorem created_filter_serves h in_ t d fh n :
  vsTrtCreate h in_ = (t, Returned d) ->
  0 <= dim (binding0 (engine d)) 1 ->
  0 <= dim (binding1 (engine d)) 1 ->
  0 <= host_acquire fh < num_streams d ->
  (forall instance, instance ∈ instances d -> sound_patches instance) ->
  exists r,
    outcome (vsTrtGetFrame fh n arAllFramesReady d) = Returned r
    /\ PoolRelease (host_acquire fh)
         ∈ trace (vsTrtGetFrame fh n arAllFramesReady d)
    /\ (r = None <->
        exists msg,
          SetFilterError msg ∈ trace (vsTrtGetFrame fh n arAllFramesReady d)).
Proof.
  intros Hrun Hsrc Hdst Hticket Hsound.
  apply vsTrtCreate_Returned in Hrun as (cfg & t1 & _ & Halloc & _).
  apply allocate_Returned in Halloc
    as (_ & Hn & _ & Hs & _ & _ & _ & _ & Hlen & _
        & (vi0 & _ & Hvi & _) & _).
  assert (nodes d <> []) as Hnodes.
  { rewrite Hn. intros Hnil. by rewrite Hnil in Hvi. }
  destruct (lookup_lt_is_Some_2 (instances d) (Z.to_nat (host_acquire fh)))
    as [instance Hinst]; [lia|].
  assert (instance_at (instances d) (host_acquire fh) = Some instance) as Hat.
  { unfold instance_at. destruct (Z.ltb_spec (host_acquire fh) 0); [lia|done]. }
  destruct (Hsound instance) as (Hh & Hw & Hdh & Hdw).
  { by eapply list_elem_of_lookup_2. }
  pose proof (derive_scales_positive instance Hdh Hdw Hh Hw) as Hgeom.
  destruct (vsTrtGetFrame_ready fh n d instance Hnodes Hsrc Hdst Hat _ _ _ _ Hgeom)
    as (info & src_ptrs & dst_ptrs & _ & _ & _ & _ & _ & ->).
  eexists. split; [reflexivity|]. unfold trace; cbn [fst]. split.
  - rewrite elem_of_app. right. apply list_elem_of_In. simpl. tauto.
  - destruct (host_inference fh instance _ _ info src_ptrs dst_ptrs) as [msg|].
    + split; [|done]. intros _. eexists.
      apply elem_of_app. right. apply elem_of_app. right.
      apply elem_of_app. right. left.
    + split; [done|]. intros [msg Hin]. exfalso.
      rewrite app_nil_r in Hin.
      apply elem_of_app in Hin as [Hin|Hin].
      { apply list_elem_of_fmap in Hin as (? & ? & _). done. }
      apply list_elem_of_In in Hin. simpl in Hin.
      destruct Hin as [|[|[|[|Hin]]]]; try done.
      apply list_elem_of_In, list_elem_of_fmap in Hin as (? & ? & _). done.
Qed.

Lemma created_filter_serves_witness :
  exists t d r,
    vsTrtCreate sample_setup_host (sample_args None None None None)
    = (t, Returned d)
    /\ outcome (vsTrtGetFrame (sample_frame_host None) 7 arAllFramesReady d)
       = Returned r
    /\ PoolRelease 0
         ∈ trace (vsTrtGetFrame (sample_frame_host None) 7 arAllFramesReady d).
Proof.
  destruct (vsTrtCreate sample_setup_host (sample_args None None None None))
    as [t [d| | |]] eqn:Hrun; try (vm_compute in Hrun; discriminate).
  destruct (created_filter_serves _ _ _ _ (sample_frame_host None) 7 Hrun)
    as (r & Hout & Hrel & _).
  1-4: vm_compute in Hrun; injection Hrun as _ <-.
  - vm_compute. discriminate.
  - vm_compute. discriminate.
  - vm_compute. split; [discriminate|reflexivity].
  - intros instance Hin. apply list_elem_of_In in Hin. simpl in Hin.
    destruct Hin as [<-|[]]. vm_compute. repeat split; discriminate || reflexivity.
  - exists t, d, r. split; [reflexivity|]. split; [exact Hout|exact Hrel].
Defined.

End FrameEdges.
